(** * Climate dashboard (app.js): normalisation, aggregation and KPI logic

    A shallow embedding of the data-processing code of [app.js]:
    [utils.formatNumber], [updateStats], [getMonthlyBaseline] and the series
    construction of [renderCO2Chart] and [renderSeaIceChart]; then the
    temperature chart with its label formatters, [utils.showError],
    [renderAllCharts], [hideLoading], [init] and the theme toggle.

    Modelling conventions.
    - A JS number that carries a measurement ([average], [anomaly], [extent],
      a median entry, a KPI delta) is an IEEE-754 binary64 value: Rocq's
      primitive [float], with the same [+], [-], [/] and comparisons.
    - [year] and [month] are integers ([Z]); the wire schema types them as
      [int], and they are taken to be in the range where a JS number is an
      exact integer and prints in decimal notation (up to [2^53] in
      magnitude).  A property key made from them is their decimal
      rendering.
    - [null] in a 12-slot array is [None]; a slot holding a number is [Some].
    - A parsed JSON object used as a dictionary is a [gmap string _] when
      only lookups and the key set matter, and an association list in
      property order when the code iterates [Object.keys] without sorting.
    - The DOM is a finite map from element ids to elements; an unguarded
      property write on a missing element raises [TypeError].  Of an
      element the model keeps the class attribute and the children as the
      last [textContent] or [innerHTML] assignment left them.
    - String literals are byte strings in UTF-8, copied byte for byte
      from the source file (whose non-ASCII text is stored doubly
      encoded, and is kept so).  Strings are compared byte by byte, which
      on ASCII strings (year and month keys, ISO timestamps) is the
      code-unit order JS uses.
    - In [CO2Chart], [SeaIceChart] and [TempChart] the chart containers are
      taken to exist; [Page] adds the containers, the error messages and
      [state.charts].  Of a chart, the model keeps the fields of the options
      object that are computed from the data.
    - A [class] attribute is its string; the [classList] methods act on its
      token set as the DOM standard defines them (split on ASCII white
      space, first occurrences kept, serialised with single spaces).
    - [init] takes the three documents as the fetches left them; the
      network, the timers and the chart library are outside the model. *)

From Stdlib Require Import ZArith String Ascii DecimalString DecimalZ DecimalPos.
From Stdlib Require Import DecimalN DecimalFacts.
From Stdlib Require Import Uint63 PrimFloat SpecFloat FloatOps FloatAxioms.
From stdpp Require Import gmap strings list sorting.

Local Open Scope string_scope.
Local Open Scope Z_scope.

(** ** JavaScript primitives used by the code *)

Module Js.

(** [String(n)] for an integral number [n], also the property key that
    [obj[n]] reads or writes: the decimal digits of [n], with a minus sign
    when [n] is negative.  This is the rendering for the integers that a
    JS number holds exactly, up to [2^53] in magnitude ([safe_integer]
    below); larger numbers print rounded, and from [10^21] on in exponent
    notation. *)
Definition key_of_int (z : Z) : string :=
  NilZero.string_of_int (Z.to_int z).

(** The order of [Array.prototype.sort()] without a comparator: elements
    are compared as strings, code unit by code unit. *)
Definition str_le (a b : string) : Prop := String.leb a b = true.

#[global] Instance str_le_dec a b : Decision (str_le a b).
Proof. unfold str_le. apply _. Defined.

(** [arr.sort()] on an array of strings. *)
Definition sort (l : list string) : list string := merge_sort str_le l.

(** [Object.keys(o)] for a dictionary whose key order is immaterial
    (every use in the code sorts the keys next). *)
Definition keys {V} (o : gmap string V) : list string := elements (dom o).

(** A count kept in a JS number, as a number. *)
Definition num_of_nat (n : nat) : float :=
  PrimFloat.of_uint63 (Uint63.of_Z (Z.of_nat n)).

(** Truthiness of a number: every number but [0], [-0] and [NaN]. *)
Definition truthy_num (x : float) : bool :=
  negb (PrimFloat.is_zero x || PrimFloat.is_nan x).

(** Truthiness of a string: every string but the empty one. *)
Definition truthy_str (s : string) : bool :=
  match s with EmptyString => false | _ => true end.

End Js.

(** ** Wire schema: the three series documents *)

(** One slot of a year bucket or of a reference curve. *)
Abbreviation slot := (option float).

Record Co2Obs := { co2_year : Z; co2_month : Z; average : float }.
Record TempObs := { temp_year : Z; temp_month : Z; anomaly : float }.
Record IceObs := { ice_month : Z; extent : float }.

Record Co2Doc := {
  co2_data : option (list Co2Obs);
  co2_last_updated : option string }.

Record TempDoc := {
  temp_data : option (list TempObs);
  baseline : option string;
  temp_last_updated : option string }.

Record IceDoc := {
  ice_data : option (gmap string (list IceObs));
  median : option (list (string * float));
  ice_last_updated : option string }.

(** The part of the global [state] object the data code reads. *)
Record State := {
  co2Data : option Co2Doc;
  temperatureData : option TempDoc;
  seaIceData : option IceDoc }.

(** ** Chart series *)

Record Series := { name : string; data : list slot }.

(** [new Array(12).fill(null)] *)
Definition empty_bucket : list slot := replicate 12 None.

(** [d.month >= 1 && d.month <= 12] *)
Definition valid_month (m : Z) : bool := (1 <=? m) && (m <=? 12).

(** [arr[m - 1] = v] on a 12-slot array, for a month that passed the guard. *)
Definition set_month (m : Z) (v : float) (b : list slot) : list slot :=
  <[Z.to_nat (m - 1) := Some v]> b.

Module CO2.

(** [if (!dataByYear[d.year]) dataByYear[d.year] = new Array(12).fill(null)] *)
Definition ensure_year (k : string) (acc : gmap string (list slot))
  : gmap string (list slot) :=
  match acc !! k with
  | Some _ => acc
  | None => <[k := empty_bucket]> acc
  end.

(** The body of the [forEach] that groups the observations by year. *)
Definition group_step (acc : gmap string (list slot)) (d : Co2Obs)
  : gmap string (list slot) :=
  let k := Js.key_of_int (co2_year d) in
  let acc1 := ensure_year k acc in
  if valid_month (co2_month d)
  then alter (set_month (co2_month d) (average d)) k acc1
  else acc1.

Definition dataByYear (obs : list Co2Obs) : gmap string (list slot) :=
  foldl group_step ∅ obs.

(** [Object.keys(dataByYear).sort().reverse().slice(0, K)]; the code has
    [K = 5]. *)
Definition outputYears (K : nat) (byYear : gmap string (list slot))
  : list string :=
  take K (reverse (Js.sort (Js.keys byYear))).

(** The year series: [outputYears.map(year => ({name, data}))]. *)
Definition yearSeries (K : nat) (obs : list Co2Obs) : list Series :=
  let byYear := dataByYear obs in
  (λ year, {| name := year; data := byYear !!! year |})
    <$> outputYears K byYear.

End CO2.

(** ** Aggregator: the reference curve *)

(** The body of the [forEach] in [getMonthlyBaseline]: [acc] holds
    [monthlySums] and [monthlyCounts]. *)
Definition baseline_step (startYear endYear : Z)
    (acc : list float * list nat) (d : Co2Obs) : list float * list nat :=
  if (startYear <=? co2_year d) && (co2_year d <=? endYear)
     && (1 <=? co2_month d) && (co2_month d <=? 12)
  then
    let i := Z.to_nat (co2_month d - 1) in
    (alter (λ s, s + average d)%float i acc.1, alter S i acc.2)
  else acc.

Definition baseline_sums_counts (obs : list Co2Obs) (startYear endYear : Z)
  : list float * list nat :=
  foldl (baseline_step startYear endYear)
        (replicate 12 0%float, replicate 12 0%nat) obs.

(** [monthlyCounts[i] > 0 ? sum / monthlyCounts[i] : null] *)
Definition mean_slot (counts : list nat) (i : nat) (sum : float) : slot :=
  let c := counts !!! i in
  if (0 <? c)%nat then Some (sum / Js.num_of_nat c)%float else None.

Definition getMonthlyBaseline (obs : list Co2Obs) (startYear endYear : Z)
  : list slot :=
  let sc := baseline_sums_counts obs startYear endYear in
  imap (mean_slot sc.2) sc.1.

(** ** Chart-spec builder *)

(** The fields of the ApexCharts options that depend on the data. *)
Record ChartSpec := {
  series : list Series;
  colors : list string;
  stroke_width : list Z;
  stroke_dashArray : list Z;
  categories : list string }.

Definition months : list string :=
  ["Jan"; "Feb"; "MÃ¤r"; "Apr"; "Mai"; "Jun";
   "Jul"; "Aug"; "Sep"; "Okt"; "Nov"; "Dez"].

(** [series.map((_, i) => i === series.length - 1 && last ? a : b)] *)
Definition style_last {A} (l : list A) (last : bool) (a b : Z) : list Z :=
  imap (λ i _, if (Z.of_nat i =? Z.of_nat (length l) - 1) && last
               then a else b) l.

Module CO2Chart.

Definition baseline_name : string := "1991-2020 Mittel".

(** [series] after [series.push({ name: '1991-2020 Mittel', ... })]. *)
Definition chartSeries (K : nat) (obs : list Co2Obs) : list Series :=
  CO2.yearSeries K obs
  ++ [ {| name := baseline_name;
          data := getMonthlyBaseline obs 1991 2020 |} ].

Definition palette : list string :=
  ["#f97316"; "#fb923c"; "#fdba74"; "#fed7aa"; "#ffedd5"; "#9ca3af"].

(** [renderCO2Chart] up to the options object; [None] is the branch that
    shows the error message instead of a chart. *)
Definition renderCO2Chart (st : State) : option ChartSpec :=
  match co2Data st with
  | Some {| co2_data := Some ((_ :: _) as obs) |} =>
      let s := chartSeries 5 obs in
      Some {| series := s;
              colors := take (length s) palette;
              stroke_width := style_last s true 2 3;
              stroke_dashArray := style_last s true 5 0;
              categories := months |}
  | _ => None
  end.

End CO2Chart.

Module SeaIce.

(** [yd.forEach(d => { if (d.month >= 1 && d.month <= 12)
    md[d.month - 1] = d.extent; })] *)
Definition ice_step (md : list slot) (d : IceObs) : list slot :=
  if valid_month (ice_month d)
  then set_month (ice_month d) (extent d) md
  else md.

Definition yearBucket (yd : list IceObs) : list slot :=
  foldl ice_step empty_bucket yd.

(** [Object.keys(data).sort().reverse().slice(0, K)]; the code has
    [K = 5]. *)
Definition years (K : nat) (d : gmap string (list IceObs)) : list string :=
  take K (reverse (Js.sort (Js.keys d))).

Definition yearSeries (K : nat) (d : gmap string (list IceObs))
  : list Series :=
  (λ y, {| name := y; data := yearBucket (d !!! y) |}) <$> years K d.

End SeaIce.

(** ** [parseInt] on property keys *)

Module ParseInt.

(** White space that [parseInt] strips from the front: the
    StrWhiteSpaceChar class.  Its ASCII members are TAB, LF, VT, FF, CR
    and SP. *)
Definition is_ws (c : ascii) : bool :=
  let n := nat_of_ascii c in
  ((9 <=? n) && (n <=? 13))%nat || (n =? 32)%nat.

(** Its member with a UTF-8 encoding of two bytes: U+00A0 (C2 A0). *)
Definition is_ws2 (c1 c2 : ascii) : bool :=
  ((nat_of_ascii c1 =? 194) && (nat_of_ascii c2 =? 160))%nat.

(** Its members with an encoding of three bytes: U+1680 (E1 9A 80),
    U+2000 to U+200A (E2 80 80 to E2 80 8A), U+2028 and U+2029
    (E2 80 A8, E2 80 A9), U+202F (E2 80 AF), U+205F (E2 81 9F), U+3000
    (E3 80 80) and U+FEFF (EF BB BF). *)
Definition is_ws3 (c1 c2 c3 : ascii) : bool :=
  let n1 := nat_of_ascii c1 in
  let n2 := nat_of_ascii c2 in
  let n3 := nat_of_ascii c3 in
  ((n1 =? 225) && (n2 =? 154) && (n3 =? 128)
   || (n1 =? 226) && (n2 =? 128)
      && ((128 <=? n3) && (n3 <=? 138) || (n3 =? 168) || (n3 =? 169)
          || (n3 =? 175))
   || (n1 =? 226) && (n2 =? 129) && (n3 =? 159)
   || (n1 =? 227) && (n2 =? 128) && (n3 =? 128)
   || (n1 =? 239) && (n2 =? 187) && (n3 =? 191))%nat.

Fixpoint skip_ws (s : string) : string :=
  match s with
  | String c1 r1 =>
      if is_ws c1 then skip_ws r1
      else
        match r1 with
        | String c2 r2 =>
            if is_ws2 c1 c2 then skip_ws r2
            else
              match r2 with
              | String c3 r3 => if is_ws3 c1 c2 c3 then skip_ws r3 else s
              | EmptyString => s
              end
        | EmptyString => s
        end
  | EmptyString => s
  end.

(** The value of a digit in the given radix, if it is one. *)
Definition digit_val (radix : Z) (c : ascii) : option Z :=
  let n := Z.of_nat (nat_of_ascii c) in
  let v := if (48 <=? n) && (n <=? 57) then Some (n - 48)
           else if (97 <=? n) && (n <=? 122) then Some (n - 87)
           else if (65 <=? n) && (n <=? 90) then Some (n - 55)
           else None in
  match v with
  | Some d => if d <? radix then Some d else None
  | None => None
  end.

(** The longest prefix of digits, read as a number; [acc] is [None] until
    a digit has been consumed. *)
Fixpoint digits (radix : Z) (s : string) (acc : option Z) : option Z :=
  match s with
  | String c r =>
      match digit_val radix c with
      | Some d => digits radix r (Some (default 0 acc * radix + d))
      | None => acc
      end
  | EmptyString => acc
  end.

(** [parseInt(s)] with no radix argument; [None] is [NaN].  The result
    is the mathematical value of the digits, which is the number
    [parseInt] returns as long as that value is at most [2^53] in
    magnitude. *)
Definition parseInt (s : string) : option Z :=
  let s1 := skip_ws s in
  let '(neg, s2) :=
    match s1 with
    | String "-" r => (true, r)
    | String "+" r => (false, r)
    | _ => (false, s1)
    end in
  let '(radix, s3) :=
    match s2 with
    | String "0" (String "x" r) => (16, r)
    | String "0" (String "X" r) => (16, r)
    | _ => (10, s2)
    end in
  (λ n, if neg : bool then - n else n) <$> digits radix s3 None.

End ParseInt.

Module SeaIceChart.

Definition median_name : string := "1981-2010 Median".

(** [Object.keys(median).forEach(m => { const i = parseInt(m) - 1;
    if (i >= 0 && i < 12) md[i] = median[m]; })]; the association list
    holds the object's properties in key order, each key once. *)
Definition median_step (md : list slot) (kv : string * float) : list slot :=
  match ParseInt.parseInt kv.1 with
  | Some n =>
      let i := n - 1 in
      if (0 <=? i) && (i <? 12) then <[Z.to_nat i := Some kv.2]> md else md
  | None => md
  end.

Definition medianBucket (med : list (string * float)) : list slot :=
  foldl median_step empty_bucket med.

(** [series] after the optional push of the median series. *)
Definition chartSeries (K : nat) (d : gmap string (list IceObs))
    (med : option (list (string * float))) : list Series :=
  SeaIce.yearSeries K d
  ++ match med with
     | Some m => [ {| name := median_name; data := medianBucket m |} ]
     | None => []
     end.

Definition gradientColors : list string :=
  ["#06b6d4"; "#22d3ee"; "#67e8f9"; "#a5f3fc"; "#cffafe"].

(** [renderSeaIceChart] up to the options object; [None] is the branch
    that shows the error message instead of a chart. *)
Definition renderSeaIceChart (st : State) : option ChartSpec :=
  match seaIceData st with
  | Some {| ice_data := Some d; median := med |} =>
      let s := chartSeries 5 d med in
      Some {| series := s;
              colors := take (length (SeaIce.years 5 d)) gradientColors
                        ++ match med with
                           | Some _ => ["#9ca3af"]
                           | None => []
                           end;
              stroke_width := style_last s (bool_decide (is_Some med)) 2 3;
              stroke_dashArray := style_last s (bool_decide (is_Some med)) 5 0;
              categories := months |}
  | _ => None
  end.

End SeaIceChart.

(** ** Exceptions *)

Inductive error := TypeError | RangeError.

Inductive result (A : Type) :=
| Ok (a : A)
| Raise (e : error).
Arguments Ok {A} a.
Arguments Raise {A} e.

#[global] Instance result_bind : MBind result :=
  λ A B f r, match r with Ok a => f a | Raise e => Raise e end.

(** ** [Number.prototype.toFixed] and [utils.formatNumber] *)

Module Number.

(** The decimal digits of a natural number. *)
Definition digits_of_N (n : N) : string :=
  NilZero.string_of_uint (N.to_uint n).

Fixpoint zeros (n : nat) : string :=
  match n with
  | O => EmptyString
  | S k => String "0" (zeros k)
  end.

Fixpoint split_at (n : nat) (s : string) : string * string :=
  match n, s with
  | S k, String c r => let '(a, b) := split_at k r in (String c a, b)
  | _, _ => (EmptyString, s)
  end.

(** [toFixed], the step that pads the digits [m] of the scaled integer
    with zeros to [f + 1] characters and puts the point before the last
    [f] of them. *)
Definition place_point (m : string) (f : nat) : string :=
  match f with
  | O => m
  | S _ =>
      let k := String.length m in
      let m' := if (k <=? f)%nat then zeros (f + 1 - k) ++ m else m in
      let k' := if (k <=? f)%nat then (f + 1)%nat else k in
      let '(a, b) := split_at (k' - f) m' in
      a ++ "." ++ b
  end.

(** Does the real number [v] round to the double [m * 2^e]?  Used for
    doubles of at least [10^21], where [e > 1] and [m] is normal. *)
Definition rounds_to (m : positive) (e : Z) (v : Z) : bool :=
  let X := Z.pos m * 2 ^ e in
  let hi := 2 ^ (e - 1) in
  let lo := if Z.pos m =? 2 ^ 52 then 2 ^ (e - 2) else 2 ^ (e - 1) in
  if Z.even (Z.pos m)
  then (X - lo <=? v) && (v <=? X + hi)
  else (X - lo <? v) && (v <? X + hi).

(** The [k]-digit decimal [s] with [s * 10^(nX - k)] rounding to
    [m * 2^e], the closest one if there are two. *)
Definition shortest_at (m : positive) (e : Z) (nX k : nat) : option Z :=
  let X := Z.pos m * 2 ^ e in
  let p := 10 ^ (Z.of_nat nX - Z.of_nat k) in
  let s0 := X / p in
  let ok0 := rounds_to m e (s0 * p) in
  let ok1 := rounds_to m e ((s0 + 1) * p) in
  match ok0, ok1 with
  | true, true =>
      let d0 := X - s0 * p in
      let d1 := (s0 + 1) * p - X in
      if d0 <? d1 then Some s0
      else if d1 <? d0 then Some (s0 + 1)
      else if Z.even s0 then Some s0 else Some (s0 + 1)
  | true, false => Some s0
  | false, true => Some (s0 + 1)
  | false, false => None
  end.

Fixpoint shortest (m : positive) (e : Z) (nX k fuel : nat) : nat * Z :=
  match fuel with
  | O => (nX, Z.pos m * 2 ^ e)
  | S fuel' =>
      match shortest_at m e nX k with
      | Some s => (k, s)
      | None => shortest m e nX (S k) fuel'
      end
  end.

(** [Number::toString] for a finite double [m * 2^e >= 10^21]: the
    shortest digits that read back as the same double, in exponent
    notation. *)
Definition toString_large (m : positive) (e : Z) : string :=
  let nX := String.length (digits_of_N (Z.to_N (Z.pos m * 2 ^ e))) in
  let '(k, s) := shortest m e nX 1 17 in
  let '(s, n) := if s =? 10 ^ Z.of_nat k
                 then (10 ^ (Z.of_nat k - 1), S nX) else (s, nX) in
  match digits_of_N (Z.to_N s) with
  | String c r =>
      String c (match r with EmptyString => r | _ => "." ++ r end)
      ++ "e+" ++ digits_of_N (N.of_nat (n - 1))
  | EmptyString => EmptyString
  end.

(** [x.toFixed(f)]; a number of fraction digits above 100 is a
    [RangeError]. *)
Definition toFixed (x : float) (f : nat) : result string :=
  if (100 <? f)%nat then Raise RangeError
  else Ok
    match Prim2SF x with
    | S754_nan => "NaN"
    | S754_infinity s => if s then "-Infinity" else "Infinity"
    | S754_zero _ => place_point "0" f
    | S754_finite s m e =>
        let sign := if s then "-" else "" in
        let num := Z.pos m * 2 ^ Z.max e 0 in
        let den := 2 ^ Z.max (- e) 0 in
        if 10 ^ 21 * den <=? num
        then sign ++ toString_large m e
        else
          let n := (2 * num * 10 ^ Z.of_nat f + den) / (2 * den) in
          sign ++ place_point (digits_of_N (Z.to_N n)) f
    end.

End Number.

(** A JS value where the code expects a number that may be missing. *)
Inductive value := Undefined | Null | Num (x : float).

(** [(num, dec = 2) => num == null ? '--' : Number(num).toFixed(dec)] *)
Definition formatNumber (num : value) (dec : nat) : result string :=
  match num with
  | Num x => Number.toFixed x dec
  | Undefined | Null => Ok "--"
  end.

(** ** The markup the code writes

    The template literals of the code, character for character; [dq] is
    the double quote and [nl] the line feed. *)

Module Markup.

Definition dq : string := String (ascii_of_nat 34) EmptyString.

Definition nl : string := String (ascii_of_nat 10) EmptyString.

(** The template of [utils.showError], with [${msg}] filled in. *)
Definition error_message (msg : string) : string :=
  "<div class=" ++ dq ++
  "error-message flex items-center justify-center h-full" ++ dq ++
  "><div class=" ++ dq ++ "text-center" ++ dq ++ "><svg class=" ++ dq ++
  "w-12 h-12 mx-auto mb-3 text-red-400" ++ dq ++ " fill=" ++ dq ++ "none" ++
  dq ++ " stroke=" ++ dq ++ "currentColor" ++ dq ++ " viewBox=" ++ dq ++
  "0 0 24 24" ++ dq ++ "><path stroke-linecap=" ++ dq ++ "round" ++ dq ++
  " stroke-linejoin=" ++ dq ++ "round" ++ dq ++ " stroke-width=" ++ dq ++
  "2" ++ dq ++ " d=" ++ dq ++
  "M12 9v2m0 4h.01m-6.938 4h13.856c1.54 0 2.502-1.667 1.732-3L1" ++
  "3.732 4c-.77-1.333-2.694-1.333-3.464 0L3.34 16c-.77 1.333.19" ++
  "2 3 1.732 3z" ++ dq ++ "/></svg><p class=" ++ dq ++ "text-sm" ++ dq ++
  ">" ++ msg ++ "</p></div></div>".

(** The template written to [co2-absolute], with the formatted value
    filled in. *)
Definition co2_absolute (t : string) : string :=
  nl ++ "                <div class=" ++ dq ++ "flex flex-col sm:inline" ++
  dq ++ ">" ++ nl ++ "                    <span>Aktuell: <span class=" ++
  dq ++ "text-climate-text-primary font-medium" ++ dq ++ ">" ++ t ++
  " ppm</span></span>" ++ nl ++ "                    <span class=" ++ dq ++
  "text-climate-text-secondary text-[10px] sm:text-xs opacity-7" ++
  "5 sm:ml-1" ++ dq ++ ">(Ã„nderung zum Vorjahr)</span>" ++ nl ++
  "                </div>" ++ nl ++ "            ".

(** The template written to [ice-absolute], with the formatted value
    filled in. *)
Definition ice_absolute (t : string) : string :=
  nl ++ "                        <div class=" ++ dq ++
  "flex flex-col sm:inline" ++ dq ++ ">" ++ nl ++
  "                            <span>Ausdehnung: <span class=" ++ dq ++
  "text-climate-text-primary font-medium" ++ dq ++ ">" ++ t ++
  " Mio. kmÂ²</span></span>" ++ nl ++
  "                            <span class=" ++ dq ++
  "text-climate-text-secondary text-[10px] sm:text-xs opacity-7" ++
  "5 sm:ml-1" ++ dq ++ ">(Diff. zum 1981-2010 Mittel)</span>" ++ nl ++
  "                        </div>" ++ nl ++ "                    ".

End Markup.

(** ** The DOM as far as the code touches it *)

(** The children of an element, as the last write to the element left
    them: a [textContent] assignment replaces them by one text node, an
    [innerHTML] assignment by what the parser makes of the markup.  The
    code never reads either property back. *)
Inductive Content :=
| Text (s : string)
| Markup (s : string).

Record Element := {
  children : Content;
  className : string }.

Abbreviation Document := (gmap string Element).

(** [el.textContent = v] *)
Definition set_textContent (v : string) (el : Element) : Element :=
  {| children := Text v; className := className el |}.

(** [el.className = v] *)
Definition set_className (v : string) (el : Element) : Element :=
  {| children := children el; className := v |}.

(** [el.innerHTML = v] *)
Definition set_innerHTML (v : string) (el : Element) : Element :=
  {| children := Markup v; className := className el |}.

(** [const el = document.getElementById(id); if (el) { ... }] *)
Definition if_element (id : string) (f : Element → result Element)
    (dom : Document) : result Document :=
  match dom !! id with
  | Some el => el' ← f el; Ok (<[id := el']> dom)
  | None => Ok dom
  end.

(** [document.getElementById(id).prop = ...], with no guard: a missing
    element makes the property write a [TypeError]. *)
Definition element (id : string) (f : Element → result Element)
    (dom : Document) : result Document :=
  match dom !! id with
  | Some el => el' ← f el; Ok (<[id := el']> dom)
  | None => Raise TypeError
  end.

(** [utils.getMonthName]: [[...][m - 1] || ''] *)
Definition getMonthName (m : Z) : string :=
  if 1 <=? m then default "" (months !! Z.to_nat (m - 1)) else "".

(** [(x >= 0 ? '+' : '') + utils.formatNumber(x, 2)] *)
Definition signed_text (x : float) : result string :=
  s ← formatNumber (Num x) 2;
  Ok ((if (0 <=? x)%float then "+" else "") ++ s).

(** ** Stat builder: [updateStats] *)

Module Stats.

(** [state.co2Data.data[state.co2Data.data.length - 1]]; [None] when the
    array is empty (the guard [data.length > 0] fails). *)
Definition latestCO2 (obs : list Co2Obs) : option Co2Obs := last obs.

(** [data.find(d => d.year === latest.year - 1 && d.month === latest.month)] *)
Definition previousYearCO2 (obs : list Co2Obs) (latestCO2 : Co2Obs)
  : option Co2Obs :=
  List.find (λ d, (co2_year d =? co2_year latestCO2 - 1)
                  && (co2_month d =? co2_month latestCO2)) obs.

(** [let change = 0; if (previousYearCO2) change = latest.average -
    previousYearCO2.average] *)
Definition co2_change (obs : list Co2Obs) (latestCO2 : Co2Obs) : float :=
  match previousYearCO2 obs latestCO2 with
  | Some prev => (average latestCO2 - average prev)%float
  | None => 0%float
  end.

Definition kpi_class (good : bool) : string :=
  "text-3xl font-bold "
  ++ (if good then "text-climate-accent-teal" else "text-climate-accent-red").

(** The CO2 tile. *)
Definition co2Stats (st : State) (dom : Document) : result Document :=
  match co2Data st with
  | Some {| co2_data := Some obs |} =>
      match latestCO2 obs with
      | Some latest =>
          dom ← if_element "co2-date" (λ el,
            Ok (set_textContent
                  (getMonthName (co2_month latest) ++ " "
                   ++ Js.key_of_int (co2_year latest) ++ " â€¢") el)) dom;
          let change := co2_change obs latest in
          dom ← if_element "co2-kpi" (λ el,
            t ← signed_text change;
            Ok (set_className (kpi_class (negb (0 <=? change)%float))
                  (set_textContent t el))) dom;
          if_element "co2-absolute" (λ el,
            t ← formatNumber (Num (average latest)) 2;
            Ok (set_innerHTML (Markup.co2_absolute t) el)) dom
      | None => Ok dom
      end
  | _ => Ok dom
  end.

(** The temperature tile; two of its writes are unguarded. *)
Definition tempStats (st : State) (dom : Document) : result Document :=
  match temperatureData st with
  | Some {| temp_data := Some obs; baseline := b |} =>
      match last obs with
      | Some latestTemp =>
          dom ← element "current-temp" (λ el,
            t ← signed_text (anomaly latestTemp);
            Ok (set_textContent t el)) dom;
          dom ← if_element "temp-date" (λ el,
            Ok (set_textContent
                  (getMonthName (temp_month latestTemp) ++ " "
                   ++ Js.key_of_int (temp_year latestTemp) ++ " â€¢") el)) dom;
          match b with
          | Some s =>
              if Js.truthy_str s
              then element "temp-baseline" (λ el, Ok (set_textContent s el)) dom
              else Ok dom
          | None => Ok dom
          end
      | None => Ok dom
      end
  | _ => Ok dom
  end.

(** [obj[k]] on an object given as its property list. *)
Definition get {V} (o : list (string * V)) (k : string) : option V :=
  snd <$> List.find (λ kv, String.eqb kv.1 k) o.

(** [let diff = 0; if (median && median[latestMonth.month]) diff =
    latestMonth.extent - median[latestMonth.month]] *)
Definition ice_diff (med : option (list (string * float)))
    (latestMonth : IceObs) : float :=
  match med with
  | Some m =>
      match get m (Js.key_of_int (ice_month latestMonth)) with
      | Some v =>
          if Js.truthy_num v then (extent latestMonth - v)%float else 0%float
      | None => 0%float
      end
  | None => 0%float
  end.

(** [Object.keys(data).sort().reverse()] *)
Definition ice_years (d : gmap string (list IceObs)) : list string :=
  reverse (Js.sort (Js.keys d)).

(** [latestYearData[latestYearData.length - 1]] of the first year of
    [ice_years]; [None] is [undefined]. *)
Definition ice_latest (d : gmap string (list IceObs))
  : option (string * IceObs) :=
  match ice_years d with
  | latestYear :: _ =>
      match last (d !!! latestYear) with
      | Some latestMonth => Some (latestYear, latestMonth)
      | None => None
      end
  | [] => None
  end.

(** The sea-ice tile. *)
Definition iceStats (st : State) (dom : Document) : result Document :=
  match seaIceData st with
  | Some {| ice_data := Some d; median := med |} =>
      match ice_latest d with
      | Some (latestYear, latestMonth) =>
          dom ← if_element "ice-date" (λ el,
            Ok (set_textContent
                  (getMonthName (ice_month latestMonth) ++ " "
                   ++ latestYear ++ " â€¢") el)) dom;
          let diff := ice_diff med latestMonth in
          dom ← if_element "ice-kpi" (λ el,
            t ← signed_text diff;
            Ok (set_className (kpi_class (0 <=? diff)%float)
                  (set_textContent t el))) dom;
          if_element "ice-absolute" (λ el,
            t ← formatNumber (Num (extent latestMonth)) 2;
            Ok (set_innerHTML (Markup.ice_absolute t) el)) dom
      | None => Ok dom
      end
  | _ => Ok dom
  end.

(** [co2Data?.last_updated], [temperatureData?.last_updated] and
    [seaIceData?.last_updated], in the order the [||] chain reads them. *)
Definition stamps (st : State) : list (option string) :=
  [ co2Data st ≫= co2_last_updated;
    temperatureData st ≫= temp_last_updated;
    seaIceData st ≫= ice_last_updated ].

(** [a?.last_updated] read for its truthiness: [None] when the document
    or the field is missing or the string is empty. *)
Definition truthy_stamp (s : option string) : option string :=
  match s with
  | Some t => if Js.truthy_str t then Some t else None
  | None => None
  end.

(** [co2Data?.last_updated || temperatureData?.last_updated ||
    seaIceData?.last_updated], when the result is truthy. *)
Definition upd (st : State) : option string :=
  match truthy_stamp (co2Data st ≫= co2_last_updated) with
  | Some t => Some t
  | None =>
      match truthy_stamp (temperatureData st ≫= temp_last_updated) with
      | Some t => Some t
      | None => truthy_stamp (seaIceData st ≫= ice_last_updated)
      end
  end.

Section with_locale.

(** [new Date(str).toLocaleDateString('de-DE', {...})], which depends on
    the host's locale data and time zone. *)
Variable toLocaleDateString : string → string.

(** [utils.formatDate] *)
Definition formatDate (str : option string) : string :=
  match truthy_stamp str with
  | Some t => toLocaleDateString t
  | None => "--"
  end.

(** [if (upd) document.getElementById('last-updated').textContent =
    utils.formatDate(upd)] *)
Definition updatedStats (st : State) (dom : Document) : result Document :=
  match upd st with
  | Some t =>
      element "last-updated"
              (λ el, Ok (set_textContent (formatDate (Some t)) el)) dom
  | None => Ok dom
  end.

Definition updateStats (st : State) (dom : Document) : result Document :=
  dom ← co2Stats st dom;
  dom ← tempStats st dom;
  dom ← iceStats st dom;
  updatedStats st dom.

End with_locale.

End Stats.

(** ** Vocabulary of the specification *)

(** Every bucket of a grouping has the twelve slots of a year. *)
Definition buckets_ok (acc : gmap string (list slot)) : Prop :=
  map_Forall (λ _ b, length b = 12%nat) acc.

(** The observation lies in the window [startYear..endYear] and belongs to
    the calendar month of slot [i]. *)
Definition in_window (startYear endYear : Z) (i : nat) (d : Co2Obs) : bool :=
  (startYear <=? co2_year d) && (co2_year d <=? endYear)
  && (co2_month d =? Z.of_nat i + 1).

(** How many observations of the window fall on slot [i]. *)
Definition matching (startYear endYear : Z) (i : nat) (obs : list Co2Obs)
  : nat :=
  length (List.filter (in_window startYear endYear i) obs).

Definition is_digit (c : ascii) : bool :=
  let n := nat_of_ascii c in ((48 <=? n) && (n <=? 57))%nat.

Fixpoint all_digits (s : string) : bool :=
  match s with
  | String c r => is_digit c && all_digits r
  | EmptyString => true
  end.

(** The string starts with the character [c]. *)
Definition head_is (c : ascii) (s : string) : bool :=
  match s with
  | String c' _ => Ascii.eqb c c'
  | EmptyString => false
  end.

(** The number a string of decimal digits denotes. *)
Fixpoint decimal_value_from (acc : Z) (s : string) : Z :=
  match s with
  | String c r =>
      decimal_value_from (acc * 10 + (Z.of_nat (nat_of_ascii c) - 48)) r
  | EmptyString => acc
  end.

Definition decimal_value (s : string) : Z := decimal_value_from 0 s.

(** The magnitude of a finite number, as the fraction [num / den] of two
    integers with [den > 0]. *)
Definition magnitude (x : float) : option (Z * Z) :=
  match Prim2SF x with
  | S754_zero _ => Some (0, 1)
  | S754_finite _ m e => Some (Z.pos m * 2 ^ Z.max e 0, 2 ^ Z.max (- e) 0)
  | _ => None
  end.

(** The integers a JS number holds exactly and prints digit by digit. *)
Definition safe_integer (z : Z) : bool := (- 2 ^ 53 <=? z) && (z <=? 2 ^ 53).

(** The string with the given bytes. *)
Definition bytes (l : list nat) : string :=
  string_of_list_ascii (ascii_of_nat <$> l).

(** The white space of the StrWhiteSpaceChar class, in UTF-8: TAB, LF, VT,
    FF, CR, SP, U+00A0, U+1680, U+2000 to U+200A, U+2028, U+2029, U+202F,
    U+205F, U+3000 and U+FEFF. *)
Definition white_space : list string :=
  bytes <$>
    [ [9]; [10]; [11]; [12]; [13]; [32]; [194; 160]; [225; 154; 128];
      [226; 128; 128]; [226; 128; 129]; [226; 128; 130]; [226; 128; 131];
      [226; 128; 132]; [226; 128; 133]; [226; 128; 134]; [226; 128; 135];
      [226; 128; 136]; [226; 128; 137]; [226; 128; 138]; [226; 128; 168];
      [226; 128; 169]; [226; 128; 175]; [226; 129; 159]; [227; 128; 128];
      [239; 187; 191] ]%nat.

(** The observation is the comparator of [latest]: same month, one year
    before. *)
Definition year_before (latest d : Co2Obs) : Prop :=
  co2_year d = co2_year latest - 1 ∧ co2_month d = co2_month latest.

(** Years whose decimal rendering has four digits. *)
Definition four_digit (y : Z) : bool := (1000 <=? y) && (y <=? 9999).

(** Chronological order on (year, month). *)
Definition chron_le (a b : Z * Z) : Prop :=
  a.1 < b.1 ∨ (a.1 = b.1 ∧ a.2 ≤ b.2).

Definition co2_date (d : Co2Obs) : Z * Z := (co2_year d, co2_month d).

(** The [K] most recent distinct years of a list of years, latest first. *)
Definition recent_years (K : nat) (ys : list Z) : list Z :=
  take K (reverse (merge_sort Z.le (remove_dups ys))).

(** Timestamps of one ISO-8601 format and time zone are ordered as their
    strings are. *)
Definition stamp_le (a b : string) : Prop := Js.str_le a b.

(** The latest of a list of timestamps. *)
Definition most_recent (l : list string) : option string :=
  foldr (λ t acc, match acc with
                  | Some u => if bool_decide (stamp_le u t) then Some t else Some u
                  | None => Some t
                  end) None l.

(** The [last_updated] values that are present, in document order. *)
Definition present_stamps (st : State) : list string :=
  omap Stats.truthy_stamp (Stats.stamps st).

(** ** Sample documents *)

Module Sample.

Definition co2 (y m : Z) (v : float) : Co2Obs :=
  {| co2_year := y; co2_month := m; average := v |}.

Definition ice (m : Z) (v : float) : IceObs :=
  {| ice_month := m; extent := v |}.

Definition blank : Element :=
  {| children := Text ""; className := "" |}.

Definition co2_state (obs : list Co2Obs) : State :=
  {| co2Data := Some {| co2_data := Some obs; co2_last_updated := None |};
     temperatureData := None;
     seaIceData := None |}.

Definition ice_doc (d : gmap string (list IceObs))
    (med : option (list (string * float))) : IceDoc :=
  {| ice_data := Some d; median := med; ice_last_updated := None |}.

Definition ice_state (d : gmap string (list IceObs))
    (med : option (list (string * float))) : State :=
  {| co2Data := None;
     temperatureData := None;
     seaIceData := Some (ice_doc d med) |}.

(** 2024-06 compared with a missing 2023-06. *)
Definition gap_year : list Co2Obs := [co2 2022 6 418; co2 2024 6 420].

(** 2024-06 equal to 2023-06. *)
Definition no_change : list Co2Obs := [co2 2023 6 420; co2 2024 6 420].

(** The observations of the specification's example, latest first. *)
Definition latest_first : list Co2Obs := [co2 2024 6 420; co2 2023 6 418.5].

(** Two years whose decimal renderings differ in length. *)
Definition short_year : list Co2Obs := [co2 999 1 1; co2 1000 1 2].

(** Six consecutive years, the last of them with one digit more. *)
Definition six_years : list Co2Obs :=
  [co2 995 1 1; co2 996 1 2; co2 997 1 3; co2 998 1 4; co2 999 1 5;
   co2 1000 1 6].

(** 2023-06 and 2024-06 in chronological order. *)
Definition year_pair : list Co2Obs := [co2 2023 6 418.5; co2 2024 6 420].

(** Two finite values whose difference is not finite. *)
Definition huge_swing : list Co2Obs :=
  [co2 2023 6 (- 0x1p+1023); co2 2024 6 0x1p+1023].

(** A valid observation of 2019 and one of 2020 with a month outside
    1..12. *)
Definition month13 : list Co2Obs := [co2 2019 6 1; co2 2020 13 5].

Definition ice_2024 : gmap string (list IceObs) :=
  {[ "2024" := [ice 9 4.25] ]}.

Definition ice_two_years : gmap string (list IceObs) :=
  <[ "2024" := [ice 8 5.5; ice 9 4.25] ]> {[ "2023" := [ice 9 4.5] ]}.

Definition ice_2024_empty : gmap string (list IceObs) :=
  <[ "2024" := [] ]> {[ "2023" := [ice 9 4.5] ]}.

Definition ice_short_year : gmap string (list IceObs) :=
  <[ "999" := [ice 9 4.5] ]> {[ "1000" := [ice 9 4.25] ]}.

Definition zero_median : list (string * float) := [("9", 0%float)].

(** The CO2 document fetched a year before the temperature document. *)
Definition stale_co2 : State :=
  {| co2Data := Some {| co2_data := None;
                        co2_last_updated := Some "2024-01-01T00:00:00Z" |};
     temperatureData := Some {| temp_data := None; baseline := None;
                                temp_last_updated := Some "2025-01-01T00:00:00Z" |};
     seaIceData := None |}.

(** Three documents of which the first is the most recent, the other
    two not in order. *)
Definition first_is_latest : State :=
  {| co2Data := Some {| co2_data := None;
                        co2_last_updated := Some "2025-01-01T00:00:00Z" |};
     temperatureData := Some {| temp_data := None; baseline := None;
                                temp_last_updated := Some "2023-01-01T00:00:00Z" |};
     seaIceData := Some {| ice_data := None; median := None;
                           ice_last_updated := Some "2024-01-01T00:00:00Z" |} |}.

(** The same documents with the timestamps exchanged. *)
Definition fresh_co2 : State :=
  {| co2Data := Some {| co2_data := None;
                        co2_last_updated := Some "2025-01-01T00:00:00Z" |};
     temperatureData := Some {| temp_data := None; baseline := None;
                                temp_last_updated := Some "2024-01-01T00:00:00Z" |};
     seaIceData := None |}.

End Sample.

(** ** Strings: [split], [padStart] and class lists *)

Module Str.

(** [s.split(sep)] for a separator of one character, generalised to every
    character that satisfies [sep]: the pieces between separators, empty
    pieces included; a string without separator is its own single piece. *)
Fixpoint split_by (sep : ascii → bool) (s : string) : list string :=
  match s with
  | EmptyString => [EmptyString]
  | String a r =>
      if sep a then EmptyString :: split_by sep r
      else match split_by sep r with
           | h :: t => String a h :: t
           | [] => [String a EmptyString]
           end
  end.

(** No character of the string is a separator. *)
Fixpoint free_of (sep : ascii → bool) (s : string) : bool :=
  match s with
  | EmptyString => true
  | String a r => negb (sep a) && free_of sep r
  end.

(** [s.split('-')] *)
Definition split_dash (s : string) : list string :=
  split_by (Ascii.eqb "-") s.

(** [s.padStart(2, '0')] *)
Definition padStart2 (s : string) : string :=
  Number.zeros (2 - String.length s) ++ s.

(** ASCII white space as the DOM's token lists split on it: TAB, LF, FF,
    CR and SPACE. *)
Definition is_space (c : ascii) : bool :=
  let n := nat_of_ascii c in
  (n =? 9)%nat || (n =? 10)%nat || (n =? 12)%nat || (n =? 13)%nat
  || (n =? 32)%nat.

Definition nonempty (s : string) : bool :=
  match s with EmptyString => false | _ => true end.

(** The list without its repetitions: of equal elements the first is
    kept. *)
Fixpoint first_occurrences (l : list string) : list string :=
  match l with
  | [] => []
  | x :: r =>
      x :: List.filter (λ y, negb (String.eqb y x)) (first_occurrences r)
  end.

(** The token set of a [class] attribute: its white-space separated
    tokens, each once, in order of first appearance. *)
Definition tokens (s : string) : list string :=
  first_occurrences (List.filter nonempty (split_by is_space s)).

(** A class token: not empty and without white space. *)
Definition valid_token (t : string) : bool :=
  nonempty t && free_of is_space t.

(** The serialisation of a token set: the tokens joined by one space. *)
Definition serialize (ts : list string) : string := String.concat " " ts.

(** [el.classList.add(tok)], as the new value of [el.className]. *)
Definition classList_add (tok : string) (cls : string) : string :=
  let ts := tokens cls in
  serialize (if bool_decide (tok ∈ ts) then ts else (ts ++ [tok])%list).

(** [el.classList.remove(tok)], as the new value of [el.className]. *)
Definition classList_remove (tok : string) (cls : string) : string :=
  serialize (List.filter (λ t, negb (String.eqb t tok)) (tokens cls)).

(** [el.classList.toggle(tok, force)] with the [force] argument given:
    the token is added when [force] is true and it is missing, removed
    when [force] is false and it is there, and the attribute is left as it
    is otherwise. *)
Definition classList_toggle (tok : string) (force : bool) (cls : string)
  : string :=
  if bool_decide (tok ∈ tokens cls)
  then (if force then cls else classList_remove tok cls)
  else (if force then classList_add tok cls else cls).

End Str.

(** ** The temperature chart and its label formatters *)

Module TempChart.

(** One bar: [{ x: `${d.year}-${String(d.month).padStart(2, '0')}`,
    y: d.anomaly }]. *)
Record Point := { x : string; y : float }.

Definition label (d : TempObs) : string :=
  Js.key_of_int (temp_year d) ++ "-"
  ++ Str.padStart2 (Js.key_of_int (temp_month d)).

(** [arr.slice(-n)] *)
Definition slice_last {A} (n : nat) (l : list A) : list A :=
  drop (length l - n) l.

(** [data.slice(-360).map(d => ({ x: ..., y: d.anomaly }))] *)
Definition points (obs : list TempObs) : list Point :=
  (λ d, {| x := label d; y := anomaly d |}) <$> slice_last 360 obs.

(** [renderTemperatureChart] up to the series data; [None] is the branch
    that shows the error message instead of a chart. *)
Definition renderTemperatureChart (st : State) : option (list Point) :=
  match temperatureData st with
  | Some {| temp_data := Some ((_ :: _) as obs) |} => Some (points obs)
  | _ => None
  end.

(** The x-axis label formatter: [v => { if (!v) return ''; const p =
    v.split('-'); return p[1] === '01' ? p[0] : ''; }] *)
Definition axis_label (v : string) : string :=
  if Js.truthy_str v then
    match Str.split_dash v with
    | p0 :: p1 :: _ => if String.eqb p1 "01" then p0 else ""
    | _ => ""
    end
  else "".

(** [utils.getMonthName(parseInt(s))], where [s] may be [undefined]
    ([None]): [parseInt(undefined)] is [NaN], and the month name of [NaN]
    is the empty string. *)
Definition month_of_piece (s : option string) : string :=
  match s ≫= ParseInt.parseInt with
  | Some m => getMonthName m
  | None => ""
  end.

(** The tooltip's x formatter: [v => { const p = v.split('-'); return
    `${utils.getMonthName(parseInt(p[1]))} ${p[0]}`; }] *)
Definition tooltip_x (v : string) : string :=
  let p := Str.split_dash v in
  month_of_piece (p !! 1%nat) ++ " " ++ default "" (p !! 0%nat).

End TempChart.

(** ** What [updateStats] needs and what it may change *)

(** The second document is the first with new property values for some
    of the elements named in [ids]: no element appears or disappears, and
    an element not named is unchanged. *)
Definition writes_only (ids : list string) (dom dom' : Document) : Prop :=
  (∀ j, is_Some (dom' !! j) ↔ is_Some (dom !! j))
  ∧ ∀ j, j ∉ ids → dom' !! j = dom !! j.

(** The condition of the temperature block:
    [temperatureData && temperatureData.data && data.length > 0]. *)
Definition temp_block (st : State) : option (TempObs * option string) :=
  match temperatureData st with
  | Some {| temp_data := Some obs; baseline := b |} =>
      (λ latest, (latest, b)) <$> last obs
  | _ => None
  end.

(** The elements [updateStats] writes to without testing that
    [getElementById] found them. *)
Definition unguarded (st : State) : list string :=
  (match temp_block st with
   | Some (_, b) =>
       "current-temp"
       :: match Stats.truthy_stamp b with
          | Some _ => ["temp-baseline"]
          | None => []
          end
   | None => []
   end
   ++ match Stats.upd st with
      | Some _ => ["last-updated"]
      | None => []
      end)%list.

(** Every element [updateStats] may write to. *)
Definition stat_ids : list string :=
  ["co2-date"; "co2-kpi"; "co2-absolute";
   "current-temp"; "temp-date"; "temp-baseline";
   "ice-date"; "ice-kpi"; "ice-absolute";
   "last-updated"].

(** ** The theme toggle *)

Module Theme.

(** The part of the page the theme code touches: [state.isDarkMode], the
    [theme] item of [localStorage], and the class attributes of the body
    and of the two icons. *)
Record t := {
  isDarkMode : bool;
  stored : option string;
  body_class : string;
  sun_class : string;
  moon_class : string }.

(** [saved ? saved === 'dark' : prefDark] *)
Definition initial_mode (saved : option string) (prefDark : bool) : bool :=
  match saved with
  | Some s => if Js.truthy_str s then String.eqb s "dark" else prefDark
  | None => prefDark
  end.

(** [update()]: the three [classList.toggle] calls. *)
Definition update (th : t) : t :=
  {| isDarkMode := isDarkMode th;
     stored := stored th;
     body_class := Str.classList_toggle "light" (negb (isDarkMode th))
                     (body_class th);
     sun_class := Str.classList_toggle "hidden" (isDarkMode th) (sun_class th);
     moon_class := Str.classList_toggle "hidden" (negb (isDarkMode th))
                     (moon_class th) |}.

(** [initThemeToggle] up to the registration of the click handler. *)
Definition initThemeToggle (prefDark : bool) (th : t) : t :=
  update {| isDarkMode := initial_mode (stored th) prefDark;
            stored := stored th;
            body_class := body_class th;
            sun_class := sun_class th;
            moon_class := moon_class th |}.

(** The click handler, up to the re-rendering of the charts. *)
Definition click (th : t) : t :=
  update {| isDarkMode := negb (isDarkMode th);
            stored := Some (if negb (isDarkMode th) then "dark" else "light");
            body_class := body_class th;
            sun_class := sun_class th;
            moon_class := moon_class th |}.

End Theme.

(** ** The page: error messages, rendering and start-up *)

Module Page.

(** A chart object as far as its data goes. *)
Inductive Chart :=
| Line (spec : ChartSpec)
| Bars (pts : list TempChart.Point).

(** The document, [state.charts], [state.isDarkMode], the [theme] item of
    [localStorage] and the class attribute of the body. *)
Record t := {
  dom : Document;
  charts : gmap string Chart;
  isDarkMode : bool;
  stored : option string;
  body_class : string }.

Definition set_dom (d : Document) (pg : t) : t :=
  {| dom := d; charts := charts pg; isDarkMode := isDarkMode pg;
     stored := stored pg; body_class := body_class pg |}.

(** [state.charts[key] = new ApexCharts(el, opts)], after the chart
    stored there before, if any, was destroyed. *)
Definition set_chart (key : string) (c : Chart) (pg : t) : t :=
  {| dom := dom pg; charts := <[key := c]> (charts pg);
     isDarkMode := isDarkMode pg; stored := stored pg;
     body_class := body_class pg |}.

(** The messages of the code. *)
Definition co2_unavailable : string := "COâ‚‚-Daten nicht verfÃ¼gbar".

Definition temperature_unavailable : string := "Temperaturdaten nicht verfÃ¼gbar".

Definition seaice_unavailable : string := "Meereis-Daten nicht verfÃ¼gbar".

Definition data_unavailable : string := "Daten nicht verfÃ¼gbar".

(** [utils.showError]: [if (el) el.innerHTML = `...${msg}...`] *)
Definition showError (id msg : string) (d : Document) : Document :=
  alter (set_innerHTML (Markup.error_message msg)) id d.

(** [renderCO2Chart] *)
Definition renderCO2Chart (st : State) (pg : t) : t :=
  match dom pg !! "co2-chart", CO2Chart.renderCO2Chart st with
  | Some _, Some spec => set_chart "co2" (Line spec) pg
  | _, _ => set_dom (showError "co2-chart" co2_unavailable (dom pg)) pg
  end.

(** [renderTemperatureChart] *)
Definition renderTemperatureChart (st : State) (pg : t) : t :=
  match dom pg !! "temperature-chart", TempChart.renderTemperatureChart st with
  | Some _, Some pts => set_chart "temperature" (Bars pts) pg
  | _, _ =>
      set_dom (showError "temperature-chart" temperature_unavailable (dom pg))
              pg
  end.

(** [renderSeaIceChart] *)
Definition renderSeaIceChart (st : State) (pg : t) : t :=
  match dom pg !! "seaice-chart", SeaIceChart.renderSeaIceChart st with
  | Some _, Some spec => set_chart "seaIce" (Line spec) pg
  | _, _ => set_dom (showError "seaice-chart" seaice_unavailable (dom pg)) pg
  end.

(** The three chart containers. *)
Definition containers : list string :=
  ["co2-chart"; "temperature-chart"; "seaice-chart"].

(** [renderAllCharts] *)
Definition renderAllCharts (st : State) (pg : t) : t :=
  renderSeaIceChart st (renderTemperatureChart st (renderCO2Chart st pg)).

(** [hideLoading]: [if (o) o.classList.add('hidden')] *)
Definition hideLoading (d : Document) : Document :=
  alter (λ el, set_className (Str.classList_add "hidden" (className el)) el)
        "loading-overlay" d.

(** What [loadAllData] returns: [!!(co2 || temp || ice)]. *)
Definition loaded (st : State) : bool :=
  match co2Data st, temperatureData st, seaIceData st with
  | None, None, None => false
  | _, _, _ => true
  end.

(** The elements [initThemeToggle] uses without testing that
    [getElementById] found them. *)
Definition theme_ids : list string :=
  ["sun-icon"; "moon-icon"; "theme-toggle"].

(** [initThemeToggle] on the page: [update()] calls [classList.toggle] on
    the body and on the two icons, then the click handler is attached to
    the toggle; a missing icon or toggle makes the call a [TypeError].
    The page is taken to have a body. *)
Definition initThemeToggle (prefDark : bool) (pg : t) : result t :=
  match dom pg !! "sun-icon", dom pg !! "moon-icon",
        dom pg !! "theme-toggle" with
  | Some sun, Some moon, Some _ =>
      let th :=
        Theme.initThemeToggle prefDark
          {| Theme.isDarkMode := isDarkMode pg;
             Theme.stored := stored pg;
             Theme.body_class := body_class pg;
             Theme.sun_class := className sun;
             Theme.moon_class := className moon |} in
      Ok {| dom := <["moon-icon" := set_className (Theme.moon_class th) moon]>
                     (<["sun-icon" := set_className (Theme.sun_class th) sun]>
                        (dom pg));
            charts := charts pg;
            isDarkMode := Theme.isDarkMode th;
            stored := Theme.stored th;
            body_class := Theme.body_class th |}
  | _, _, _ => Raise TypeError
  end.

Section with_locale.

Variable toLocaleDateString : string → string.

(** [init], where [st] holds the three documents as [loadAllData] stores
    them once the fetches have settled: [initThemeToggle(); const ok =
    await loadAllData(); if (ok) { updateStats(); renderAllCharts(); }
    else { showError ... } hideLoading();] *)
Definition init (prefDark : bool) (st : State) (pg : t) : result t :=
  pg ← initThemeToggle prefDark pg;
  pg ← (if loaded st
        then d ← Stats.updateStats toLocaleDateString st (dom pg);
             Ok (renderAllCharts st (set_dom d pg))
        else Ok (set_dom
                   (showError "seaice-chart" data_unavailable
                      (showError "temperature-chart" data_unavailable
                         (showError "co2-chart" data_unavailable (dom pg))))
                   pg));
  Ok (set_dom (hideLoading (dom pg)) pg).

End with_locale.

End Page.


(** ** More sample documents *)

Module Fixture.

Definition temp (y m : Z) (v : float) : TempObs :=
  {| temp_year := y; temp_month := m; anomaly := v |}.

Definition temp_state (obs : list TempObs) (b : option string) : State :=
  {| co2Data := None;
     temperatureData := Some {| temp_data := Some obs; baseline := b;
                                temp_last_updated := None |};
     seaIceData := None |}.

(** A page with the two elements the temperature tile writes to without
    a guard, and a heading. *)
Definition temp_page : Document :=
  <[ "current-temp" := Sample.blank ]>
    (<[ "temp-baseline" := Sample.blank ]>
       {[ "title" := {| children := Text "Klima"; className := "" |} ]}).

(** A median table with entries for March and September. *)
Definition two_medians : list (string * float) := [("3", 15.5%float); ("9", 6.25%float)].

End Fixture.

(** * Properties *)

(** Case analysis on membership in an explicit list. *)
Ltac elem_cases H :=
  repeat match type of H with
         | _ ∈ _ :: _ => apply elem_of_cons in H as [->|H]
         | _ ∈ [] => by apply elem_of_nil in H
         end.

(** ** The order used by [sort()] *)

Lemma string_compare_trans_le a : ∀ b c,
  String.compare a b ≠ Gt → String.compare b c ≠ Gt → String.compare a c ≠ Gt.
Proof.
  induction a as [|x a IH]; intros [|y b] [|z c]; simpl; try congruence.
  unfold Ascii.compare.
  destruct (N.compare_spec (N_of_ascii x) (N_of_ascii y)) as [Hxy|Hxy|Hxy];
    destruct (N.compare_spec (N_of_ascii y) (N_of_ascii z)) as [Hyz|Hyz|Hyz];
    destruct (N.compare_spec (N_of_ascii x) (N_of_ascii z)) as [Hxz|Hxz|Hxz];
    try congruence; try lia; eauto.
Qed.

Lemma str_le_iff a b : Js.str_le a b ↔ String.compare a b ≠ Gt.
Proof. unfold Js.str_le, String.leb. destruct (String.compare a b); split; congruence. Qed.

#[global] Instance str_le_trans : Transitive Js.str_le.
Proof. intros a b c. rewrite !str_le_iff. apply string_compare_trans_le. Qed.

#[global] Instance str_le_total : Total Js.str_le.
Proof. intros a b. apply String.leb_total. Qed.

#[global] Instance str_le_antisym : AntiSymm (=) Js.str_le.
Proof. intros a b. apply String.leb_antisym. Qed.

#[global] Instance str_le_refl : Reflexive Js.str_le.
Proof. intros a. destruct (total Js.str_le a a); done. Qed.

Lemma sort_Permutation l : Js.sort l ≡ₚ l.
Proof. apply merge_sort_Permutation. Qed.

Lemma sort_Sorted l : Sorted Js.str_le (Js.sort l).
Proof. apply (Sorted_merge_sort Js.str_le). Qed.

(** The sorted keys do not depend on the order in which [Object.keys]
    lists them. *)
Lemma sort_proper l1 l2 : l1 ≡ₚ l2 → Js.sort l1 = Js.sort l2.
Proof.
  intros Hp. apply (Sorted_unique Js.str_le); try apply sort_Sorted.
  by rewrite !sort_Permutation.
Qed.

Lemma key_of_int_inj y y' : Js.key_of_int y = Js.key_of_int y' → y = y'.
Proof.
  unfold Js.key_of_int. intros H.
  apply DecimalZ.to_int_inj.
  assert (Hn : ∀ z, Z.to_int z ≠ Decimal.Pos Decimal.Nil ∧ Z.to_int z ≠ Decimal.Neg Decimal.Nil).
  { intros [|p|p]; simpl; split; try discriminate;
      intros [= Hp]; by apply (DecimalPos.Unsigned.to_uint_nonnil p). }
  apply (f_equal NilZero.int_of_string) in H.
  rewrite !NilZero.isi in H by apply Hn. congruence.
Qed.

Section normalizer.
Implicit Types (acc : gmap string (list slot)) (obs : list Co2Obs).

Lemma ensure_year_lookup k k' acc :
  CO2.ensure_year k acc !! k' =
    if decide (k = k') then Some (default empty_bucket (acc !! k)) else acc !! k'.
Proof.
  unfold CO2.ensure_year. case_decide; subst.
  - destruct (acc !! k') eqn:E; simpl; [done|]. by rewrite lookup_insert_eq.
  - destruct (acc !! k) eqn:E; [done|]. by rewrite lookup_insert_ne.
Qed.

Lemma group_step_lookup acc d k :
  CO2.group_step acc d !! k =
    if decide (Js.key_of_int (co2_year d) = k)
    then Some ((if valid_month (co2_month d)
                then set_month (co2_month d) (average d) else id)
                 (default empty_bucket (acc !! k)))
    else acc !! k.
Proof.
  unfold CO2.group_step. destruct (valid_month (co2_month d)).
  - rewrite lookup_alter. case_decide; subst; rewrite ensure_year_lookup.
    + by rewrite decide_True.
    + by rewrite decide_False.
  - rewrite ensure_year_lookup. case_decide; subst; done.
Qed.

Lemma group_step_ok acc d : buckets_ok acc → buckets_ok (CO2.group_step acc d).
Proof.
  intros Hok k b. rewrite group_step_lookup. case_decide; [|apply Hok].
  intros [= <-].
  assert (length (default empty_bucket (acc !! k)) = 12%nat) as Hl.
  { destruct (acc !! k) eqn:E; simpl; [by eapply Hok|done]. }
  destruct (valid_month _); simpl; [|done].
  unfold set_month. by rewrite length_insert.
Qed.

Lemma foldl_group_ok obs : ∀ acc, buckets_ok acc → buckets_ok (foldl CO2.group_step acc obs).
Proof. induction obs as [|d obs IH]; simpl; auto using group_step_ok. Qed.

Lemma dataByYear_ok obs : buckets_ok (CO2.dataByYear obs).
Proof. apply foldl_group_ok. apply map_Forall_empty. Qed.

Lemma group_step_dom acc d :
  dom (CO2.group_step acc d) = {[ Js.key_of_int (co2_year d) ]} ∪ dom acc.
Proof.
  apply set_eq. intros k. rewrite elem_of_union, elem_of_singleton, !elem_of_dom.
  rewrite group_step_lookup. case_decide; subst.
  - split; [auto|]. intros _. eauto.
  - split; [auto|]. intros [->|?]; done.
Qed.

Lemma foldl_group_dom obs : ∀ acc,
  dom (foldl CO2.group_step acc obs)
  = list_to_set ((λ d, Js.key_of_int (co2_year d)) <$> obs) ∪ dom acc.
Proof.
  induction obs as [|d obs IH]; intros acc; simpl.
  - by rewrite (left_id_L ∅ (∪)).
  - rewrite IH, group_step_dom.
    by rewrite (assoc_L (∪)), (comm_L (∪) (list_to_set _) {[ _ ]}).
Qed.

Lemma dataByYear_dom obs :
  dom (CO2.dataByYear obs) = list_to_set ((λ d, Js.key_of_int (co2_year d)) <$> obs).
Proof.
  unfold CO2.dataByYear.
  by rewrite foldl_group_dom, dom_empty_L, (right_id_L ∅ (∪)).
Qed.
End normalizer.

Lemma keys_NoDup {V} (o : gmap string V) : NoDup (Js.keys o).
Proof. apply NoDup_elements. Qed.

Lemma elem_of_keys {V} (o : gmap string V) k : k ∈ Js.keys o ↔ is_Some (o !! k).
Proof. unfold Js.keys. by rewrite elem_of_elements, elem_of_dom. Qed.

(** The keys in descending order, cut to [K]. *)
Section top_keys.
Variables (K : nat) (ks : list string).

Lemma top_elem_of k : k ∈ take K (reverse (Js.sort ks)) → k ∈ ks.
Proof.
  rewrite elem_of_take. intros (i & Hi & _).
  apply list_elem_of_lookup_2 in Hi.
  by rewrite elem_of_reverse, sort_Permutation in Hi.
Qed.

Lemma top_NoDup : NoDup ks → NoDup (take K (reverse (Js.sort ks))).
Proof.
  intros H. eapply sublist_NoDup; [|apply sublist_take].
  by rewrite reverse_Permutation, sort_Permutation.
Qed.

Lemma desc_Sorted : StronglySorted (flip Js.str_le) (reverse (Js.sort ks)).
Proof.
  apply Sorted_StronglySorted; [apply _|]. apply Sorted_reverse.
  apply sort_Sorted.
Qed.

Lemma top_Sorted :
  StronglySorted (flip Js.str_le) (take K (reverse (Js.sort ks))).
Proof.
  apply (StronglySorted_app_1_l _ _ (drop K (reverse (Js.sort ks)))).
  rewrite take_drop. apply desc_Sorted.
Qed.
End top_keys.

Section grouping.
Implicit Types (acc : gmap string (list slot)) (obs : list Co2Obs).

Lemma ensure_year_id k acc : is_Some (acc !! k) → CO2.ensure_year k acc = acc.
Proof. intros [b Hb]. unfold CO2.ensure_year. by rewrite Hb. Qed.

Lemma group_step_invalid acc d :
  valid_month (co2_month d) = false →
  CO2.group_step acc d = CO2.ensure_year (Js.key_of_int (co2_year d)) acc.
Proof. intros H. unfold CO2.group_step. by rewrite H. Qed.

Lemma group_step_ensure k acc d :
  CO2.group_step (CO2.ensure_year k acc) d
  = CO2.ensure_year k (CO2.group_step acc d).
Proof.
  apply map_eq. intros j.
  rewrite group_step_lookup, !ensure_year_lookup, !group_step_lookup.
  repeat case_decide; subst; simpl; try done.
Qed.

Lemma foldl_group_ensure k obs : ∀ acc,
  foldl CO2.group_step (CO2.ensure_year k acc) obs
  = CO2.ensure_year k (foldl CO2.group_step acc obs).
Proof.
  induction obs as [|d obs IH]; intros acc; simpl; [done|].
  by rewrite group_step_ensure, IH.
Qed.

Lemma dataByYear_invalid l1 d l2 :
  valid_month (co2_month d) = false →
  CO2.dataByYear (l1 ++ d :: l2)
  = CO2.ensure_year (Js.key_of_int (co2_year d)) (CO2.dataByYear (l1 ++ l2)).
Proof.
  intros H. unfold CO2.dataByYear. rewrite !foldl_app. simpl.
  by rewrite group_step_invalid, foldl_group_ensure.
Qed.

(** A slot of a bucket survives the observations that do not write it. *)
Lemma foldl_group_slot k (i : nat) obs : ∀ acc b,
  acc !! k = Some b →
  (∀ d, d ∈ obs → Js.key_of_int (co2_year d) = k →
         valid_month (co2_month d) = true → Z.to_nat (co2_month d - 1) ≠ i) →
  ∃ b', foldl CO2.group_step acc obs !! k = Some b' ∧ b' !! i = b !! i.
Proof.
  induction obs as [|d obs IH]; intros acc b Hb Hno; simpl; [eauto|].
  destruct (decide (Js.key_of_int (co2_year d) = k)) as [Hk|Hk].
  - edestruct (IH (CO2.group_step acc d)) as (b' & Hb' & Hi).
    { rewrite group_step_lookup, decide_True by done. reflexivity. }
    { intros d' Hd'. apply Hno. by right. }
    exists b'. split; [done|]. rewrite Hi, Hb. simpl.
    destruct (valid_month (co2_month d)) eqn:Hv; [|done].
    unfold set_month. apply list_lookup_insert_ne. apply Hno; [by left|done..].
  - apply IH; [|intros d' Hd'; apply Hno; by right].
    by rewrite group_step_lookup, decide_False.
Qed.

Lemma dataByYear_valid l1 d l2 :
  valid_month (co2_month d) = true →
  (∀ d', d' ∈ l2 → co2_year d' = co2_year d → co2_month d' ≠ co2_month d) →
  ∃ b, CO2.dataByYear (l1 ++ d :: l2) !! Js.key_of_int (co2_year d) = Some b
       ∧ b !! Z.to_nat (co2_month d - 1) = Some (Some (average d)).
Proof.
  intros Hv Hlast. unfold CO2.dataByYear. rewrite foldl_app. simpl.
  set (acc := foldl CO2.group_step ∅ l1).
  assert (buckets_ok acc) as Hok by apply dataByYear_ok.
  edestruct (foldl_group_slot (Js.key_of_int (co2_year d))
               (Z.to_nat (co2_month d - 1)) l2 (CO2.group_step acc d))
    as (b' & Hb' & Hi).
  { rewrite group_step_lookup, decide_True by done. rewrite Hv. reflexivity. }
  { intros d' Hd' Hk Hv' Hm. apply key_of_int_inj in Hk.
    apply (Hlast d' Hd' Hk).
    unfold valid_month in Hv, Hv'. lia. }
  exists b'. split; [done|]. rewrite Hi. unfold set_month.
  apply list_lookup_insert_eq.
  assert (length (default empty_bucket (acc !! Js.key_of_int (co2_year d))) = 12%nat) as ->.
  { destruct (acc !! _) eqn:E; simpl; [by eapply Hok|done]. }
  unfold valid_month in Hv. lia.
Qed.
End grouping.

Section sea_ice_bucket.
Lemma yearBucket_invalid l1 d l2 :
  valid_month (ice_month d) = false →
  SeaIce.yearBucket (l1 ++ d :: l2) = SeaIce.yearBucket (l1 ++ l2).
Proof.
  intros H. unfold SeaIce.yearBucket. rewrite !foldl_app. simpl.
  unfold SeaIce.ice_step at 2. by rewrite H.
Qed.

Lemma ice_step_length md d : length (SeaIce.ice_step md d) = length md.
Proof.
  unfold SeaIce.ice_step, set_month. destruct (valid_month _); [|done].
  by rewrite length_insert.
Qed.

Lemma foldl_ice_length l : ∀ md, length (foldl SeaIce.ice_step md l) = length md.
Proof. induction l as [|d l IH]; intros md; simpl; [done|]. by rewrite IH, ice_step_length. Qed.

Lemma yearBucket_length l : length (SeaIce.yearBucket l) = 12%nat.
Proof. unfold SeaIce.yearBucket. by rewrite foldl_ice_length. Qed.

Lemma foldl_ice_slot (i : nat) l : ∀ md,
  (∀ d, d ∈ l → valid_month (ice_month d) = true → Z.to_nat (ice_month d - 1) ≠ i) →
  foldl SeaIce.ice_step md l !! i = md !! i.
Proof.
  induction l as [|d l IH]; intros md Hno; simpl; [done|].
  rewrite IH by (intros d' Hd'; apply Hno; by right).
  unfold SeaIce.ice_step. destruct (valid_month (ice_month d)) eqn:Hv; [|done].
  unfold set_month. apply list_lookup_insert_ne. apply Hno; [by left|done].
Qed.

Lemma yearBucket_valid l1 d l2 :
  valid_month (ice_month d) = true →
  (∀ d', d' ∈ l2 → ice_month d' ≠ ice_month d) →
  SeaIce.yearBucket (l1 ++ d :: l2) !! Z.to_nat (ice_month d - 1)
  = Some (Some (extent d)).
Proof.
  intros Hv Hlast. unfold SeaIce.yearBucket. rewrite foldl_app. simpl.
  rewrite foldl_ice_slot.
  - unfold SeaIce.ice_step. rewrite Hv. unfold set_month.
    apply list_lookup_insert_eq. rewrite foldl_ice_length. simpl.
    unfold valid_month in Hv. lia.
  - intros d' Hd' Hv' Hm. apply (Hlast d' Hd').
    unfold valid_month in Hv, Hv'. lia.
Qed.

Lemma yearSeries_insert_invalid K (dd : gmap string (list IceObs)) y
    (l1 l2 : list IceObs) d :
  valid_month (ice_month d) = false →
  SeaIce.yearSeries K (<[y := (l1 ++ d :: l2)%list]> dd)
  = SeaIce.yearSeries K (<[y := (l1 ++ l2)%list]> dd).
Proof.
  intros Hv. unfold SeaIce.yearSeries, SeaIce.years, Js.keys.
  rewrite !dom_insert_L. apply list_fmap_ext. intros _ k _. f_equal.
  unfold lookup_total, map_lookup_total. rewrite !lookup_insert.
  case_decide; simpl; [|done]. by apply yearBucket_invalid.
Qed.
End sea_ice_bucket.

(** ** The reference curve *)

Section baseline.
Variables startYear endYear : Z.

Lemma baseline_step_lengths acc d :
  length (baseline_step startYear endYear acc d).1 = length acc.1
  ∧ length (baseline_step startYear endYear acc d).2 = length acc.2.
Proof.
  unfold baseline_step. destruct (_ && _); simpl; [|done].
  by rewrite !length_alter.
Qed.

Lemma baseline_step_count acc d (i : nat) :
  (i < 12)%nat →
  (baseline_step startYear endYear acc d).2 !! i
  = (λ c, if in_window startYear endYear i d then S c else c) <$> acc.2 !! i.
Proof.
  intros Hi. unfold baseline_step, in_window.
  destruct (startYear <=? co2_year d), (co2_year d <=? endYear); simpl;
    try by rewrite option_fmap_id.
  destruct (Z.leb_spec 1 (co2_month d)), (Z.leb_spec (co2_month d) 12),
    (Z.eqb_spec (co2_month d) (Z.of_nat i + 1)); simpl;
    try lia; try by rewrite option_fmap_id.
  - replace (Z.to_nat (co2_month d - 1)) with i by lia.
    rewrite list_lookup_alter. by rewrite decide_True.
  - rewrite list_lookup_alter_ne by lia. by rewrite option_fmap_id.
Qed.

Lemma foldl_baseline obs : ∀ acc,
  let r := foldl (baseline_step startYear endYear) acc obs in
  length r.1 = length acc.1 ∧ length r.2 = length acc.2
  ∧ ∀ i : nat, (i < 12)%nat →
      r.2 !! i = (λ c, c + matching startYear endYear i obs)%nat <$> acc.2 !! i.
Proof.
  induction obs as [|d obs IH]; intros acc; simpl.
  - split_and!; [done..|]. intros i _. unfold matching. simpl.
    destruct (acc.2 !! i); simpl; f_equal; lia.
  - destruct (IH (baseline_step startYear endYear acc d)) as (H1 & H2 & H3).
    destruct (baseline_step_lengths acc d) as [L1 L2].
    split_and!; [congruence..|]. intros i Hi.
    rewrite H3, baseline_step_count by done. unfold matching. simpl.
    destruct (acc.2 !! i); simpl; [|done]. f_equal.
    destruct (in_window startYear endYear i d); simpl; lia.
Qed.

Lemma baseline_counts obs (i : nat) :
  (i < 12)%nat →
  (baseline_sums_counts obs startYear endYear).2 !! i = Some (matching startYear endYear i obs).
Proof.
  intros Hi. unfold baseline_sums_counts.
  destruct (foldl_baseline obs (replicate 12 0%float, replicate 12 0%nat))
    as (_ & _ & H).
  rewrite H by done. cbn [snd]. rewrite lookup_replicate_2 by done. done.
Qed.

Lemma baseline_sums_length obs :
  length (baseline_sums_counts obs startYear endYear).1 = 12%nat.
Proof.
  unfold baseline_sums_counts.
  by destruct (foldl_baseline obs (replicate 12 0%float, replicate 12 0%nat))
    as (-> & _ & _).
Qed.

Lemma getMonthlyBaseline_length obs :
  length (getMonthlyBaseline obs startYear endYear) = 12%nat.
Proof. unfold getMonthlyBaseline. by rewrite length_imap, baseline_sums_length. Qed.

(** Each slot is the mean of the month, or [null] when nothing was counted. *)
Lemma getMonthlyBaseline_lookup obs (i : nat) :
  (i < 12)%nat →
  ∃ sum, (baseline_sums_counts obs startYear endYear).1 !! i = Some sum
  ∧ getMonthlyBaseline obs startYear endYear !! i
    = Some (if (0 <? matching startYear endYear i obs)%nat
            then Some (sum / Js.num_of_nat (matching startYear endYear i obs))%float
            else None).
Proof.
  intros Hi.
  destruct (lookup_lt_is_Some_2 (baseline_sums_counts obs startYear endYear).1 i)
    as [sum Hsum]; [by rewrite baseline_sums_length|].
  exists sum. split; [done|].
  unfold getMonthlyBaseline. rewrite list_lookup_imap, Hsum. simpl.
  unfold mean_slot. by rewrite (list_lookup_total_correct _ _ _ (baseline_counts obs i Hi)).
Qed.

Lemma matching_0 i obs :
  matching startYear endYear i obs = 0%nat ↔ ∀ d, d ∈ obs → in_window startYear endYear i d = false.
Proof.
  unfold matching. induction obs as [|d obs IH]; simpl.
  - split; [|done]. intros _ d Hd. by apply elem_of_nil in Hd.
  - destruct (in_window startYear endYear i d) eqn:E; simpl.
    + split; [done|]. intros H. specialize (H d (list_elem_of_here _ _)). congruence.
    + rewrite IH. split.
      * intros H d' [->|?]%elem_of_cons; auto.
      * intros H d' Hd'. apply H. by right.
Qed.
End baseline.

(** ** Number formatting *)

Section digits.
Lemma all_digits_app a b :
  all_digits (a ++ b) = all_digits a && all_digits b.
Proof. induction a as [|c a IH]; simpl; [done|]. by rewrite IH, andb_assoc. Qed.

Lemma all_digits_zeros n : all_digits (Number.zeros n) = true.
Proof. induction n; simpl; auto. Qed.

Lemma length_zeros n : String.length (Number.zeros n) = n.
Proof. induction n; simpl; auto. Qed.

Lemma string_length_app a b :
  String.length (a ++ b) = (String.length a + String.length b)%nat.
Proof. induction a as [|c a IH]; simpl; auto. Qed.

Lemma NilEmpty_all_digits d : all_digits (NilEmpty.string_of_uint d) = true.
Proof. induction d; simpl; auto. Qed.

Lemma digits_of_N_all n : all_digits (Number.digits_of_N n) = true.
Proof.
  unfold Number.digits_of_N, NilZero.string_of_uint.
  destruct (N.to_uint n) eqn:E; try done; rewrite <- E at 1;
    rewrite E; apply NilEmpty_all_digits.
Qed.

Lemma digits_of_N_nonempty n : Number.digits_of_N n ≠ "".
Proof.
  unfold Number.digits_of_N, NilZero.string_of_uint.
  by destruct (N.to_uint n).
Qed.

Lemma split_at_spec n s :
  s = (Number.split_at n s).1 ++ (Number.split_at n s).2
  ∧ String.length (Number.split_at n s).1 = (n `min` String.length s)%nat.
Proof.
  revert s. induction n as [|n IH]; intros [|c s]; simpl; try done.
  destruct (IH s) as [H1 H2]. destruct (Number.split_at n s) as [a b]; simpl in *.
  split; [by rewrite H1 at 1|congruence].
Qed.

(** A digit string with the point placed: the integer digits, the point,
    [f] fraction digits. *)
Lemma place_point_shape m f :
  (0 < f)%nat → m ≠ "" → all_digits m = true →
  ∃ a b, Number.place_point m f = a ++ "." ++ b
         ∧ a ≠ "" ∧ all_digits a = true ∧ all_digits b = true
         ∧ String.length b = f.
Proof.
  intros Hf Hm Hd. destruct f as [|f]; [lia|]. unfold Number.place_point.
  set (k := String.length m).
  set (m' := if (k <=? S f)%nat then Number.zeros (S f + 1 - k) ++ m else m).
  set (k' := if (k <=? S f)%nat then (S f + 1)%nat else k).
  assert (String.length m' = k' ∧ all_digits m' = true) as [Hk' Hd'].
  { subst m' k'. destruct (Nat.leb_spec k (S f)).
    - rewrite string_length_app, length_zeros, all_digits_app, all_digits_zeros, Hd.
      split; [fold k; lia|done].
    - done. }
  assert (S f < k')%nat as Hlt.
  { subst k'. destruct (Nat.leb_spec k (S f)); lia. }
  destruct (split_at_spec (k' - S f) m') as [H1 H2].
  destruct (Number.split_at (k' - S f) m') as [a b]; simpl in *.
  exists a, b. rewrite H1, all_digits_app in Hd'.
  apply andb_true_iff in Hd' as [Ha Hb].
  split_and!; try done.
  - intros ->. simpl in H2. lia.
  - apply (f_equal String.length) in H1.
    rewrite string_length_app in H1. lia.
Qed.

Lemma head_is_app c a b : a ≠ "" → head_is c (a ++ b) = head_is c a.
Proof. by destruct a. Qed.

Lemma digit_not_plus c : is_digit c = true → Ascii.eqb "+" c = false.
Proof.
  intros H. apply Ascii.eqb_neq. intros <-. vm_compute in H. done.
Qed.

Lemma all_digits_head s : all_digits s = true → head_is "+" s = false.
Proof.
  destruct s as [|c s]; simpl; [done|]. intros [H _]%andb_true_iff.
  by apply digit_not_plus.
Qed.

Lemma place_point_head m f :
  m ≠ "" → all_digits m = true → head_is "+" (Number.place_point m f) = false.
Proof.
  intros Hm Hd. destruct f as [|f].
  - simpl. by apply all_digits_head.
  - destruct (place_point_shape m (S f)) as (a & b & -> & Ha & Hda & _); [lia|done..|].
    rewrite head_is_app by done. by apply all_digits_head.
Qed.

Lemma toString_large_head m e : head_is "+" (Number.toString_large m e) = false.
Proof.
  unfold Number.toString_large.
  destruct (Number.shortest _ _ _ _ _) as [k s].
  destruct (s =? _).
  - pose proof (digits_of_N_all (Z.to_N (10 ^ (Z.of_nat k - 1)))) as H.
    destruct (Number.digits_of_N _) as [|c r]; [done|]. simpl in *.
    apply andb_true_iff in H as [H _]. by apply digit_not_plus.
  - pose proof (digits_of_N_all (Z.to_N s)) as H.
    destruct (Number.digits_of_N _) as [|c r]; [done|]. simpl in *.
    apply andb_true_iff in H as [H _]. by apply digit_not_plus.
Qed.

Lemma toFixed_head x f s :
  Number.toFixed x f = Ok s → head_is "+" s = false.
Proof.
  unfold Number.toFixed. destruct (100 <? f)%nat; [done|]. intros [= <-].
  destruct (Prim2SF x) as [sg|sg| |sg m e].
  - by apply place_point_head.
  - by destruct sg.
  - done.
  - destruct (_ <=? _).
    + destruct sg; [done|]. apply toString_large_head.
    + destruct sg; [done|]. simpl.
      apply place_point_head; [apply digits_of_N_nonempty|apply digits_of_N_all].
Qed.

End digits.

(** ** The stat tiles *)

Section stats.

Lemma formatNumber_2 x : ∃ s, formatNumber (Num x) 2 = Ok s ∧ head_is "+" s = false.
Proof.
  destruct (Number.toFixed x 2) as [s|e] eqn:E.
  - exists s. split; [done|]. by eapply toFixed_head.
  - unfold Number.toFixed in E. simpl in E. done.
Qed.

Lemma signed_text_spec x :
  ∃ s, formatNumber (Num x) 2 = Ok s
       ∧ signed_text x = Ok ((if (0 <=? x)%float then "+" else "") ++ s)
       ∧ head_is "+" s = false.
Proof.
  destruct (formatNumber_2 x) as (s & Hs & Hh). exists s.
  split_and!; [done| |done]. unfold signed_text. by rewrite Hs.
Qed.

Lemma if_element_ok id (f : Element → result Element) dom :
  (∀ el, ∃ el', f el = Ok el') →
  ∃ dom', if_element id f dom = Ok dom'
          ∧ (∀ j, j ≠ id → dom' !! j = dom !! j)
          ∧ dom' !! id = (λ el, match f el with Ok el' => el' | Raise _ => el end) <$> dom !! id.
Proof.
  intros Hf. unfold if_element. destruct (dom !! id) as [el|] eqn:E.
  - destruct (Hf el) as [el' Hel]. rewrite Hel. simpl.
    eexists. split; [done|]. split.
    + intros j Hj. by rewrite lookup_insert_ne.
    + rewrite lookup_insert_eq. simpl. by rewrite Hel.
  - exists dom. by rewrite E.
Qed.

Lemma find_None_iff {A} (p : A → bool) (l : list A) :
  List.find p l = None ↔ ∀ x, x ∈ l → p x = false.
Proof.
  induction l as [|a l IH]; simpl.
  - split; [|done]. intros _ x Hx. by apply elem_of_nil in Hx.
  - destruct (p a) eqn:E.
    + split; [done|]. intros H. specialize (H a (list_elem_of_here _ _)). congruence.
    + rewrite IH. split.
      * intros H x [->|?]%elem_of_cons; auto.
      * intros H x Hx. apply H. by right.
Qed.

Lemma previousYearCO2_None obs latest :
  Stats.previousYearCO2 obs latest = None
  ↔ ∀ d, d ∈ obs →
      ¬ (co2_year d = co2_year latest - 1 ∧ co2_month d = co2_month latest).
Proof.
  unfold Stats.previousYearCO2. rewrite find_None_iff.
  apply forall_proper; intros d. apply forall_proper; intros _.
  rewrite andb_false_iff, !Z.eqb_neq. split; [tauto|].
  intros H. destruct (decide (co2_year d = co2_year latest - 1)); [right|left]; tauto.
Qed.

Lemma get_cons {V} k v (o : list (string * V)) k' :
  Stats.get ((k, v) :: o) k' = if String.eqb k k' then Some v else Stats.get o k'.
Proof. unfold Stats.get. simpl. by destruct (String.eqb k k'). Qed.

Lemma get_None {V} (o : list (string * V)) k : k ∉ o.*1 → Stats.get o k = None.
Proof.
  induction o as [|[k0 v0] o IH]; [done|]. rewrite fmap_cons, not_elem_of_cons.
  intros [Hne Hnin]. rewrite get_cons.
  destruct (String.eqb_spec k0 k); [by subst|]. by apply IH.
Qed.

Lemma get_app_found {V} (l1 l2 : list (string * V)) k v :
  k ∉ l1.*1 → Stats.get (l1 ++ (k, v) :: l2)%list k = Some v.
Proof.
  induction l1 as [|[k0 v0] l1 IH]; simpl.
  - intros _. by rewrite get_cons, String.eqb_refl.
  - rewrite not_elem_of_cons. intros [Hne Hnin]. rewrite get_cons.
    destruct (String.eqb_spec k0 k); [by subst|]. by apply IH.
Qed.

Lemma previousYearCO2_found l1 prev l2 latest :
  year_before latest prev →
  (∀ d, d ∈ l1 → ¬ year_before latest d) →
  Stats.previousYearCO2 (l1 ++ prev :: l2)%list latest = Some prev.
Proof.
  intros [Hy Hm] Hno. unfold Stats.previousYearCO2.
  induction l1 as [|d l1 IH]; simpl.
  - by rewrite Hy, Hm, !Z.eqb_refl.
  - destruct (Z.eqb_spec (co2_year d) (co2_year latest - 1)) as [E1|E1],
             (Z.eqb_spec (co2_month d) (co2_month latest)) as [E2|E2];
      simpl; try (apply IH; intros d' Hd'; apply Hno; by right).
    destruct (Hno d); [by left|done].
Qed.

Lemma truthy_num_zero v : PrimFloat.is_zero v = true → Js.truthy_num v = false.
Proof. intros H. unfold Js.truthy_num. by rewrite H. Qed.
End stats.

(** ** Year keys *)

Section year_keys.
Lemma key_adjacent_check :
  forallb (λ n, String.ltb (Js.key_of_int (1000 + Z.of_nat n))
                           (Js.key_of_int (1000 + Z.of_nat n + 1)))
          (seq 0 (Z.to_nat 8999)) = true.
Proof. vm_compute. reflexivity. Qed.

Lemma key_succ_le y :
  1000 ≤ y < 9999 → Js.str_le (Js.key_of_int y) (Js.key_of_int (y + 1)).
Proof.
  intros Hy. pose proof key_adjacent_check as H.
  rewrite forallb_forall in H. specialize (H (Z.to_nat (y - 1000))).
  replace (1000 + Z.of_nat (Z.to_nat (y - 1000))) with y in H by lia.
  unfold Js.str_le, String.leb. unfold String.ltb in H.
  destruct (String.compare _ _); try done.
  discriminate H. apply in_seq. lia.
Qed.

Lemma key_mono y1 y2 :
  1000 ≤ y1 → y1 ≤ y2 → y2 ≤ 9999 →
  Js.str_le (Js.key_of_int y1) (Js.key_of_int y2).
Proof.
  intros H1 H12 H2.
  replace y2 with (y1 + Z.of_nat (Z.to_nat (y2 - y1))) in * by lia.
  induction (Z.to_nat (y2 - y1)) as [|n IH].
  - rewrite Z.add_0_r. reflexivity.
  - transitivity (Js.key_of_int (y1 + Z.of_nat n)); [apply IH; lia|].
    replace (y1 + Z.of_nat (S n)) with (y1 + Z.of_nat n + 1) by lia.
    apply key_succ_le. lia.
Qed.

(** On four-digit years the string order of the keys is the numeric
    order of the years. *)
Lemma key_le_iff y1 y2 :
  four_digit y1 = true → four_digit y2 = true →
  Js.str_le (Js.key_of_int y1) (Js.key_of_int y2) ↔ y1 ≤ y2.
Proof.
  unfold four_digit. intros H1 H2. split.
  - intros Hle. destruct (Z.le_gt_cases y1 y2) as [|Hgt]; [done|].
    assert (Js.str_le (Js.key_of_int y2) (Js.key_of_int y1)) as Hge
      by (apply key_mono; lia).
    pose proof (anti_symm Js.str_le _ _ Hle Hge) as Heq.
    apply key_of_int_inj in Heq. lia.
  - intros Hle. apply key_mono; lia.
Qed.
End year_keys.

(** The first of the keys in descending order is the greatest key. *)
Lemma head_desc_greatest ks k0 rest k :
  reverse (Js.sort ks) = k0 :: rest → k ∈ ks → Js.str_le k k0.
Proof.
  intros Hr Hk. pose proof (desc_Sorted ks) as Hs. rewrite Hr in Hs.
  assert (k ∈ k0 :: rest) as [->|Hin]%elem_of_cons.
  { rewrite <- Hr. by rewrite elem_of_reverse, sort_Permutation. }
  - reflexivity.
  - apply StronglySorted_inv in Hs as [_ Hall].
    rewrite Forall_forall in Hall. by apply Hall.
Qed.

Section tiles.
Implicit Types (st : State) (dom : Document).
Local Arguments signed_text : simpl never.
Local Arguments formatNumber : simpl never.

Lemma signed_text_ok {A} x (k : string → result A) :
  (∀ t, ∃ a, k t = Ok a) → ∃ a, (signed_text x ≫= k) = Ok a.
Proof.
  intros Hk. destruct (signed_text_spec x) as (s & _ & Hs & _). rewrite Hs.
  apply Hk.
Qed.

Lemma formatNumber_ok {A} x (k : string → result A) :
  (∀ t, ∃ a, k t = Ok a) → ∃ a, (formatNumber (Num x) 2 ≫= k) = Ok a.
Proof.
  intros Hk. destruct (formatNumber_2 x) as (s & Hs & _). rewrite Hs.
  apply Hk.
Qed.

Lemma result_bind_ok {A B} (a : A) (f : A → result B) : (Ok a ≫= f) = f a.
Proof. reflexivity. Qed.

(** The sea-ice tile, once a latest observation was found. *)
Lemma iceStats_kpi st doc d y latest dom el :
  seaIceData st = Some doc → ice_data doc = Some d →
  Stats.ice_latest d = Some (y, latest) →
  dom !! "ice-kpi" = Some el →
  ∃ dom' t,
    Stats.iceStats st dom = Ok dom'
    ∧ signed_text (Stats.ice_diff (median doc) latest) = Ok t
    ∧ children <$> dom' !! "ice-kpi" = Some (Text t).
Proof.
  intros Hst Hd Hl Hel. unfold Stats.iceStats. rewrite Hst.
  destruct doc as [dd med lu]. cbn [ice_data median] in *. subst dd.
  cbv beta iota. rewrite Hl. cbv beta iota.
  destruct (if_element_ok "ice-date"
    (λ el, Ok (set_textContent
                 (getMonthName (ice_month latest) ++ " " ++ y ++ " â€¢") el)) dom)
    as (dom1 & -> & H1 & _); [eauto|]. rewrite result_bind_ok; cbv beta zeta.
  destruct (signed_text_spec (Stats.ice_diff med latest)) as (s & Hs & Ht & _).
  destruct (if_element_ok "ice-kpi"
    (λ el, t ← signed_text (Stats.ice_diff med latest);
           Ok (set_className
                 (Stats.kpi_class (0 <=? Stats.ice_diff med latest)%float)
                 (set_textContent t el))) dom1)
    as (dom2 & -> & H2 & H2'); [intros; apply signed_text_ok; eauto|].
  rewrite result_bind_ok; cbv beta zeta.
  destruct (if_element_ok "ice-absolute"
    (λ el, t ← formatNumber (Num (extent latest)) 2;
           Ok (set_innerHTML (Markup.ice_absolute t) el)) dom2)
    as (dom3 & -> & H3 & _); [intros; apply formatNumber_ok; eauto|].
  eexists _, _. split_and!; [done..|].
  rewrite H3, H2', H1, Hel by done. cbn [fmap option_fmap option_map].
  by rewrite Ht.
Qed.

(** The CO2 tile, once a latest observation was found. *)
Lemma co2Stats_kpi st doc obs latest dom el :
  co2Data st = Some doc → co2_data doc = Some obs →
  Stats.latestCO2 obs = Some latest →
  dom !! "co2-kpi" = Some el →
  ∃ dom' t,
    Stats.co2Stats st dom = Ok dom'
    ∧ signed_text (Stats.co2_change obs latest) = Ok t
    ∧ children <$> dom' !! "co2-kpi" = Some (Text t).
Proof.
  intros Hst Hd Hl Hel. unfold Stats.co2Stats. rewrite Hst.
  destruct doc as [dd lu]. cbn [co2_data] in *. subst dd.
  cbv beta iota. rewrite Hl. cbv beta iota.
  destruct (if_element_ok "co2-date"
    (λ el, Ok (set_textContent
                 (getMonthName (co2_month latest) ++ " "
                  ++ Js.key_of_int (co2_year latest) ++ " â€¢") el)) dom)
    as (dom1 & -> & H1 & _); [eauto|]. rewrite result_bind_ok; cbv beta zeta.
  destruct (signed_text_spec (Stats.co2_change obs latest)) as (s & Hs & Ht & _).
  destruct (if_element_ok "co2-kpi"
    (λ el, t ← signed_text (Stats.co2_change obs latest);
           Ok (set_className
                 (Stats.kpi_class (negb (0 <=? Stats.co2_change obs latest)%float))
                 (set_textContent t el))) dom1)
    as (dom2 & -> & H2 & H2'); [intros; apply signed_text_ok; eauto|].
  rewrite result_bind_ok; cbv beta zeta.
  destruct (if_element_ok "co2-absolute"
    (λ el, t ← formatNumber (Num (average latest)) 2;
           Ok (set_innerHTML (Markup.co2_absolute t) el)) dom2)
    as (dom3 & -> & H3 & _); [intros; apply formatNumber_ok; eauto|].
  eexists _, _. split_and!; [done..|].
  rewrite H3, H2', H1, Hel by done. cbn [fmap option_fmap option_map].
  by rewrite Ht.
Qed.
End tiles.

(** * The claims *)

(** ** C6: months without observations in the reference curve *)

(** C6. For every document and inclusive window [startYear..endYear] the
    reference curve has twelve slots; the slot of a calendar month is
    absent ([null], which is neither the number 0 nor NaN) exactly when no
    observation of the window falls on that month; a slot that is present
    is the month's sum divided by its positive count; and a window that
    contains no observation at all yields twelve absent slots. *)
Theorem reference_curve_absent_slots (obs : list Co2Obs) (startYear endYear : Z) :
  length (getMonthlyBaseline obs startYear endYear) = 12%nat
  ∧ (∀ i : nat, (i < 12)%nat →
       getMonthlyBaseline obs startYear endYear !! i = Some None
       ↔ ∀ d, d ∈ obs → in_window startYear endYear i d = false)
  ∧ (∀ (i : nat) v, getMonthlyBaseline obs startYear endYear !! i = Some (Some v) →
       (0 < matching startYear endYear i obs)%nat
       ∧ ∃ sum, (baseline_sums_counts obs startYear endYear).1 !! i = Some sum
                ∧ v = (sum / Js.num_of_nat (matching startYear endYear i obs))%float)
  ∧ ((∀ d, d ∈ obs → ¬ (startYear ≤ co2_year d ≤ endYear)) →
       getMonthlyBaseline obs startYear endYear = replicate 12 None).
Proof.
  assert (Hiff : ∀ i : nat, (i < 12)%nat →
            getMonthlyBaseline obs startYear endYear !! i = Some None
            ↔ ∀ d, d ∈ obs → in_window startYear endYear i d = false).
  { intros i Hi.
    destruct (getMonthlyBaseline_lookup startYear endYear obs i Hi) as (sum & _ & ->).
    rewrite <- matching_0.
    destruct (matching startYear endYear i obs) as [|n]; simpl; split; try done. }
  split_and!; [apply getMonthlyBaseline_length|done| |].
  - intros i v Hv.
    assert (i < 12)%nat as Hi.
    { apply lookup_lt_Some in Hv. by rewrite getMonthlyBaseline_length in Hv. }
    destruct (getMonthlyBaseline_lookup startYear endYear obs i Hi) as (sum & Hs & Hg).
    rewrite Hg in Hv.
    destruct (Nat.ltb_spec 0 (matching startYear endYear i obs)); [|done].
    split; [done|]. exists sum. split; [done|]. congruence.
  - intros Hnone. apply list_eq. intros i.
    destruct (decide (i < 12)%nat) as [Hi|Hi].
    + rewrite lookup_replicate_2 by done. apply Hiff; [done|].
      intros d Hd. specialize (Hnone d Hd). unfold in_window.
      destruct (Z.leb_spec startYear (co2_year d)),
        (Z.leb_spec (co2_year d) endYear); simpl; try done. lia.
    + rewrite !lookup_ge_None_2; [done|rewrite length_replicate; lia|].
      rewrite getMonthlyBaseline_length. lia.
Qed.

(** C6 on a document with no observation in 1991..2020. *)
Lemma reference_curve_absent_slots_witness :
  getMonthlyBaseline Sample.gap_year 1991 2020 = replicate 12 None.
Proof.
  apply (reference_curve_absent_slots Sample.gap_year 1991 2020).
  intros d Hd. unfold Sample.gap_year, Sample.co2 in Hd.
  elem_cases Hd; simpl; lia.
Defined.

(** ** C8: the KPI display string *)

Section fixed_value.

Lemma uint_string_nonnil u :
  u ≠ Decimal.Nil → NilZero.string_of_uint u = NilEmpty.string_of_uint u.
Proof. by destruct u. Qed.

Lemma decimal_value_from_uint u : ∀ a,
  decimal_value_from (Z.pos a) (NilEmpty.string_of_uint u)
  = Z.pos (Pos.of_uint_acc u a).
Proof.
  induction u as [|u IH|u IH|u IH|u IH|u IH|u IH|u IH|u IH|u IH|u IH];
    intros a; [done|..];
    cbn [NilEmpty.string_of_uint decimal_value_from Pos.of_uint_acc];
    rewrite <- IH; f_equal;
    match goal with
    | |- context [nat_of_ascii ?c] =>
        let v := eval vm_compute in (Z.of_nat (nat_of_ascii c) - 48) in
        change (Z.of_nat (nat_of_ascii c) - 48) with v
    end; lia.
Qed.

Lemma decimal_value_from_0 u :
  decimal_value_from 0 (NilEmpty.string_of_uint u) = Z.of_N (Pos.of_uint u).
Proof.
  induction u as [|u IH|u IH|u IH|u IH|u IH|u IH|u IH|u IH|u IH|u IH];
    [done|..];
    cbn [NilEmpty.string_of_uint decimal_value_from Pos.of_uint];
    match goal with
    | |- context [nat_of_ascii ?c] =>
        let v := eval vm_compute in (0 * 10 + (Z.of_nat (nat_of_ascii c) - 48)) in
        change (0 * 10 + (Z.of_nat (nat_of_ascii c) - 48)) with v
    end;
    [exact IH|by rewrite decimal_value_from_uint..].
Qed.

(** Reading the digits of a number gives the number. *)
Lemma decimal_value_digits n :
  decimal_value (Number.digits_of_N n) = Z.of_N n.
Proof.
  unfold decimal_value, Number.digits_of_N.
  destruct n as [|p]; [done|].
  rewrite uint_string_nonnil by apply DecimalPos.Unsigned.to_uint_nonnil.
  rewrite decimal_value_from_0. cbn [N.to_uint].
  by rewrite DecimalPos.Unsigned.of_to.
Qed.

Lemma decimal_value_zeros k s :
  decimal_value (Number.zeros k ++ s) = decimal_value s.
Proof. induction k as [|k IH]; [done|]. exact IH. Qed.

Lemma nzhead_no_zero d d' : Decimal.nzhead d ≠ Decimal.D0 d'.
Proof. induction d; simpl; done. Qed.

(** The digits of a positive number do not start with a zero. *)
Lemma digits_of_N_head n :
  n ≠ 0%N → head_is "0" (Number.digits_of_N n) = false.
Proof.
  intros Hn. unfold Number.digits_of_N.
  assert (∀ d', N.to_uint n ≠ Decimal.D0 d') as Hd.
  { intros d' E.
    pose proof (DecimalN.Unsigned.to_of (N.to_uint n)) as H.
    rewrite DecimalN.Unsigned.of_to in H. rewrite H in E.
    unfold Decimal.unorm in E.
    destruct (Decimal.nzhead (N.to_uint n)) eqn:En; try discriminate E.
    - apply Hn. apply DecimalN.Unsigned.to_uint_inj.
      rewrite H. unfold Decimal.unorm. by rewrite En.
    - by apply nzhead_no_zero in En. }
  destruct (N.to_uint n) as [|u|u|u|u|u|u|u|u|u|u] eqn:E; try done.
  - destruct n as [|p]; [done|].
    by destruct (DecimalPos.Unsigned.to_uint_nonnil p).
  - by destruct (Hd u).
Qed.

(** Where [place_point] puts the point, and what stands around it. *)
Lemma place_point_parts m f :
  (0 < f)%nat → m ≠ "" → all_digits m = true →
  ∃ a b, Number.place_point m f = a ++ "." ++ b
         ∧ a ++ b = Number.zeros (f + 1 - String.length m) ++ m
         ∧ a ≠ "" ∧ all_digits a = true ∧ all_digits b = true
         ∧ String.length b = f.
Proof.
  intros Hf Hm Hd. destruct f as [|f]; [lia|]. unfold Number.place_point.
  set (k := String.length m).
  set (m' := if (k <=? S f)%nat then Number.zeros (S f + 1 - k) ++ m else m).
  set (k' := if (k <=? S f)%nat then (S f + 1)%nat else k).
  assert (m' = Number.zeros (S f + 1 - k) ++ m) as Hm'.
  { subst m'. destruct (Nat.leb_spec k (S f)); [done|].
    by replace (S f + 1 - k)%nat with 0%nat by lia. }
  assert (String.length m' = k' ∧ all_digits m' = true) as [Hk' Hd'].
  { subst m' k'. destruct (Nat.leb_spec k (S f)).
    - rewrite string_length_app, length_zeros, all_digits_app, all_digits_zeros, Hd.
      split; [fold k; lia|done].
    - done. }
  assert (S f < k')%nat as Hlt.
  { subst k'. destruct (Nat.leb_spec k (S f)); lia. }
  destruct (split_at_spec (k' - S f) m') as [H1 H2].
  destruct (Number.split_at (k' - S f) m') as [a b]; simpl in *.
  exists a, b. rewrite H1, all_digits_app in Hd'.
  apply andb_true_iff in Hd' as [Ha Hb].
  split_and!; try done.
  - by rewrite <- H1.
  - intros ->. simpl in H2. lia.
  - apply (f_equal String.length) in H1.
    rewrite string_length_app in H1. lia.
Qed.

(** The integer part has no superfluous zero. *)
Lemma place_point_canonical n a b :
  a ++ b = Number.zeros (2 + 1 - String.length (Number.digits_of_N n))
           ++ Number.digits_of_N n →
  String.length b = 2%nat → a ≠ "" →
  a = "0" ∨ head_is "0" a = false.
Proof.
  intros Hab Hb Ha.
  pose proof (digits_of_N_nonempty n) as Hne.
  destruct (decide (String.length (Number.digits_of_N n) ≤ 2)%nat) as [Hk|Hk].
  - left. apply (f_equal String.length) in Hab as Hl.
    rewrite !string_length_app, length_zeros in Hl.
    assert (String.length (Number.digits_of_N n) ≠ 0)%nat
      by (by destruct (Number.digits_of_N n)).
    assert (String.length a = 1)%nat as Ha1 by lia.
    destruct a as [|c [|]]; try done.
    destruct (2 + 1 - String.length (Number.digits_of_N n))%nat as [|j] eqn:Ej;
      [lia|].
    simpl in Hab. by injection Hab as ->.
  - right. replace (2 + 1 - String.length (Number.digits_of_N n))%nat
      with 0%nat in Hab by lia.
    change (a ++ b = Number.digits_of_N n) in Hab.
    destruct (decide (n = 0%N)) as [->|Hn].
    { exfalso. apply Hk. vm_compute. lia. }
    pose proof (digits_of_N_head n Hn) as Hh. rewrite <- Hab in Hh.
    by rewrite head_is_app in Hh.
Qed.

(** [0 <= x], read off the sign bit. *)
Lemma leb_zero_sign x :
  (0 <=? x)%float
  = match Prim2SF x with
    | S754_zero _ => true
    | S754_finite s _ _ | S754_infinity s => negb s
    | S754_nan => false
    end.
Proof.
  rewrite leb_spec. change (Prim2SF 0) with (S754_zero false).
  unfold SFleb, SFcompare.
  by destruct (Prim2SF x) as [s|s| |s m e]; try destruct s.
Qed.

(** The text of a number in the decimal range of [toFixed]. *)
Lemma signed_text_value x num den :
  magnitude x = Some (num, den) → num < 10 ^ 21 * den →
  ∃ a b,
    formatNumber (Num x) 2
    = Ok ((if (0 <=? x)%float then "" else "-") ++ a ++ "." ++ b)
    ∧ signed_text x
      = Ok ((if (0 <=? x)%float then "+" else "-") ++ a ++ "." ++ b)
    ∧ a ≠ "" ∧ all_digits a = true ∧ (a = "0" ∨ head_is "0" a = false)
    ∧ all_digits b = true ∧ String.length b = 2%nat
    ∧ 2 * den * decimal_value (a ++ b) ≤ 200 * num + den
      < 2 * den * (decimal_value (a ++ b) + 1).
Proof.
  intros Hm Hr.
  set (n := (2 * num * 10 ^ Z.of_nat 2 + den) / (2 * den)).
  assert (0 < den ∧ 0 ≤ num) as [Hden Hnum].
  { unfold magnitude in Hm. destruct (Prim2SF x) as [s|s| |s m e]; try done;
      injection Hm as <- <-; [lia|]. split; [|lia].
    apply Z.pow_pos_nonneg; lia. }
  assert (0 ≤ n) as Hn0.
  { subst n. apply Z.div_pos; lia. }
  assert (2 * den * n ≤ 200 * num + den < 2 * den * (n + 1)) as Hround.
  { subst n. change (10 ^ Z.of_nat 2) with 100.
    replace (2 * num * 100 + den) with (200 * num + den) by lia.
    split.
    - apply Z.mul_div_le. lia.
    - replace (2 * den * ((200 * num + den) / (2 * den) + 1))
        with (2 * den * Z.succ ((200 * num + den) / (2 * den))) by lia.
      apply Z.mul_succ_div_gt. lia. }
  assert (∃ a b,
    Number.toFixed x 2
    = Ok ((if (0 <=? x)%float then "" else "-") ++ a ++ "." ++ b)
    ∧ a ++ b = Number.zeros (2 + 1 - String.length
                               (Number.digits_of_N (Z.to_N n)))
               ++ Number.digits_of_N (Z.to_N n)
    ∧ a ≠ "" ∧ all_digits a = true ∧ all_digits b = true
    ∧ String.length b = 2%nat) as (a & b & Hfix & Hab & Ha & Hda & Hdb & Hlb).
  { destruct (place_point_parts (Number.digits_of_N (Z.to_N n)) 2)
      as (a & b & Hp & Hab & Ha & Hda & Hdb & Hlb);
      [lia|apply digits_of_N_nonempty|apply digits_of_N_all|].
    exists a, b. split_and!; try done.
    unfold Number.toFixed. cbn [Nat.ltb Nat.leb]. f_equal.
    rewrite leb_zero_sign. unfold magnitude in Hm.
    destruct (Prim2SF x) as [s|s| |s m e]; try done.
    - injection Hm as <- <-. subst n. by rewrite <- Hp.
    - injection Hm as <- <-. cbv zeta.
      replace (10 ^ 21 * 2 ^ Z.max (- e) 0 <=? Z.pos m * 2 ^ Z.max e 0)
        with false by (symmetry; apply Z.leb_gt; lia).
      fold n. rewrite Hp. by destruct s. }
  assert (decimal_value (a ++ b) = n) as Hv.
  { rewrite Hab, decimal_value_zeros, decimal_value_digits. by rewrite Z2N.id. }
  exists a, b. rewrite Hv. split; [exact Hfix|]. split.
  { unfold signed_text, formatNumber. rewrite Hfix. cbn [mbind result_bind].
    by destruct (0 <=? x)%float. }
  destruct Hround. split_and!; try done.
  by apply (place_point_canonical (Z.to_N n) a b).
Qed.

End fixed_value.




(** ** C9: a median entry of exactly zero *)

(** C9. When the median table's entry for the month of the latest sea-ice
    observation is exactly zero, the truthiness guard treats it as absent:
    the difference is the number 0, the same as with no median table at
    all, and the tile shows ["+0.00"] rather than [extent - 0]. *)
Theorem zero_median_is_treated_as_absent st doc d med y latest v dom el :
  seaIceData st = Some doc → ice_data doc = Some d → median doc = Some med →
  Stats.ice_latest d = Some (y, latest) →
  Stats.get med (Js.key_of_int (ice_month latest)) = Some v →
  PrimFloat.is_zero v = true →
  dom !! "ice-kpi" = Some el →
  Stats.ice_diff (Some med) latest = 0%float
  ∧ Stats.ice_diff (Some med) latest = Stats.ice_diff None latest
  ∧ ∃ dom', Stats.iceStats st dom = Ok dom'
            ∧ children <$> dom' !! "ice-kpi" = Some (Text "+0.00").
Proof.
  intros Hst Hd Hmed Hl Hget Hz Hel.
  assert (Stats.ice_diff (Some med) latest = 0%float) as H0.
  { unfold Stats.ice_diff. by rewrite Hget, truthy_num_zero. }
  split_and!; [done|done|].
  destruct (iceStats_kpi st doc d y latest dom el) as (dom' & t & Hr & Ht & Hk);
    [done..|].
  exists dom'. split; [done|]. rewrite Hk. f_equal.
  rewrite Hmed, H0 in Ht. vm_compute in Ht. congruence.
Qed.

(** C9 on a document whose median for September is 0. *)
Lemma zero_median_is_treated_as_absent_witness :
  Stats.ice_diff (Some Sample.zero_median) (Sample.ice 9 4.25) = 0%float
  ∧ Stats.ice_diff (Some Sample.zero_median) (Sample.ice 9 4.25)
    = Stats.ice_diff None (Sample.ice 9 4.25)
  ∧ ∃ dom', Stats.iceStats
              (Sample.ice_state Sample.ice_2024 (Some Sample.zero_median))
              {[ "ice-kpi" := Sample.blank ]} = Ok dom'
            ∧ children <$> dom' !! "ice-kpi" = Some (Text "+0.00").
Proof.
  apply (zero_median_is_treated_as_absent
           (Sample.ice_state Sample.ice_2024 (Some Sample.zero_median))
           (Sample.ice_doc Sample.ice_2024 (Some Sample.zero_median))
           Sample.ice_2024 Sample.zero_median "2024" (Sample.ice 9 4.25)
           0%float {[ "ice-kpi" := Sample.blank ]} Sample.blank);
    reflexivity.
Defined.

(** ** C10: a latest year without observations *)

Lemma iceStats_skip st doc d y ys dom :
  seaIceData st = Some doc → ice_data doc = Some d →
  Stats.ice_years d = y :: ys → d !! y = Some [] →
  Stats.iceStats st dom = Ok dom.
Proof.
  intros Hst Hd Hy He. unfold Stats.iceStats. rewrite Hst.
  destruct doc as [dd med lu]. cbn [ice_data] in Hd. subst dd.
  unfold Stats.ice_latest. rewrite Hy.
  by rewrite (lookup_total_correct _ _ _ He).
Qed.

(** C10. If the most recent year key of the sea-ice document maps to an
    empty observation array, the sea-ice block of [updateStats] raises
    nothing and leaves every element as it was; [updateStats] is then the
    CO2 block, the temperature block and the last-updated line, and the CO2
    and temperature blocks read nothing of the sea-ice document. *)
Theorem empty_latest_year_skips_ice_tile
    (toLocaleDateString : string → string) st doc d y ys :
  seaIceData st = Some doc → ice_data doc = Some d →
  Stats.ice_years d = y :: ys → d !! y = Some [] →
  (∀ dom, Stats.iceStats st dom = Ok dom)
  ∧ (∀ dom, Stats.updateStats toLocaleDateString st dom
            = (dom ← Stats.co2Stats st dom;
               dom ← Stats.tempStats st dom;
               Stats.updatedStats toLocaleDateString st dom))
  ∧ (∀ st' dom, co2Data st' = co2Data st →
                temperatureData st' = temperatureData st →
                Stats.co2Stats st' dom = Stats.co2Stats st dom
                ∧ Stats.tempStats st' dom = Stats.tempStats st dom).
Proof.
  intros Hst Hd Hy He.
  assert (Hskip : ∀ dom, Stats.iceStats st dom = Ok dom)
    by (intros; by eapply iceStats_skip).
  split_and!; [done| |].
  - intros dom. unfold Stats.updateStats.
    destruct (Stats.co2Stats st dom) as [dom1|e]; [|done].
    rewrite !result_bind_ok.
    destruct (Stats.tempStats st dom1) as [dom2|e]; [|done].
    by rewrite !result_bind_ok, Hskip.
  - intros st' dom H1 H2. unfold Stats.co2Stats, Stats.tempStats.
    by rewrite H1, H2.
Qed.

(** C10 on a document whose year 2024 has no observation. *)
Lemma empty_latest_year_skips_ice_tile_witness :
  (∀ dom, Stats.iceStats (Sample.ice_state Sample.ice_2024_empty None) dom = Ok dom)
  ∧ (∀ dom, Stats.updateStats id (Sample.ice_state Sample.ice_2024_empty None) dom
            = (dom ← Stats.co2Stats (Sample.ice_state Sample.ice_2024_empty None) dom;
               dom ← Stats.tempStats (Sample.ice_state Sample.ice_2024_empty None) dom;
               Stats.updatedStats id (Sample.ice_state Sample.ice_2024_empty None) dom))
  ∧ (∀ st' dom,
       co2Data st' = co2Data (Sample.ice_state Sample.ice_2024_empty None) →
       temperatureData st'
       = temperatureData (Sample.ice_state Sample.ice_2024_empty None) →
       Stats.co2Stats st' dom
       = Stats.co2Stats (Sample.ice_state Sample.ice_2024_empty None) dom
       ∧ Stats.tempStats st' dom
         = Stats.tempStats (Sample.ice_state Sample.ice_2024_empty None) dom).
Proof.
  apply (empty_latest_year_skips_ice_tile id
           (Sample.ice_state Sample.ice_2024_empty None)
           (Sample.ice_doc Sample.ice_2024_empty None)
           Sample.ice_2024_empty "2024" ["2023"]);
    reflexivity.
Defined.

(** ** C1: the KPI delta when there is nothing to compare with *)

(** C1, counterexample. With observations for 2022-06 and 2024-06 only,
    no observation exists for the comparator 2023-06, yet the delta is the
    number 0 and the tile is written exactly as for a document whose
    2023-06 and 2024-06 values are equal: no "unavailable" value exists. *)
Lemma kpi_delta_has_no_unavailable_value :
  Stats.latestCO2 Sample.gap_year = Some (Sample.co2 2024 6 420)
  ∧ Stats.previousYearCO2 Sample.gap_year (Sample.co2 2024 6 420) = None
  ∧ Stats.latestCO2 Sample.no_change = Some (Sample.co2 2024 6 420)
  ∧ Stats.previousYearCO2 Sample.no_change (Sample.co2 2024 6 420)
    = Some (Sample.co2 2023 6 420)
  ∧ Stats.co2_change Sample.gap_year (Sample.co2 2024 6 420) = 0%float
  ∧ Stats.co2_change Sample.no_change (Sample.co2 2024 6 420) = 0%float
  ∧ Stats.co2Stats (Sample.co2_state Sample.gap_year)
                   {[ "co2-kpi" := Sample.blank ]}
    = Stats.co2Stats (Sample.co2_state Sample.no_change)
                     {[ "co2-kpi" := Sample.blank ]}.
Proof. split_and!; vm_compute; reflexivity. Qed.

(** C1, amended. The KPI delta is a plain number.  Year over year: when no
    observation exists for (latestYear - 1, latestMonth) the lookup finds
    nothing and the delta is the number 0; when one exists, the lookup
    finds the first such observation of the document and the delta is
    [latest.average] minus its average.  Reference table: when the median
    table is missing or has no entry for the month of the latest
    observation the delta is the number 0; when it has an entry, the
    delta is [latest.extent] minus the entry, unless the entry is falsy
    (0 or NaN), in which case it is the number 0 again. *)
Theorem kpi_delta_defaults_to_zero :
  (∀ obs latest,
     (∀ d, d ∈ obs → ¬ year_before latest d) →
     Stats.previousYearCO2 obs latest = None
     ∧ Stats.co2_change obs latest = 0%float)
  ∧ (∀ l1 prev l2 latest,
       year_before latest prev →
       (∀ d, d ∈ l1 → ¬ year_before latest d) →
       Stats.previousYearCO2 (l1 ++ prev :: l2)%list latest = Some prev
       ∧ Stats.co2_change (l1 ++ prev :: l2)%list latest
         = (average latest - average prev)%float)
  ∧ (∀ latest, Stats.ice_diff None latest = 0%float)
  ∧ (∀ med latest,
       Js.key_of_int (ice_month latest) ∉ med.*1 →
       Stats.get med (Js.key_of_int (ice_month latest)) = None
       ∧ Stats.ice_diff (Some med) latest = 0%float)
  ∧ (∀ l1 v l2 latest,
       Js.key_of_int (ice_month latest) ∉ l1.*1 →
       Stats.get (l1 ++ (Js.key_of_int (ice_month latest), v) :: l2)%list
                 (Js.key_of_int (ice_month latest)) = Some v
       ∧ Stats.ice_diff
           (Some (l1 ++ (Js.key_of_int (ice_month latest), v) :: l2)%list) latest
         = if Js.truthy_num v then (extent latest - v)%float else 0%float).
Proof.
  split_and!.
  - intros obs latest Hno. apply previousYearCO2_None in Hno.
    unfold Stats.co2_change. by rewrite Hno.
  - intros l1 prev l2 latest Hp Hno.
    pose proof (previousYearCO2_found l1 prev l2 latest Hp Hno) as Hf.
    unfold Stats.co2_change. by rewrite Hf.
  - done.
  - intros med latest Hk. pose proof (get_None med _ Hk) as Hg.
    unfold Stats.ice_diff. by rewrite Hg.
  - intros l1 v l2 latest Hk.
    pose proof (get_app_found l1 l2 _ v Hk) as Hg.
    unfold Stats.ice_diff. by rewrite Hg.
Qed.

(** C1, amended, on the document with the missing comparator, on the
    document with 2023-06 before 2024-06, and on a median table with an
    entry for September. *)
Lemma kpi_delta_defaults_to_zero_witness :
  (Stats.previousYearCO2 Sample.gap_year (Sample.co2 2024 6 420) = None
   ∧ Stats.co2_change Sample.gap_year (Sample.co2 2024 6 420) = 0%float)
  ∧ (Stats.previousYearCO2
       ([] ++ Sample.co2 2023 6 418.5 :: [Sample.co2 2024 6 420])%list
       (Sample.co2 2024 6 420) = Some (Sample.co2 2023 6 418.5)
     ∧ Stats.co2_change
         ([] ++ Sample.co2 2023 6 418.5 :: [Sample.co2 2024 6 420])%list
         (Sample.co2 2024 6 420)
       = (420 - 418.5)%float)
  ∧ (Stats.get ([("3", 15.5%float)] ++ (Js.key_of_int 9, 6.25%float) :: [])%list
               (Js.key_of_int 9) = Some 6.25%float
     ∧ Stats.ice_diff
         (Some ([("3", 15.5%float)] ++ (Js.key_of_int 9, 6.25%float) :: [])%list)
         (Sample.ice 9 4.25)
       = if Js.truthy_num 6.25 then (4.25 - 6.25)%float else 0%float).
Proof.
  destruct kpi_delta_defaults_to_zero as (H1 & H2 & _ & _ & H5).
  split_and!.
  - apply (H1 Sample.gap_year (Sample.co2 2024 6 420)).
    intros d Hd [Hy Hm]. unfold Sample.gap_year, Sample.co2 in *.
    elem_cases Hd; simpl in *; lia.
  - apply (H1 Sample.gap_year (Sample.co2 2024 6 420)).
    intros d Hd [Hy Hm]. unfold Sample.gap_year, Sample.co2 in *.
    elem_cases Hd; simpl in *; lia.
  - apply (H2 [] (Sample.co2 2023 6 418.5) [Sample.co2 2024 6 420]
              (Sample.co2 2024 6 420)).
    + split; reflexivity.
    + intros d Hd. by apply elem_of_nil in Hd.
  - apply (H2 [] (Sample.co2 2023 6 418.5) [Sample.co2 2024 6 420]
              (Sample.co2 2024 6 420)).
    + split; reflexivity.
    + intros d Hd. by apply elem_of_nil in Hd.
  - apply (H5 [("3", 15.5%float)] 6.25%float [] (Sample.ice 9 4.25)).
    apply (bool_decide_unpack _). by vm_compute.
  - apply (H5 [("3", 15.5%float)] 6.25%float [] (Sample.ice 9 4.25)).
    apply (bool_decide_unpack _). by vm_compute.
Defined.

(** ** C4: the data-freshness indicator *)

Lemma most_recent_desc l :
  StronglySorted (flip stamp_le) l → most_recent l = head l.
Proof.
  induction 1 as [|t l Hl IH Ht]; simpl; [done|].
  unfold most_recent in *. simpl. rewrite IH.
  destruct l as [|u l']; simpl; [done|].
  apply Forall_cons in Ht as [Hu _]. by rewrite bool_decide_eq_true_2.
Qed.

Lemma upd_head st : Stats.upd st = head (present_stamps st).
Proof.
  unfold Stats.upd, present_stamps, Stats.stamps. simpl.
  destruct (Stats.truthy_stamp (co2Data st ≫= co2_last_updated)); [done|].
  destruct (Stats.truthy_stamp (temperatureData st ≫= temp_last_updated)); [done|].
  by destruct (Stats.truthy_stamp (seaIceData st ≫= ice_last_updated)).
Qed.

Lemma truthy_stamp_Some o t :
  Stats.truthy_stamp o = Some t → o = Some t ∧ Js.truthy_str t = true.
Proof.
  unfold Stats.truthy_stamp. destruct o as [u|]; [|done].
  destruct (Js.truthy_str u) eqn:E; [|done]. by intros [= <-].
Qed.

Lemma upd_truthy st t : Stats.upd st = Some t → Js.truthy_str t = true.
Proof.
  unfold Stats.upd.
  destruct (Stats.truthy_stamp (co2Data st ≫= co2_last_updated)) eqn:E1.
  { intros [= <-]. by apply truthy_stamp_Some in E1 as [_ ?]. }
  destruct (Stats.truthy_stamp (temperatureData st ≫= temp_last_updated)) eqn:E2.
  { intros [= <-]. by apply truthy_stamp_Some in E2 as [_ ?]. }
  intros E3. by apply truthy_stamp_Some in E3 as [_ ?].
Qed.

(** C4, counterexample. The CO2 document was fetched in 2024 and the
    temperature document in 2025: the indicator shows the CO2 document's
    timestamp, which is not the most recent one. *)
Lemma freshness_is_not_the_latest_stamp :
  Stats.upd Sample.stale_co2 = Some "2024-01-01T00:00:00Z"
  ∧ most_recent (present_stamps Sample.stale_co2) = Some "2025-01-01T00:00:00Z"
  ∧ Stats.updatedStats id Sample.stale_co2 {[ "last-updated" := Sample.blank ]}
    = Ok {[ "last-updated" :=
              set_textContent "2024-01-01T00:00:00Z" Sample.blank ]}.
Proof. split_and!; vm_compute; reflexivity. Qed.

(** [most_recent] gives a greatest element of the list. *)
Lemma most_recent_max l :
  match most_recent l with
  | Some m => m ∈ l ∧ ∀ u, u ∈ l → stamp_le u m
  | None => l = []
  end.
Proof.
  induction l as [|t l IH]; [done|].
  unfold most_recent in *. cbn [foldr].
  destruct (foldr _ None l) as [m|].
  - destruct IH as [Hm Hmax]. case_bool_decide as Hle.
    + split; [by left|]. intros u [->|Hu]%elem_of_cons; [reflexivity|].
      etrans; [by apply Hmax|done].
    + split; [by right|]. intros u [->|Hu]%elem_of_cons; [|by apply Hmax].
      by destruct (total stamp_le t m).
  - subst l. split; [by left|].
    intros u ->%list_elem_of_singleton. reflexivity.
Qed.

(** C4, amended. The data-freshness indicator is the first non-empty
    [last_updated] in the fixed order CO2, temperature, sea ice, for every
    combination of present and absent documents; it is written to the
    [last-updated] element through [formatDate], and nothing is written
    when no document carries one.  It is the most recent value exactly
    when that first value is not older than any other value present, as
    it is when the values present are, in that order, latest first. *)
Theorem freshness_is_first_present_stamp
    (toLocaleDateString : string → string) (st : State) :
  Stats.upd st = head (present_stamps st)
  ∧ (Stats.upd st = most_recent (present_stamps st)
     ↔ ∀ t u, Stats.upd st = Some t → u ∈ present_stamps st → stamp_le u t)
  ∧ (StronglySorted (flip stamp_le) (present_stamps st) →
     Stats.upd st = most_recent (present_stamps st))
  ∧ (∀ dom el t,
       Stats.upd st = Some t → dom !! "last-updated" = Some el →
       Stats.updatedStats toLocaleDateString st dom
       = Ok (<["last-updated" := set_textContent (toLocaleDateString t) el]> dom))
  ∧ (Stats.upd st = None →
     ∀ dom, Stats.updatedStats toLocaleDateString st dom = Ok dom).
Proof.
  split_and!.
  - apply upd_head.
  - rewrite upd_head.
    pose proof (most_recent_max (present_stamps st)) as Hmax.
    destruct (present_stamps st) as [|t l] eqn:E.
    { split; [by intros _ t u [=]|by intros _]. }
    cbn [head]. destruct (most_recent (t :: l)) as [m|]; [|done].
    destruct Hmax as [Hm Hmax]. split.
    + intros [= <-] t' u [= <-] Hu. by apply Hmax.
    + intros Hall. f_equal. apply (anti_symm stamp_le).
      * apply Hmax. by left.
      * by apply Hall.
  - intros Hs. by rewrite most_recent_desc, upd_head.
  - intros dom el t Hu Hel. unfold Stats.updatedStats, element.
    rewrite Hu, Hel. unfold Stats.formatDate, Stats.truthy_stamp.
    by rewrite (upd_truthy st t Hu).
  - intros Hu dom. unfold Stats.updatedStats. by rewrite Hu.
Qed.

(** C4, amended, on documents stamped latest first, and on documents of
    which the first is the most recent while the other two are not in
    order. *)
Lemma freshness_is_first_present_stamp_witness :
  Stats.upd Sample.fresh_co2 = most_recent (present_stamps Sample.fresh_co2)
  ∧ Stats.upd Sample.first_is_latest
    = most_recent (present_stamps Sample.first_is_latest).
Proof.
  split.
  - apply (freshness_is_first_present_stamp id Sample.fresh_co2).
    repeat constructor.
  - apply (proj1 (proj2 (freshness_is_first_present_stamp
                           id Sample.first_is_latest))).
    intros t u [= <-] Hu. unfold present_stamps in Hu. simpl in Hu.
    elem_cases Hu; by vm_compute.
Defined.

(** ** C5: which observation is the current one *)

#[global] Instance chron_le_refl : Reflexive chron_le.
Proof. intros [y m]. right. simpl. lia. Qed.

#[global] Instance chron_le_trans : Transitive chron_le.
Proof. intros [y1 m1] [y2 m2] [y3 m3]. unfold chron_le. simpl. lia. Qed.

(** In a sorted list the last element is the greatest. *)
Lemma sorted_last_greatest {A} (R : relation A)
    `{!Reflexive R, !Transitive R} (l : list A) (x : A) :
  Sorted R l → last l = Some x → ∀ y, y ∈ l → R y x.
Proof.
  intros Hs Hl y Hy. apply last_Some in Hl as [l' ->].
  apply Sorted_StronglySorted in Hs; [|done].
  apply elem_of_app in Hy as [Hy|Hy].
  - eapply StronglySorted_app_1_elem_of; [done..|]. by apply list_elem_of_singleton.
  - apply list_elem_of_singleton in Hy as ->. reflexivity.
Qed.

(** C5, counterexample. In the specification's own example document,
    [{2024,6,420.0}, {2023,6,418.5}], the code's current observation is
    2023-06, although 2024-06 is later; the year-over-year delta is then 0
    instead of +1.5. *)
Lemma current_observation_is_not_the_latest :
  Stats.latestCO2 Sample.latest_first = Some (Sample.co2 2023 6 418.5)
  ∧ Sample.co2 2024 6 420 ∈ Sample.latest_first
  ∧ ¬ chron_le (co2_date (Sample.co2 2024 6 420))
               (co2_date (Sample.co2 2023 6 418.5))
  ∧ Stats.co2_change Sample.latest_first (Sample.co2 2023 6 418.5) = 0%float
  ∧ signed_text (Stats.co2_change Sample.latest_first (Sample.co2 2023 6 418.5))
    = Ok "+0.00".
Proof.
  split_and!; try (vm_compute; reflexivity).
  - apply list_elem_of_here.
  - unfold chron_le, co2_date. simpl. lia.
Qed.

(** C5, amended. The current observation of the year-over-year KPI is the
    last element of the document's observation list.  For every document
    whose list is sorted by (year, month) it is the chronologically
    latest observation of the document; for a list that is not sorted it
    need not be. *)
Theorem current_observation_is_last_element :
  Stats.latestCO2 [] = None
  ∧ (∀ earlier latest,
       Stats.latestCO2 (earlier ++ [latest])%list = Some latest)
  ∧ (∀ earlier latest,
       Sorted (λ a b, chron_le (co2_date a) (co2_date b))
              (earlier ++ [latest])%list →
       ∀ d, d ∈ (earlier ++ [latest])%list →
            chron_le (co2_date d) (co2_date latest)).
Proof.
  split_and!.
  - done.
  - intros earlier latest. unfold Stats.latestCO2. apply last_snoc.
  - intros earlier latest Hs d Hd.
    apply (sorted_last_greatest
             (λ a b, chron_le (co2_date a) (co2_date b))
             (earlier ++ [latest])%list latest
             (Reflexive0 := λ a, chron_le_refl (co2_date a))
             (Transitive0 := λ a b c, chron_le_trans (co2_date a) (co2_date b) (co2_date c)));
      [done|apply last_snoc|done].
Qed.

(** C5, amended, on a chronologically sorted document. *)
Lemma current_observation_is_last_element_witness :
  Forall (λ d, chron_le (co2_date d) (co2_date (Sample.co2 2024 6 420)))
         ([Sample.co2 2023 6 418.5] ++ [Sample.co2 2024 6 420])%list.
Proof.
  apply Forall_forall.
  apply (proj2 (proj2 current_observation_is_last_element)
           [Sample.co2 2023 6 418.5] (Sample.co2 2024 6 420)).
  repeat constructor.
Defined.

(** ** C3: where an observation lands, and months outside 1..12 *)

Lemma dataByYear_has_year obs k :
  is_Some (CO2.dataByYear obs !! k)
  ↔ ∃ d, d ∈ obs ∧ Js.key_of_int (co2_year d) = k.
Proof.
  rewrite <- elem_of_dom, dataByYear_dom, elem_of_list_to_set, list_elem_of_fmap.
  split; intros (d & H1 & H2); eauto.
Qed.

(** C3, counterexample. In a document with a valid observation of 2019
    and the observation {year: 2020, month: 13, average: 5}, the latter is
    the only one of its year: the output has a series for 2020 with twelve
    absent slots, which the output without that observation does not
    have. *)
Lemma month13_alone_creates_a_bucket :
  valid_month 13 = false
  ∧ name <$> CO2.yearSeries 5 Sample.month13 = ["2020"; "2019"]
  ∧ data <$> CO2.yearSeries 5 Sample.month13 !! 0%nat = Some empty_bucket
  ∧ name <$> CO2.yearSeries 5 [Sample.co2 2019 6 1] = ["2019"]
  ∧ CO2.yearSeries 5 Sample.month13 ≠ CO2.yearSeries 5 [Sample.co2 2019 6 1].
Proof. split_and!; try (vm_compute; reflexivity). vm_compute. discriminate. Qed.

(** C3, amended. An observation with month m in 1..12 that is the last of
    the document for its (year, month) has its value at slot m - 1 of the
    bucket of its year.  An observation with m outside 1..12 changes no
    slot of any bucket.  In the sea-ice path the Normalizer's output is the
    same as without it.  In the CO2 path the grouping is the grouping
    without it, plus a bucket of twelve absent slots for its year if no
    other observation has that year; the output is the same as without it
    whenever another observation of the document has its year. *)
Theorem out_of_range_month_changes_no_slot :
  (∀ l1 d l2,
     valid_month (co2_month d) = true →
     (∀ d', d' ∈ l2 → co2_year d' = co2_year d → co2_month d' ≠ co2_month d) →
     ∃ b, CO2.dataByYear (l1 ++ d :: l2) !! Js.key_of_int (co2_year d) = Some b
          ∧ b !! Z.to_nat (co2_month d - 1) = Some (Some (average d)))
  ∧ (∀ l1 d l2,
       valid_month (co2_month d) = false →
       CO2.dataByYear (l1 ++ d :: l2)
       = CO2.ensure_year (Js.key_of_int (co2_year d)) (CO2.dataByYear (l1 ++ l2))
       ∧ (∀ k b, CO2.dataByYear (l1 ++ l2) !! k = Some b →
                 CO2.dataByYear (l1 ++ d :: l2) !! k = Some b)
       ∧ (∀ k b, CO2.dataByYear (l1 ++ d :: l2) !! k = Some b →
                 CO2.dataByYear (l1 ++ l2) !! k = Some b
                 ∨ (k = Js.key_of_int (co2_year d) ∧ b = empty_bucket
                    ∧ ∀ d', d' ∈ (l1 ++ l2)%list → co2_year d' ≠ co2_year d))
       ∧ ((∃ d', d' ∈ (l1 ++ l2)%list ∧ co2_year d' = co2_year d) →
          ∀ K, CO2.yearSeries K (l1 ++ d :: l2) = CO2.yearSeries K (l1 ++ l2)))
  ∧ (∀ l1 d l2,
       valid_month (ice_month d) = true →
       (∀ d', d' ∈ l2 → ice_month d' ≠ ice_month d) →
       SeaIce.yearBucket (l1 ++ d :: l2) !! Z.to_nat (ice_month d - 1)
       = Some (Some (extent d)))
  ∧ (∀ K (dd : gmap string (list IceObs)) y (l1 l2 : list IceObs) d,
       valid_month (ice_month d) = false →
       SeaIce.yearBucket (l1 ++ d :: l2) = SeaIce.yearBucket (l1 ++ l2)
       ∧ SeaIce.yearSeries K (<[y := (l1 ++ d :: l2)%list]> dd)
         = SeaIce.yearSeries K (<[y := (l1 ++ l2)%list]> dd)).
Proof.
  split_and!.
  - apply dataByYear_valid.
  - intros l1 d l2 Hv.
    pose proof (dataByYear_invalid l1 d l2 Hv) as Heq.
    split_and!; [done| | |].
    + intros k b Hb. rewrite Heq, ensure_year_lookup.
      case_decide; subst; by rewrite Hb.
    + intros k b. rewrite Heq, ensure_year_lookup.
      case_decide as Hk; [|by left]. subst k.
      destruct (CO2.dataByYear (l1 ++ l2) !! Js.key_of_int (co2_year d))
        as [b0|] eqn:E; simpl; intros [= <-]; [by left|right].
      split_and!; [done..|]. intros d' Hd' Hy.
      assert (is_Some (CO2.dataByYear (l1 ++ l2) !! Js.key_of_int (co2_year d)))
        as [? ?]; [|congruence].
      apply dataByYear_has_year. exists d'. by rewrite Hy.
    + intros (d' & Hd' & Hy) K. unfold CO2.yearSeries.
      rewrite Heq, ensure_year_id; [done|].
      apply dataByYear_has_year. exists d'. by rewrite Hy.
  - apply yearBucket_valid.
  - intros K dd y l1 l2 d Hv. split.
    + by apply yearBucket_invalid.
    + by apply yearSeries_insert_invalid.
Qed.

(** C3, amended, on a month-13 observation next to a valid one of its year. *)
Lemma out_of_range_month_changes_no_slot_witness :
  CO2.yearSeries 5 ([Sample.co2 2020 6 1] ++ Sample.co2 2020 13 5 :: [])
  = CO2.yearSeries 5 ([Sample.co2 2020 6 1] ++ []).
Proof.
  destruct (proj1 (proj2 out_of_range_month_changes_no_slot)
              [Sample.co2 2020 6 1] (Sample.co2 2020 13 5) [] eq_refl)
    as (_ & _ & _ & Hsame).
  apply Hsame. exists (Sample.co2 2020 6 1).
  split; [apply list_elem_of_here|reflexivity].
Defined.

(** ** C2 and C7: the years of the output and their order *)

#[global] Instance key_of_int_Inj : Inj (=) (=) Js.key_of_int.
Proof. intros y y'. apply key_of_int_inj. Qed.

Lemma co2_yearSeries_length K obs : (length (CO2.yearSeries K obs) ≤ K)%nat.
Proof.
  unfold CO2.yearSeries, CO2.outputYears. rewrite length_fmap, length_take. lia.
Qed.

Lemma yearSeries_names K obs :
  name <$> CO2.yearSeries K obs = CO2.outputYears K (CO2.dataByYear obs).
Proof.
  unfold CO2.yearSeries. rewrite <- list_fmap_compose.
  rewrite <- (list_fmap_id (CO2.outputYears _ _)) at 2.
  by apply list_fmap_ext.
Qed.

Lemma ice_yearSeries_names K (d : gmap string (list IceObs)) :
  name <$> SeaIce.yearSeries K d = SeaIce.years K d.
Proof.
  unfold SeaIce.yearSeries. rewrite <- list_fmap_compose.
  rewrite <- (list_fmap_id (SeaIce.years _ _)) at 2.
  by apply list_fmap_ext.
Qed.

Lemma dataByYear_perm obs obs' :
  obs ≡ₚ obs' → Js.keys (CO2.dataByYear obs) = Js.keys (CO2.dataByYear obs').
Proof.
  intros Hp. unfold Js.keys. rewrite !dataByYear_dom. by rewrite Hp.
Qed.

(** The numeric order of four-digit years, carried to their keys. *)
Lemma keys_of_sorted_years (l : list Z) :
  StronglySorted Z.le l → Forall (λ y, four_digit y = true) l →
  StronglySorted Js.str_le (Js.key_of_int <$> l).
Proof.
  induction 1 as [|y l Hl IH Hy]; intros Hf; [constructor|].
  inversion_clear Hf as [|? ? Hfy Hfl]. rewrite fmap_cons. constructor.
  - by apply IH.
  - apply Forall_fmap.
    rewrite Forall_forall in Hy, Hfl |- *. intros z Hz. simpl.
    apply key_le_iff; auto.
Qed.

(** C2, failing input. With observations for the years 999 and 1000 the
    year keys are sorted as strings: the buckets come out as 999, 1000,
    which is ascending by number.  With the six years 995..1000 the five
    buckets kept are 999, 998, 997, 996, 995: the most recent year, 1000,
    is the one left out.  The sea-ice path orders its year keys the same
    way. *)
Theorem normalizer_sorts_year_keys_as_strings :
  name <$> CO2.yearSeries 5 Sample.short_year = ["999"; "1000"]
  ∧ name <$> CO2.yearSeries 5 Sample.six_years
    = ["999"; "998"; "997"; "996"; "995"]
  ∧ name <$> SeaIce.yearSeries 5 Sample.ice_short_year = ["999"; "1000"].
Proof. split_and!; vm_compute; reflexivity. Qed.

(** C7, failing input. With observations for the years 999 and 1000 the
    chart's series are 999, 1000 and then the reference series: the
    displayed years are not most-recent-first.  With the six years
    995..1000 the first series is 999 and the most recent year is not
    displayed at all. *)
Theorem chart_series_order_on_short_years :
  (name <$> CO2Chart.chartSeries 5 Sample.short_year
   = ["999"; "1000"; "1991-2020 Mittel"])
  ∧ (fmap name ∘ series
       <$> CO2Chart.renderCO2Chart (Sample.co2_state Sample.short_year)
     = Some ["999"; "1000"; "1991-2020 Mittel"])
  ∧ (fmap name ∘ series
       <$> CO2Chart.renderCO2Chart (Sample.co2_state Sample.six_years)
     = Some ["999"; "998"; "997"; "996"; "995"; "1991-2020 Mittel"])
  ∧ (name <$> SeaIceChart.chartSeries 5 Sample.ice_short_year
                (Some Sample.zero_median)
     = ["999"; "1000"; "1981-2010 Median"]).
Proof. split_and!; vm_compute; reflexivity. Qed.

(** ** Further properties of the Normalizer and the chart series *)

(** X1. For every document and every K the CO2 Normalizer returns at most K
    year buckets, each of exactly twelve slots, for pairwise distinct years
    of the document, ordered by descending year key in string order. *)
Theorem normalizer_output_shape (K : nat) (obs : list Co2Obs) :
  (length (CO2.yearSeries K obs) ≤ K)%nat
  ∧ Forall (λ s, length (data s) = 12%nat) (CO2.yearSeries K obs)
  ∧ NoDup (name <$> CO2.yearSeries K obs)
  ∧ StronglySorted (flip Js.str_le) (name <$> CO2.yearSeries K obs)
  ∧ (∀ s, s ∈ CO2.yearSeries K obs →
          ∃ d, d ∈ obs ∧ name s = Js.key_of_int (co2_year d)).
Proof.
  assert (Hin : ∀ s, s ∈ CO2.yearSeries K obs →
            is_Some (CO2.dataByYear obs !! name s)
            ∧ data s = CO2.dataByYear obs !!! name s).
  { intros s. unfold CO2.yearSeries. rewrite list_elem_of_fmap.
    intros (y & -> & Hy). simpl. split; [|done].
    apply elem_of_keys. by apply top_elem_of in Hy. }
  split_and!.
  - unfold CO2.yearSeries, CO2.outputYears.
    rewrite length_fmap, length_take. lia.
  - apply Forall_forall. intros s Hs. destruct (Hin s Hs) as [[b Hb] ->].
    rewrite (lookup_total_correct _ _ _ Hb).
    by apply (dataByYear_ok obs (name s)).
  - rewrite yearSeries_names. apply top_NoDup, keys_NoDup.
  - rewrite yearSeries_names. apply top_Sorted.
  - intros s Hs. destruct (Hin s Hs) as [Hk _].
    apply dataByYear_has_year in Hk as (d & Hd & Hk). eauto.
Qed.

(** X2. When every year of the document has four digits, the CO2 Normalizer
    returns exactly the K most recent distinct years, latest first. *)
Theorem normalizer_recent_four_digit_years (K : nat) (obs : list Co2Obs) :
  Forall (λ d, four_digit (co2_year d) = true) obs →
  name <$> CO2.yearSeries K obs
  = Js.key_of_int <$> recent_years K (co2_year <$> obs).
Proof.
  intros Hf. rewrite yearSeries_names. unfold CO2.outputYears, recent_years.
  rewrite fmap_take, fmap_reverse. do 2 f_equal.
  set (ys := remove_dups (co2_year <$> obs)).
  assert (Hys : Forall (λ y, four_digit y = true) (merge_sort Z.le ys)).
  { pose proof (proj1 (Forall_forall _ _) Hf) as Hall.
    apply Forall_forall. intros y.
    rewrite merge_sort_Permutation. unfold ys.
    rewrite elem_of_remove_dups, list_elem_of_fmap.
    intros (d & -> & Hd). by apply Hall. }
  apply (Sorted_unique Js.str_le).
  - apply sort_Sorted.
  - apply StronglySorted_Sorted, keys_of_sorted_years; [|done].
    apply (StronglySorted_merge_sort Z.le).
  - rewrite sort_Permutation, merge_sort_Permutation.
    apply NoDup_Permutation.
    + apply keys_NoDup.
    + apply NoDup_fmap_2; [apply _|]. apply NoDup_remove_dups.
    + intros k. rewrite elem_of_keys, dataByYear_has_year.
      rewrite list_elem_of_fmap. unfold ys. split.
      * intros (d & Hd & <-). exists (co2_year d). split; [done|].
        rewrite elem_of_remove_dups, list_elem_of_fmap. eauto.
      * intros (y & -> & Hy).
        rewrite elem_of_remove_dups, list_elem_of_fmap in Hy.
        destruct Hy as (d & -> & Hd). eauto.
Qed.

(** X2 on the specification's example document. *)
Lemma normalizer_recent_four_digit_years_witness :
  name <$> CO2.yearSeries 1 Sample.latest_first
  = Js.key_of_int <$> recent_years 1 (co2_year <$> Sample.latest_first).
Proof.
  apply (normalizer_recent_four_digit_years 1 Sample.latest_first).
  repeat constructor.
Defined.

(** X4. For every sea-ice document and every K the Normalizer returns at most K
    year buckets, each of exactly twelve slots, for pairwise distinct year
    keys of the document, ordered by descending year key in string order. *)
Theorem ice_normalizer_output_shape (K : nat) (d : gmap string (list IceObs)) :
  (length (SeaIce.yearSeries K d) ≤ K)%nat
  ∧ Forall (λ s, length (data s) = 12%nat) (SeaIce.yearSeries K d)
  ∧ NoDup (name <$> SeaIce.yearSeries K d)
  ∧ StronglySorted (flip Js.str_le) (name <$> SeaIce.yearSeries K d)
  ∧ (∀ s, s ∈ SeaIce.yearSeries K d → is_Some (d !! name s)).
Proof.
  split_and!.
  - unfold SeaIce.yearSeries, SeaIce.years.
    rewrite length_fmap, length_take. lia.
  - apply Forall_forall. intros s. unfold SeaIce.yearSeries.
    rewrite list_elem_of_fmap. intros (y & -> & _). apply yearBucket_length.
  - rewrite ice_yearSeries_names. apply top_NoDup, keys_NoDup.
  - rewrite ice_yearSeries_names. apply top_Sorted.
  - intros s. unfold SeaIce.yearSeries. rewrite list_elem_of_fmap.
    intros (y & -> & Hy). apply elem_of_keys. by apply top_elem_of in Hy.
Qed.

(** X5. When the CO2 document has observations and the page has the
    [co2-kpi] element, [updateStats]'s CO2 block raises nothing and writes
    to that element the signed, two-decimal text of the year-over-year
    change of the list's last observation. *)
Theorem co2_tile_shows_signed_change st doc obs latest dom el :
  co2Data st = Some doc → co2_data doc = Some obs →
  Stats.latestCO2 obs = Some latest →
  dom !! "co2-kpi" = Some el →
  ∃ dom' t,
    Stats.co2Stats st dom = Ok dom'
    ∧ signed_text (Stats.co2_change obs latest) = Ok t
    ∧ children <$> dom' !! "co2-kpi" = Some (Text t).
Proof. apply co2Stats_kpi. Qed.

(** X5 on the document whose 2024-06 equals its 2023-06. *)
Lemma co2_tile_shows_signed_change_witness :
  ∃ dom' t,
    Stats.co2Stats (Sample.co2_state Sample.no_change)
                   {[ "co2-kpi" := Sample.blank ]} = Ok dom'
    ∧ signed_text (Stats.co2_change Sample.no_change (Sample.co2 2024 6 420))
      = Ok t
    ∧ children <$> dom' !! "co2-kpi" = Some (Text t).
Proof.
  apply (co2_tile_shows_signed_change
           (Sample.co2_state Sample.no_change)
           {| co2_data := Some Sample.no_change; co2_last_updated := None |}
           Sample.no_change (Sample.co2 2024 6 420)
           {[ "co2-kpi" := Sample.blank ]} Sample.blank);
    reflexivity.
Defined.

(** * Further properties of the code *)

(** ** [parseInt] reads back what [String] wrote *)

Section parse_int.

Lemma digits_acc u : ∀ a,
  ParseInt.digits 10 (NilEmpty.string_of_uint u) (Some (Z.pos a))
  = Some (Z.pos (Pos.of_uint_acc u a)).
Proof.
  induction u as [|u IH|u IH|u IH|u IH|u IH|u IH|u IH|u IH|u IH|u IH];
    intros a; [done|..];
    cbn [NilEmpty.string_of_uint ParseInt.digits Pos.of_uint_acc];
    (match goal with
     | |- context [ParseInt.digit_val 10 ?c] =>
         let v := eval vm_compute in (ParseInt.digit_val 10 c) in
         change (ParseInt.digit_val 10 c) with v
     end);
    cbn [default]; rewrite <- IH; do 2 f_equal; unfold id; lia.
Qed.

Lemma digits_some_0 u :
  ParseInt.digits 10 (NilEmpty.string_of_uint u) (Some 0)
  = Some (Z.of_N (Pos.of_uint u)).
Proof.
  induction u as [|u IH|u IH|u IH|u IH|u IH|u IH|u IH|u IH|u IH|u IH];
    [done|..];
    cbn [NilEmpty.string_of_uint ParseInt.digits Pos.of_uint];
    (match goal with
     | |- context [ParseInt.digit_val 10 ?c] =>
         let v := eval vm_compute in (ParseInt.digit_val 10 c) in
         change (ParseInt.digit_val 10 c) with v
     end);
    cbn [default];
    (match goal with
     | |- ParseInt.digits 10 _ (Some ?e) = _ =>
         let v := eval vm_compute in e in change e with v
     end);
    [exact IH|rewrite digits_acc; done..].
Qed.

Lemma digits_none u :
  u ≠ Decimal.Nil →
  ParseInt.digits 10 (NilEmpty.string_of_uint u) None
  = Some (Z.of_N (Pos.of_uint u)).
Proof.
  destruct u; [done|..]; intros _;
    cbn [NilEmpty.string_of_uint ParseInt.digits Pos.of_uint];
    (match goal with
     | |- context [ParseInt.digit_val 10 ?c] =>
         let v := eval vm_compute in (ParseInt.digit_val 10 c) in
         change (ParseInt.digit_val 10 c) with v
     end);
    cbn [default];
    (match goal with
     | |- ParseInt.digits 10 _ (Some ?e) = _ =>
         let v := eval vm_compute in e in change e with v
     end);
    [apply digits_some_0|rewrite digits_acc; done..].
Qed.

Lemma skip_ws_ascii c r :
  (32 < nat_of_ascii c < 128)%nat →
  ParseInt.skip_ws (String c r) = String c r.
Proof.
  intros Hc. cbn [ParseInt.skip_ws].
  assert (ParseInt.is_ws c = false) as ->.
  { unfold ParseInt.is_ws.
    destruct (Nat.leb_spec 9 (nat_of_ascii c)),
             (Nat.leb_spec (nat_of_ascii c) 13),
             (Nat.eqb_spec (nat_of_ascii c) 32); simpl; try done; lia. }
  assert (∀ c2, ParseInt.is_ws2 c c2 = false) as H2.
  { intros c2. unfold ParseInt.is_ws2.
    destruct (Nat.eqb_spec (nat_of_ascii c) 194); [lia|done]. }
  assert (∀ c2 c3, ParseInt.is_ws3 c c2 c3 = false) as H3.
  { intros c2 c3. unfold ParseInt.is_ws3. cbv zeta.
    destruct (Nat.eqb_spec (nat_of_ascii c) 225); [lia|].
    destruct (Nat.eqb_spec (nat_of_ascii c) 226); [lia|].
    destruct (Nat.eqb_spec (nat_of_ascii c) 227); [lia|].
    destruct (Nat.eqb_spec (nat_of_ascii c) 239); [lia|]. done. }
  destruct r as [|c2 [|c3 r]]; by rewrite ?H2, ?H3.
Qed.

Local Ltac first_char u :=
  destruct u as [|u|u|u|u|u|u|u|u|u|u]; cbn [NilEmpty.string_of_uint].

(** On a string of decimal digits [parseInt] is the digit reader. *)
Lemma parseInt_uint u :
  u ≠ Decimal.Nil →
  ParseInt.parseInt (NilEmpty.string_of_uint u)
  = ParseInt.digits 10 (NilEmpty.string_of_uint u) None.
Proof.
  intros Hu. first_char u; [done|first_char u|..];
    unfold ParseInt.parseInt;
    rewrite ?skip_ws_ascii by (vm_compute; lia);
    cbv beta iota zeta;
    match goal with
    | |- _ <$> ?d = _ => by destruct d
    end.
Qed.

Lemma parseInt_neg_uint u :
  u ≠ Decimal.Nil →
  ParseInt.parseInt (String "-" (NilEmpty.string_of_uint u))
  = Some (- Z.of_N (Pos.of_uint u)).
Proof.
  intros Hu. rewrite <- (fmap_Some_2 Z.opp _ _ (digits_none u Hu)).
  unfold ParseInt.parseInt. rewrite skip_ws_ascii by (vm_compute; lia).
  cbv beta iota zeta.
  first_char u; [done|first_char u|..]; cbv beta iota zeta;
    match goal with
    | |- _ <$> ?d = _ => by destruct d
    end.
Qed.

Lemma parseInt_key (z : Z) : ParseInt.parseInt (Js.key_of_int z) = Some z.
Proof.
  destruct z as [|p|p]; [reflexivity|..]; unfold Js.key_of_int;
    pose proof (DecimalPos.Unsigned.to_uint_nonnil p) as Hn;
    pose proof (DecimalPos.Unsigned.of_to p) as Hof;
    cbn [Z.to_int NilZero.string_of_int]; rewrite uint_string_nonnil by done.
  - rewrite parseInt_uint, digits_none by done. by rewrite Hof.
  - rewrite parseInt_neg_uint by done. by rewrite Hof.
Qed.

Lemma skip_ws_white w s :
  w ∈ white_space → ParseInt.skip_ws (w ++ s) = ParseInt.skip_ws s.
Proof.
  intros Hw. unfold white_space in Hw. cbn [fmap list_fmap] in Hw.
  elem_cases Hw; reflexivity.
Qed.

Lemma parseInt_white w s :
  w ∈ white_space → ParseInt.parseInt (w ++ s) = ParseInt.parseInt s.
Proof.
  intros Hw. unfold ParseInt.parseInt. by rewrite skip_ws_white.
Qed.

End parse_int.

(** X6. [parseInt] reads back an integer from its decimal rendering:
    [parseInt(String(n)) = n] for every integer that a JS number holds
    exactly, up to [2^53] in magnitude, so a month key written by the
    fetcher selects the slot of that month; a white-space character of
    the StrWhiteSpaceChar class in front of the digits, ASCII or not, is
    skipped. *)
Theorem parseInt_of_key (z : Z) :
  safe_integer z = true →
  ParseInt.parseInt (Js.key_of_int z) = Some z
  ∧ ∀ w, w ∈ white_space →
         ParseInt.parseInt (w ++ Js.key_of_int z) = Some z.
Proof.
  intros _. split; [apply parseInt_key|].
  intros w Hw. rewrite parseInt_white by done. apply parseInt_key.
Qed.

(** X6 on the month key of September. *)
Lemma parseInt_of_key_witness :
  ParseInt.parseInt (Js.key_of_int 9) = Some 9
  ∧ ∀ w, w ∈ white_space →
         ParseInt.parseInt (w ++ Js.key_of_int 9) = Some 9.
Proof. apply (parseInt_of_key 9). reflexivity. Defined.

(** ** The median series of the sea-ice chart *)

Section median_series.

Lemma median_step_length md kv :
  length (SeaIceChart.median_step md kv) = length md.
Proof.
  unfold SeaIceChart.median_step. destruct (ParseInt.parseInt kv.1); [|done].
  destruct (_ && _); [|done]. by rewrite length_insert.
Qed.

Lemma foldl_median_length med : ∀ md,
  length (foldl SeaIceChart.median_step md med) = length md.
Proof.
  induction med as [|kv med IH]; intros md; simpl; [done|].
  by rewrite IH, median_step_length.
Qed.

(** A slot of the median series holds what the table's lookup finds for
    the month of the slot. *)
Lemma foldl_median_lookup (med : list (string * float)) : ∀ md (i : nat),
  NoDup med.*1 →
  Forall (λ kv, ∃ n, kv.1 = Js.key_of_int n) med →
  (i < length md)%nat → (i < 12)%nat →
  foldl SeaIceChart.median_step md med !! i
  = match Stats.get med (Js.key_of_int (Z.of_nat i + 1)) with
    | Some v => Some (Some v)
    | None => md !! i
    end.
Proof.
  induction med as [|[k v] med IH]; intros md i Hnd Hkeys Hi Hi12; [done|].
  rewrite fmap_cons in Hnd. apply NoDup_cons in Hnd as [Hk Hnd].
  inversion_clear Hkeys as [|? ? [n Hn] Hrest]. simpl in Hn. subst k.
  simpl foldl. rewrite IH; [|done|done|by rewrite median_step_length|done].
  rewrite get_cons. unfold SeaIceChart.median_step. cbn [fst snd].
  rewrite parseInt_key.
  destruct (String.eqb_spec (Js.key_of_int n) (Js.key_of_int (Z.of_nat i + 1)))
    as [Heq|Hne].
  - apply key_of_int_inj in Heq. subst n.
    rewrite get_None by done.
    replace ((0 <=? Z.of_nat i + 1 - 1) && (Z.of_nat i + 1 - 1 <? 12)) with true
      by (symmetry; apply andb_true_iff; split; [apply Z.leb_le|apply Z.ltb_lt]; lia).
    replace (Z.to_nat (Z.of_nat i + 1 - 1)) with i by lia.
    by rewrite list_lookup_insert_eq.
  - destruct (Stats.get med _); [done|].
    destruct (_ && _) eqn:Hc; [|done].
    apply andb_true_iff in Hc as [H0 H12]. apply Z.leb_le in H0.
    rewrite list_lookup_insert_ne; [done|]. intros Hi'. apply Hne. f_equal. lia.
Qed.

End median_series.

(** X7. For a median table whose keys are month numbers written in
    decimal, each once, the median series of the chart holds at the slot
    of month m (1..12) exactly the entry the KPI looks up for month m, and
    an absent slot when there is none: the KPI subtracts the value the
    chart draws. *)
Theorem median_series_matches_lookup (med : list (string * float)) (m : Z) :
  NoDup med.*1 →
  Forall (λ kv, ∃ n, kv.1 = Js.key_of_int n) med →
  1 ≤ m ≤ 12 →
  SeaIceChart.medianBucket med !! Z.to_nat (m - 1)
  = Some (Stats.get med (Js.key_of_int m))
  ∧ ∀ latest, ice_month latest = m →
      Stats.ice_diff (Some med) latest
      = match SeaIceChart.medianBucket med !! Z.to_nat (m - 1) with
        | Some (Some v) =>
            if Js.truthy_num v then (extent latest - v)%float else 0%float
        | _ => 0%float
        end.
Proof.
  intros Hnd Hkeys Hm.
  assert (SeaIceChart.medianBucket med !! Z.to_nat (m - 1)
          = Some (Stats.get med (Js.key_of_int m))) as Hslot.
  { unfold SeaIceChart.medianBucket.
    rewrite foldl_median_lookup; [|done|done|simpl; lia|lia].
    replace (Z.of_nat (Z.to_nat (m - 1)) + 1) with m by lia.
    destruct (Stats.get med (Js.key_of_int m)); [done|].
    apply lookup_replicate_2. lia. }
  split; [done|]. intros latest Hl. rewrite Hslot. unfold Stats.ice_diff.
  rewrite Hl. by destruct (Stats.get med (Js.key_of_int m)).
Qed.

(** X7 on a table with entries for March and September. *)
Lemma median_series_matches_lookup_witness :
  SeaIceChart.medianBucket Fixture.two_medians !! Z.to_nat (9 - 1)
  = Some (Stats.get Fixture.two_medians (Js.key_of_int 9))
  ∧ ∀ latest, ice_month latest = 9 →
      Stats.ice_diff (Some Fixture.two_medians) latest
      = match SeaIceChart.medianBucket Fixture.two_medians !! Z.to_nat (9 - 1) with
        | Some (Some v) =>
            if Js.truthy_num v then (extent latest - v)%float else 0%float
        | _ => 0%float
        end.
Proof.
  apply (median_series_matches_lookup Fixture.two_medians 9).
  - apply (bool_decide_unpack _). by vm_compute.
  - repeat constructor; [by exists 3|by exists 9].
  - lia.
Defined.

(** X8. The median series always has twelve slots, and a key of the
    median table that [parseInt] does not read as a number from 1 to 12
    (["0"], ["13"], ["abc"]) changes nothing in it. *)
Theorem median_key_out_of_range (l1 l2 : list (string * float)) k v :
  (∀ n, ParseInt.parseInt k = Some n → ¬ 1 ≤ n ≤ 12) →
  length (SeaIceChart.medianBucket (l1 ++ (k, v) :: l2)) = 12%nat
  ∧ SeaIceChart.medianBucket (l1 ++ (k, v) :: l2)
    = SeaIceChart.medianBucket (l1 ++ l2).
Proof.
  intros Hk. unfold SeaIceChart.medianBucket. split.
  - by rewrite foldl_median_length.
  - rewrite !foldl_app. cbn [foldl]. f_equal.
    unfold SeaIceChart.median_step. cbn [fst snd].
    destruct (ParseInt.parseInt k) as [n|]; [|done].
    specialize (Hk n eq_refl).
    destruct (Z.leb_spec 0 (n - 1)), (Z.ltb_spec (n - 1) 12); simpl; try done.
    lia.
Qed.

(** X8 on the key ["13"] after the entry for March. *)
Lemma median_key_out_of_range_witness :
  length (SeaIceChart.medianBucket ([("3", 15.5%float)] ++ ("13", 1%float) :: []))
  = 12%nat
  ∧ SeaIceChart.medianBucket ([("3", 15.5%float)] ++ ("13", 1%float) :: [])
    = SeaIceChart.medianBucket ([("3", 15.5%float)] ++ []).
Proof.
  apply (median_key_out_of_range [("3", 15.5%float)] [] "13" 1%float).
  intros n Hn. vm_compute in Hn. injection Hn as <-. lia.
Defined.

(** ** Stroke styles and colours of the line charts *)

Section styles.

Lemma style_last_length {A} (l : list A) last a b :
  length (style_last l last a b) = length l.
Proof. unfold style_last. by rewrite length_imap. Qed.

Lemma style_last_lookup {A} (l : list A) last a b (i : nat) :
  (i < length l)%nat →
  style_last l last a b !! i
  = Some (if bool_decide (S i = length l) && last then a else b).
Proof.
  intros Hi. unfold style_last. rewrite list_lookup_imap.
  destruct (lookup_lt_is_Some_2 l i Hi) as [x ->]. simpl. f_equal.
  destruct (Z.eqb_spec (Z.of_nat i) (Z.of_nat (length l) - 1)) as [He|He];
    case_bool_decide; try done; lia.
Qed.

Lemma renderCO2Chart_Some st spec :
  CO2Chart.renderCO2Chart st = Some spec →
  ∃ obs, series spec = CO2Chart.chartSeries 5 obs
         ∧ colors spec = take (length (series spec)) CO2Chart.palette
         ∧ stroke_width spec = style_last (series spec) true 2 3
         ∧ stroke_dashArray spec = style_last (series spec) true 5 0.
Proof.
  unfold CO2Chart.renderCO2Chart.
  destruct (co2Data st) as [[[[|d obs]|] lu]|]; try done.
  intros [= <-]. by exists (d :: obs).
Qed.

End styles.

(** X9. In both line charts there is one stroke width and one dash
    length per series.  In the CO2 chart the last series (the baseline)
    is drawn with width 2 and dash 5, every series before it with width 3
    and no dash.  In the sea-ice chart the same holds when the document
    has a median table; without one, every series, the last included, has
    width 3 and no dash. *)
Theorem reference_series_stroke (st : State) :
  (∀ spec, CO2Chart.renderCO2Chart st = Some spec →
     length (stroke_width spec) = length (series spec)
     ∧ length (stroke_dashArray spec) = length (series spec)
     ∧ ∀ i : nat, (i < length (series spec))%nat →
         stroke_width spec !! i
         = Some (if bool_decide (S i = length (series spec)) then 2 else 3)
         ∧ stroke_dashArray spec !! i
           = Some (if bool_decide (S i = length (series spec)) then 5 else 0))
  ∧ (∀ spec, SeaIceChart.renderSeaIceChart st = Some spec →
       length (stroke_width spec) = length (series spec)
       ∧ length (stroke_dashArray spec) = length (series spec)
       ∧ ∀ i : nat, (i < length (series spec))%nat →
           let reference :=
             bool_decide (S i = length (series spec))
             && bool_decide (is_Some (seaIceData st ≫= median)) in
           stroke_width spec !! i = Some (if reference then 2 else 3)
           ∧ stroke_dashArray spec !! i = Some (if reference then 5 else 0)).
Proof.
  split.
  - intros spec (obs & _ & _ & -> & ->)%renderCO2Chart_Some.
    rewrite !style_last_length. split_and!; [done..|]. intros i Hi.
    rewrite !style_last_lookup by done. by rewrite andb_true_r.
  - intros spec. unfold SeaIceChart.renderSeaIceChart.
    destruct (seaIceData st) as [[[d|] med lu]|]; try done.
    intros [= <-]. cbn [series stroke_width stroke_dashArray mbind option_bind
                        median].
    rewrite !style_last_length. split_and!; [done..|]. intros i Hi.
    by rewrite !style_last_lookup.
Qed.

Section colours.

Lemma ice_years_length K d : (length (SeaIce.years K d) ≤ K)%nat.
Proof. unfold SeaIce.years. rewrite length_take. lia. Qed.

Lemma ice_yearSeries_length K d :
  length (SeaIce.yearSeries K d) = length (SeaIce.years K d).
Proof. unfold SeaIce.yearSeries. by rewrite length_fmap. Qed.

Lemma palette_grey (n : nat) :
  (n ≤ 5)%nat → CO2Chart.palette !! n = Some "#9ca3af" ↔ n = 5%nat.
Proof.
  intros Hn.
  destruct n as [|[|[|[|[|[|n]]]]]]; try lia; vm_compute; split; done.
Qed.

End colours.

(** X10. Each series of a line chart has a colour.  In the CO2 chart the
    series at position [i] takes the [i]-th colour of the palette, so the
    baseline (the last series) is grey exactly when five year series come
    before it: with fewer than five distinct years in the document it is
    drawn in one of the orange tones meant for the years.  In the sea-ice
    chart the median series, when the document has a median table, is
    grey however many years the document has, and the year series take
    the cyan gradient in order. *)
Theorem reference_series_colour (st : State) :
  (∀ spec, CO2Chart.renderCO2Chart st = Some spec →
     length (colors spec) = length (series spec)
     ∧ (∀ i : nat, (i < length (series spec))%nat →
          colors spec !! i = CO2Chart.palette !! i)
     ∧ ∀ n : nat, length (series spec) = S n →
         colors spec !! n = Some "#9ca3af" ↔ n = 5%nat)
  ∧ (∀ spec, SeaIceChart.renderSeaIceChart st = Some spec →
       length (colors spec) = length (series spec)
       ∧ (∀ n : nat, is_Some (seaIceData st ≫= median) →
            length (series spec) = S n →
            colors spec !! n = Some "#9ca3af")
       ∧ ∀ (i : nat) s, series spec !! i = Some s →
           name s ≠ SeaIceChart.median_name →
           colors spec !! i = SeaIceChart.gradientColors !! i).
Proof.
  split.
  - intros spec (obs & Hs & -> & _)%renderCO2Chart_Some.
    assert (length (series spec) ≤ 6)%nat as Hlen.
    { rewrite Hs. unfold CO2Chart.chartSeries.
      rewrite length_app. pose proof (co2_yearSeries_length 5 obs).
      simpl. lia. }
    split_and!.
    + rewrite length_take. change (length CO2Chart.palette) with 6%nat. lia.
    + intros i Hi. by rewrite lookup_take_lt.
    + intros n Hn. rewrite lookup_take_lt by lia. apply palette_grey. lia.
  - intros spec. unfold SeaIceChart.renderSeaIceChart.
    destruct (seaIceData st) as [[[d|] med lu]|]; try done.
    intros [= <-]. cbn [series colors mbind option_bind median].
    pose proof (ice_years_length 5 d) as Hy.
    assert (length (take (length (SeaIce.years 5 d))
                      SeaIceChart.gradientColors)
            = length (SeaIce.years 5 d)) as Ht.
    { rewrite length_take. change (length SeaIceChart.gradientColors) with 5%nat.
      lia. }
    unfold SeaIceChart.chartSeries. split_and!.
    + rewrite !length_app, Ht, ice_yearSeries_length. by destruct med.
    + intros n [m ->]. rewrite length_app, ice_yearSeries_length.
      simpl. intros Hn.
      rewrite lookup_app_r by lia.
      by replace (n - _)%nat with 0%nat by lia.
    + intros i s Hi Hname.
      apply lookup_app_Some in Hi as [Hi|[Hge Hi]].
      * apply lookup_lt_Some in Hi. rewrite ice_yearSeries_length in Hi.
        rewrite lookup_app_l by lia. by rewrite lookup_take_lt.
      * destruct med as [m|]; [|done].
        apply list_lookup_singleton_Some in Hi as [_ <-]. done.
Qed.

(** ** The labels of the temperature chart *)

Section labels.

Lemma split_by_nonnil sep s : Str.split_by sep s ≠ [].
Proof.
  destruct s as [|a r]; simpl; [done|].
  destruct (sep a); [done|]. by destruct (Str.split_by sep r).
Qed.

Lemma split_by_free sep s :
  Str.free_of sep s = true → Str.split_by sep s = [s].
Proof.
  induction s as [|a r IH]; simpl; [done|].
  intros [Ha Hr]%andb_true_iff. apply negb_true_iff in Ha.
  by rewrite Ha, IH.
Qed.

Lemma split_by_app sep a c b :
  Str.free_of sep a = true → sep c = true →
  Str.split_by sep (a ++ String c b) = a :: Str.split_by sep b.
Proof.
  intros Ha Hc. induction a as [|x a IH].
  - change ("" ++ String c b) with (String c b). simpl. by rewrite Hc.
  - simpl in Ha. apply andb_true_iff in Ha as [Hx Ha].
    apply negb_true_iff in Hx.
    change (String x a ++ String c b) with (String x (a ++ String c b)).
    simpl. by rewrite Hx, IH.
Qed.

Lemma digits_free_of_dash s :
  all_digits s = true → Str.free_of (Ascii.eqb "-") s = true.
Proof.
  induction s as [|c s IH]; cbn [all_digits Str.free_of]; [done|].
  intros [Hc Hs]%andb_true_iff. rewrite IH by done.
  rewrite andb_true_r. apply negb_true_iff, Ascii.eqb_neq.
  intros <-. by vm_compute in Hc.
Qed.

Lemma key_nonneg z :
  0 ≤ z → all_digits (Js.key_of_int z) = true ∧ Js.key_of_int z ≠ "".
Proof.
  intros Hz. destruct z as [|p|p]; [done| |lia].
  unfold Js.key_of_int. cbn [Z.to_int NilZero.string_of_int].
  pose proof (DecimalPos.Unsigned.to_uint_nonnil p) as Hn.
  rewrite uint_string_nonnil by done. split.
  - apply NilEmpty_all_digits.
  - by destruct (Pos.to_uint p).
Qed.

Lemma key_neg z :
  z < 0 → Js.key_of_int z = String "-" (Js.key_of_int (- z)).
Proof. intros Hz. by destruct z as [|p|p]; [lia..|]. Qed.

Lemma key_length_2 z : z < 0 → (2 ≤ String.length (Js.key_of_int z))%nat.
Proof.
  intros Hz. rewrite key_neg by done.
  destruct (key_nonneg (- z)) as [_ Hne]; [lia|].
  destruct (Js.key_of_int (- z)); [done|]. simpl. lia.
Qed.

Lemma padStart2_long s : (2 ≤ String.length s)%nat → Str.padStart2 s = s.
Proof.
  intros Hs. unfold Str.padStart2.
  by replace (2 - String.length s)%nat with 0%nat by lia.
Qed.

Lemma digit_cases c :
  is_digit c = true →
  ∃ n, 0 ≤ n ≤ 9 ∧ String c "" = Js.key_of_int n.
Proof.
  intros Hc.
  destruct c as [[] [] [] [] [] [] [] []]; try (by vm_compute in Hc).
  all: first
    [ exists 0; split; [lia|reflexivity] | exists 1; split; [lia|reflexivity]
    | exists 2; split; [lia|reflexivity] | exists 3; split; [lia|reflexivity]
    | exists 4; split; [lia|reflexivity] | exists 5; split; [lia|reflexivity]
    | exists 6; split; [lia|reflexivity] | exists 7; split; [lia|reflexivity]
    | exists 8; split; [lia|reflexivity] | exists 9; split; [lia|reflexivity] ].
Qed.

Lemma key_one_char z :
  String.length (Js.key_of_int z) = 1%nat → 0 ≤ z ≤ 9.
Proof.
  intros Hl. destruct (Z.lt_ge_cases z 0) as [Hz|Hz].
  { pose proof (key_length_2 z Hz). lia. }
  destruct (key_nonneg z Hz) as [Hd _].
  destruct (Js.key_of_int z) as [|c [|]] eqn:E; try done.
  simpl in Hd. rewrite andb_true_r in Hd.
  destruct (digit_cases c Hd) as (n & Hn & Hk). rewrite Hk in E.
  apply key_of_int_inj in E. lia.
Qed.

(** [parseInt] reads the month back from its two-character form. *)
Lemma parseInt_padStart2 z :
  ParseInt.parseInt (Str.padStart2 (Js.key_of_int z)) = Some z.
Proof.
  destruct (decide (2 ≤ String.length (Js.key_of_int z))%nat) as [Hl|Hl].
  { rewrite padStart2_long by done. apply parseInt_key. }
  destruct (Z.lt_ge_cases z 0) as [Hz|Hz].
  { pose proof (key_length_2 z Hz). lia. }
  destruct (key_nonneg z Hz) as [_ Hne].
  assert (String.length (Js.key_of_int z) = 1%nat) as H1.
  { destruct (Js.key_of_int z) as [|c [|]]; simpl in *; try done; lia. }
  pose proof (key_one_char z H1) as Hr.
  assert (z = 0 ∨ z = 1 ∨ z = 2 ∨ z = 3 ∨ z = 4 ∨ z = 5 ∨ z = 6 ∨ z = 7
          ∨ z = 8 ∨ z = 9) as Hc by lia.
  by destruct_or!; subst z.
Qed.

Lemma padStart2_01 z : Str.padStart2 (Js.key_of_int z) = "01" ↔ z = 1.
Proof.
  split; [|by intros ->].
  intros H. pose proof (parseInt_padStart2 z) as Hp. rewrite H in Hp.
  by injection Hp.
Qed.

Lemma padStart2_digits z :
  0 ≤ z → all_digits (Str.padStart2 (Js.key_of_int z)) = true.
Proof.
  intros Hz. unfold Str.padStart2.
  rewrite all_digits_app, all_digits_zeros. by apply key_nonneg.
Qed.

(** The pieces of a label at its dashes. *)
Lemma split_label d :
  Str.split_dash (TempChart.label d)
  = if 0 <=? temp_year d
    then Js.key_of_int (temp_year d)
         :: (if 0 <=? temp_month d
             then [Str.padStart2 (Js.key_of_int (temp_month d))]
             else [""; Js.key_of_int (- temp_month d)])
    else "" :: Js.key_of_int (- temp_year d)
         :: (if 0 <=? temp_month d
             then [Str.padStart2 (Js.key_of_int (temp_month d))]
             else [""; Js.key_of_int (- temp_month d)]).
Proof.
  unfold Str.split_dash, TempChart.label.
  set (y := temp_year d). set (m := temp_month d).
  assert (Str.split_by (Ascii.eqb "-") (Str.padStart2 (Js.key_of_int m))
          = if 0 <=? m then [Str.padStart2 (Js.key_of_int m)]
            else [""; Js.key_of_int (- m)]) as Hm.
  { destruct (Z.leb_spec 0 m) as [Hm|Hm].
    - apply split_by_free, digits_free_of_dash. by apply padStart2_digits.
    - rewrite padStart2_long by (by apply key_length_2).
      rewrite key_neg by done.
      change (String "-" ?s) with ("" ++ String "-" s).
      rewrite split_by_app by done.
      rewrite split_by_free; [done|].
      apply digits_free_of_dash, key_nonneg. lia. }
  assert (∀ z r, 0 ≤ z →
            Str.split_by (Ascii.eqb "-") (Js.key_of_int z ++ "-" ++ r)
            = Js.key_of_int z :: Str.split_by (Ascii.eqb "-") r) as Hy.
  { intros z r Hz. change ("-" ++ r) with (String "-" r).
    apply split_by_app; [|done].
    apply digits_free_of_dash. by apply key_nonneg. }
  destruct (Z.leb_spec 0 y) as [Hy0|Hy0].
  - by rewrite Hy, Hm.
  - rewrite (key_neg y) by done.
    change (String "-" ?s ++ ?r) with ("" ++ String "-" (s ++ r)).
    rewrite split_by_app by done. rewrite Hy by lia. by rewrite Hm.
Qed.

End labels.

(** X11. The x-axis of the temperature chart prints a tick label only at
    the January bars, and there the year: on the label of an observation
    the axis formatter returns the year when the month is 1 and the year
    is not negative, and the empty string in every other case. *)
Theorem axis_shows_year_at_january (d : TempObs) :
  TempChart.axis_label (TempChart.label d)
  = if (0 <=? temp_year d) && (temp_month d =? 1)
    then Js.key_of_int (temp_year d) else "".
Proof.
  unfold TempChart.axis_label.
  assert (Js.truthy_str (TempChart.label d) = true) as ->.
  { unfold TempChart.label.
    destruct (Js.key_of_int (temp_year d)); done. }
  rewrite split_label.
  destruct (Z.leb_spec 0 (temp_year d)) as [Hy|Hy]; cbn [andb].
  - destruct (Z.leb_spec 0 (temp_month d)) as [Hm|Hm].
    + destruct (String.eqb_spec
                  (Str.padStart2 (Js.key_of_int (temp_month d))) "01")
        as [E|E].
      * apply padStart2_01 in E. by rewrite E.
      * destruct (Z.eqb_spec (temp_month d) 1) as [E'|E']; [|done].
        by apply padStart2_01 in E'.
    + destruct (Z.eqb_spec (temp_month d) 1); [lia|done].
  - by destruct (_ =? _)%string.
Qed.

(** X12. The tooltip of the temperature chart names the bar's month and
    year: on the label of an observation with a year that is not negative
    the x formatter returns the month name, a space and the year, which
    is the date text of the temperature tile without its bullet.  For a
    negative year the leading minus sign is taken for the separator, and
    the formatter shows the month name of the year's magnitude and no
    year. *)
Theorem tooltip_names_month_and_year (d : TempObs) :
  TempChart.tooltip_x (TempChart.label d)
  = if 0 <=? temp_year d
    then getMonthName (temp_month d) ++ " " ++ Js.key_of_int (temp_year d)
    else getMonthName (- temp_year d) ++ " ".
Proof.
  unfold TempChart.tooltip_x. rewrite split_label.
  destruct (Z.leb_spec 0 (temp_year d)) as [Hy|Hy].
  - destruct (Z.leb_spec 0 (temp_month d)) as [Hm|Hm];
      cbn [lookup list_lookup default]; simpl; unfold TempChart.month_of_piece;
      cbn [mbind option_bind].
    + by rewrite parseInt_padStart2.
    + change (ParseInt.parseInt "") with (@None Z).
      unfold getMonthName.
      by replace (1 <=? temp_month d) with false
        by (symmetry; apply Z.leb_gt; lia).
  - destruct (0 <=? temp_month d); simpl; unfold TempChart.month_of_piece;
      cbn [mbind option_bind]; by rewrite parseInt_key.
Qed.

(** X13. A bar's label determines its observation's year and month: two
    observations get the same label only when they agree on both, for all
    integers, negative ones included. *)
Theorem label_determines_year_and_month (d d' : TempObs) :
  TempChart.label d = TempChart.label d' →
  temp_year d = temp_year d' ∧ temp_month d = temp_month d'.
Proof.
  intros H. apply (f_equal Str.split_dash) in H. rewrite !split_label in H.
  assert (∀ z, 0 ≤ z → Js.key_of_int z ≠ "") as Hne
    by (intros z Hz; by apply key_nonneg).
  assert (∀ z z', Str.padStart2 (Js.key_of_int z)
                  = Str.padStart2 (Js.key_of_int z') → z = z') as Hpad.
  { intros z z' E. pose proof (parseInt_padStart2 z) as Hz.
    rewrite E, parseInt_padStart2 in Hz. by injection Hz. }
  destruct (Z.leb_spec 0 (temp_year d)) as [Hy|Hy],
           (Z.leb_spec 0 (temp_year d')) as [Hy'|Hy'],
           (Z.leb_spec 0 (temp_month d)) as [Hm|Hm],
           (Z.leb_spec 0 (temp_month d')) as [Hm'|Hm'];
    simplify_eq;
    repeat match goal with
    | E : Js.key_of_int _ = Js.key_of_int _ |- _ =>
        apply key_of_int_inj in E
    | E : Str.padStart2 _ = Str.padStart2 _ |- _ => apply Hpad in E
    | E : Js.key_of_int ?z = "" |- _ => apply Hne in E; [done|lia]
    | E : "" = Js.key_of_int ?z |- _ => symmetry in E; apply Hne in E; [done|lia]
    end; try (split; lia).
Qed.

(** X13 on two observations of May 2024. *)
Lemma label_determines_year_and_month_witness :
  temp_year (Fixture.temp 2024 5 1.25) = temp_year (Fixture.temp 2024 5 0.5)
  ∧ temp_month (Fixture.temp 2024 5 1.25)
    = temp_month (Fixture.temp 2024 5 0.5).
Proof.
  apply (label_determines_year_and_month
           (Fixture.temp 2024 5 1.25) (Fixture.temp 2024 5 0.5)).
  reflexivity.
Defined.

Section window.

Lemma slice_last_length {A} n (l : list A) :
  length (TempChart.slice_last n l) = (length l `min` n)%nat.
Proof. unfold TempChart.slice_last. rewrite length_drop. lia. Qed.

Lemma slice_last_lookup {A} n (l : list A) (i : nat) :
  TempChart.slice_last n l !! i = l !! (length l - n + i)%nat.
Proof. unfold TempChart.slice_last. by rewrite lookup_drop. Qed.

Lemma slice_last_last {A} n (l : list A) :
  (0 < n)%nat → last (TempChart.slice_last n l) = last l.
Proof.
  intros Hn. rewrite !last_lookup, slice_last_length, slice_last_lookup.
  destruct l as [|a l]; [done|]. f_equal.
  generalize (length (a :: l)) (length_cons a l). lia.
Qed.

End window.

(** X14. The temperature chart draws the last 360 observations of the
    document (all of them if there are fewer), in document order, one bar
    per observation with the observation's label and anomaly; its last
    bar is the observation whose anomaly the temperature tile shows. *)
Theorem temperature_bars_are_the_last_360 (obs : list TempObs) :
  let bar d := {| TempChart.x := TempChart.label d;
                  TempChart.y := anomaly d |} in
  length (TempChart.points obs) = (length obs `min` 360)%nat
  ∧ (∀ i : nat,
       TempChart.points obs !! i = bar <$> obs !! (length obs - 360 + i)%nat)
  ∧ last (TempChart.points obs) = bar <$> last obs.
Proof.
  intros bar. unfold TempChart.points. fold bar. split_and!.
  - by rewrite length_fmap, slice_last_length.
  - intros i. by rewrite list_lookup_fmap, slice_last_lookup.
  - rewrite fmap_last, slice_last_last; [done|lia].
Qed.

(** ** What [updateStats] needs of the page *)

Section stat_frame.

Variable toLocaleDateString : string → string.

Local Ltac ids_incl := apply (bool_decide_unpack _); by vm_compute.

Lemma writes_only_refl ids dom : writes_only ids dom dom.
Proof. by split. Qed.

Lemma writes_only_app ids1 ids2 d1 d2 d3 :
  writes_only ids1 d1 d2 → writes_only ids2 d2 d3 →
  writes_only (ids1 ++ ids2)%list d1 d3.
Proof.
  intros [Ha Hb] [Hc Hd]. split.
  - intros j. by rewrite Hc, Ha.
  - intros j Hj. rewrite Hd, Hb; [done|..]; intros Hj'; apply Hj;
      apply elem_of_app; auto.
Qed.

Lemma writes_only_mono ids ids' d1 d2 :
  ids ⊆ ids' → writes_only ids d1 d2 → writes_only ids' d1 d2.
Proof. intros Hs [Ha Hb]. split; [done|]. intros j Hj. apply Hb. auto. Qed.

Lemma if_element_writes id (f : Element → result Element) dom :
  (∀ el, ∃ el', f el = Ok el') →
  ∃ dom', if_element id f dom = Ok dom' ∧ writes_only [id] dom dom'.
Proof.
  intros Hf. unfold if_element. destruct (dom !! id) as [el|] eqn:E.
  - destruct (Hf el) as [el' ->]. eexists. split; [done|]. split.
    + intros j. destruct (decide (j = id)) as [->|Hj].
      * by rewrite lookup_insert_eq, E.
      * by rewrite lookup_insert_ne.
    + intros j Hj. rewrite lookup_insert_ne; [done|]. intros ->. apply Hj. by left.
  - exists dom. split; [done|]. apply writes_only_refl.
Qed.

Lemma element_writes id (f : Element → result Element) dom :
  (∀ el, ∃ el', f el = Ok el') → is_Some (dom !! id) →
  ∃ dom', element id f dom = Ok dom' ∧ writes_only [id] dom dom'.
Proof.
  intros Hf [el E].
  destruct (if_element_writes id f dom Hf) as (dom' & H & Hw).
  exists dom'. split; [|done]. unfold element, if_element in *.
  by rewrite E in *.
Qed.

Lemma element_missing id (f : Element → result Element) dom :
  dom !! id = None → element id f dom = Raise TypeError.
Proof. intros E. unfold element. by rewrite E. Qed.

Lemma set_text_ok (k : Element → Element) :
  ∀ el, ∃ el', (λ el, @Ok Element (k el)) el = Ok el'.
Proof. intros el. by eexists. Qed.

Lemma co2Stats_writes st dom :
  ∃ dom', Stats.co2Stats st dom = Ok dom'
          ∧ writes_only ["co2-date"; "co2-kpi"; "co2-absolute"] dom dom'.
Proof.
  unfold Stats.co2Stats.
  destruct (co2Data st) as [[[obs|] lu]|];
    try (exists dom; split; [done|apply writes_only_refl]).
  destruct (Stats.latestCO2 obs) as [latest|];
    [|exists dom; split; [done|apply writes_only_refl]].
  edestruct (if_element_writes "co2-date") as (d1 & -> & H1);
    [apply set_text_ok|].
  rewrite result_bind_ok. cbv zeta.
  edestruct (if_element_writes "co2-kpi") as (d2 & -> & H2).
  { intros el. apply signed_text_ok. intros t. by eexists. }
  rewrite result_bind_ok.
  edestruct (if_element_writes "co2-absolute") as (d3 & -> & H3).
  { intros el. apply formatNumber_ok. intros t. by eexists. }
  exists d3. split; [done|].
  exact (writes_only_app _ _ _ _ _ (writes_only_app _ _ _ _ _ H1 H2) H3).
Qed.

Lemma iceStats_writes st dom :
  ∃ dom', Stats.iceStats st dom = Ok dom'
          ∧ writes_only ["ice-date"; "ice-kpi"; "ice-absolute"] dom dom'.
Proof.
  unfold Stats.iceStats.
  destruct (seaIceData st) as [[[d|] med lu]|];
    try (exists dom; split; [done|apply writes_only_refl]).
  destruct (Stats.ice_latest d) as [[y latest]|];
    [|exists dom; split; [done|apply writes_only_refl]].
  edestruct (if_element_writes "ice-date") as (d1 & -> & H1);
    [apply set_text_ok|].
  rewrite result_bind_ok. cbv zeta.
  edestruct (if_element_writes "ice-kpi") as (d2 & -> & H2).
  { intros el. apply signed_text_ok. intros t. by eexists. }
  rewrite result_bind_ok.
  edestruct (if_element_writes "ice-absolute") as (d3 & -> & H3).
  { intros el. apply formatNumber_ok. intros t. by eexists. }
  exists d3. split; [done|].
  exact (writes_only_app _ _ _ _ _ (writes_only_app _ _ _ _ _ H1 H2) H3).
Qed.

(** The temperature block completes exactly when the elements it writes
    to without a guard are there. *)
Lemma tempStats_writes st dom :
  match temp_block st with
  | Some (_, b) =>
      if bool_decide (is_Some (dom !! "current-temp"))
         && (bool_decide (is_Some (dom !! "temp-baseline"))
             || bool_decide (Stats.truthy_stamp b = None))
      then ∃ dom', Stats.tempStats st dom = Ok dom'
                   ∧ writes_only ["current-temp"; "temp-date"; "temp-baseline"]
                                 dom dom'
      else Stats.tempStats st dom = Raise TypeError
  | None => Stats.tempStats st dom = Ok dom
  end.
Proof.
  unfold temp_block, Stats.tempStats.
  destruct (temperatureData st) as [[[obs|] b lu]|]; try done.
  destruct (last obs) as [latest|]; [|done]. cbn [fmap option_fmap option_map].
  case_bool_decide as Hc; cbn [andb]; cycle 1.
  { rewrite element_missing; [done|]. by apply eq_None_not_Some. }
  edestruct (element_writes "current-temp") as (d1 & -> & H1); [|exact Hc|].
  { intros el. apply signed_text_ok. intros t. by eexists. }
  rewrite result_bind_ok.
  edestruct (if_element_writes "temp-date") as (d2 & -> & H2);
    [apply set_text_ok|].
  rewrite result_bind_ok.
  assert (writes_only ["current-temp"; "temp-date"; "temp-baseline"] dom d2)
    as H12.
  { eapply writes_only_mono; [|exact (writes_only_app _ _ _ _ _ H1 H2)].
    ids_incl. }
  assert (is_Some (d2 !! "temp-baseline") ↔ is_Some (dom !! "temp-baseline"))
    as Hb by apply H12.
  unfold Stats.truthy_stamp.
  destruct b as [s|]; cycle 1.
  { rewrite (bool_decide_true (None = None)), orb_true_r by done.
    by exists d2. }
  destruct (Js.truthy_str s) eqn:Es; cycle 1.
  { rewrite (bool_decide_true (None = None)), orb_true_r by done.
    by exists d2. }
  rewrite (bool_decide_false (Some s = None)), orb_false_r by done.
  case_bool_decide as Hd.
  - edestruct (element_writes "temp-baseline") as (d3 & -> & H3);
      [apply set_text_ok|by apply Hb|].
    exists d3. split; [done|].
    eapply writes_only_mono; [|exact (writes_only_app _ _ _ _ _ H12 H3)].
    ids_incl.
  - apply element_missing, eq_None_not_Some. by rewrite Hb.
Qed.

Lemma updatedStats_writes st dom :
  match Stats.upd st with
  | Some _ =>
      if bool_decide (is_Some (dom !! "last-updated"))
      then ∃ dom', Stats.updatedStats toLocaleDateString st dom = Ok dom'
                   ∧ writes_only ["last-updated"] dom dom'
      else Stats.updatedStats toLocaleDateString st dom = Raise TypeError
  | None => Stats.updatedStats toLocaleDateString st dom = Ok dom
  end.
Proof.
  unfold Stats.updatedStats. destruct (Stats.upd st) as [t|]; [|done].
  case_bool_decide as Hc.
  - by apply element_writes; [apply set_text_ok|].
  - by apply element_missing, eq_None_not_Some.
Qed.

Lemma unguarded_Forall st (dom : Document) :
  Forall (λ id, is_Some (dom !! id)) (unguarded st)
  ↔ match temp_block st with
    | Some (_, b) =>
        is_Some (dom !! "current-temp")
        ∧ (Stats.truthy_stamp b = None ∨ is_Some (dom !! "temp-baseline"))
    | None => True
    end
    ∧ match Stats.upd st with
      | Some _ => is_Some (dom !! "last-updated")
      | None => True
      end.
Proof.
  unfold unguarded. rewrite Forall_app.
  destruct (temp_block st) as [[l b]|], (Stats.upd st);
    try destruct (Stats.truthy_stamp b);
    rewrite ?Forall_cons, ?Forall_singleton, ?Forall_nil;
    intuition (auto; congruence).
Qed.

(** [updateStats] as a whole. *)
Lemma updateStats_cases st dom :
  Forall (λ id, is_Some (dom !! id)) (unguarded st)
  ∧ (∃ dom', Stats.updateStats toLocaleDateString st dom = Ok dom'
             ∧ writes_only stat_ids dom dom')
  ∨ ¬ Forall (λ id, is_Some (dom !! id)) (unguarded st)
    ∧ Stats.updateStats toLocaleDateString st dom = Raise TypeError.
Proof.
  rewrite (unguarded_Forall st dom).
  unfold Stats.updateStats.
  destruct (co2Stats_writes st dom) as (d1 & -> & H1). rewrite result_bind_ok.
  pose proof (tempStats_writes st d1) as Ht.
  assert (∀ j, is_Some (d1 !! j) ↔ is_Some (dom !! j)) as Hk1 by apply H1.
  assert (∃ d2,
    match temp_block st with
    | Some (_, b) =>
        is_Some (dom !! "current-temp")
        ∧ (Stats.truthy_stamp b = None ∨ is_Some (dom !! "temp-baseline"))
    | None => True
    end
    ∧ Stats.tempStats st d1 = Ok d2
    ∧ writes_only ["co2-date"; "co2-kpi"; "co2-absolute";
                   "current-temp"; "temp-date"; "temp-baseline"] dom d2
    ∨ ¬ match temp_block st with
        | Some (_, b) =>
            is_Some (dom !! "current-temp")
            ∧ (Stats.truthy_stamp b = None ∨ is_Some (dom !! "temp-baseline"))
        | None => True
        end
      ∧ Stats.tempStats st d1 = Raise TypeError) as [d2 Hcase].
  { destruct (temp_block st) as [[latest b]|].
    - rewrite !(bool_decide_ext _ _ (Hk1 _)) in Ht.
      destruct (bool_decide (is_Some (dom !! "current-temp"))
                && (bool_decide (is_Some (dom !! "temp-baseline"))
                    || bool_decide (Stats.truthy_stamp b = None))) eqn:E.
      + destruct Ht as (d2 & Ht & H2). exists d2. left.
        apply andb_true_iff in E as [Ec E]. apply bool_decide_eq_true in Ec.
        apply orb_true_iff in E as [E|E]; apply bool_decide_eq_true in E;
          (split_and!; [done|auto|done|]);
          exact (writes_only_app _ _ _ _ _ H1 H2).
      + exists d1. right. split; [|done]. intros [Hc Hb].
        apply andb_false_iff in E as [E|E].
        * by apply bool_decide_eq_false in E.
        * apply orb_false_iff in E as [E1 E2].
          apply bool_decide_eq_false in E1, E2. by destruct Hb.
    - exists d1. left. split_and!; [done..|].
      eapply writes_only_mono; [|exact H1]. ids_incl. }
  destruct Hcase as [(Hneed & -> & H12)|[Hneed ->]]; cycle 1.
  { right. split; [|done]. by intros [? _]. }
  rewrite result_bind_ok.
  destruct (iceStats_writes st d2) as (d3 & -> & H3). rewrite result_bind_ok.
  pose proof (writes_only_app _ _ _ _ _ H12 H3) as H123.
  pose proof (updatedStats_writes st d3) as Hu.
  assert (is_Some (d3 !! "last-updated") ↔ is_Some (dom !! "last-updated"))
    as Hk by apply H123.
  rewrite (bool_decide_ext _ _ Hk) in Hu.
  destruct (Stats.upd st) as [t|].
  - case_bool_decide as Hl.
    + left. split; [done|].
      destruct Hu as (d4 & -> & H4). exists d4. split; [done|].
      exact (writes_only_app _ _ _ _ _ H123 H4).
    + right. split; [|done]. by intros [_ ?].
  - left. split; [done|]. rewrite Hu. exists d3. split; [done|].
    eapply writes_only_mono; [|exact H123]. ids_incl.
Qed.

End stat_frame.

(** X15. [updateStats] completes exactly when the page has the elements
    it writes to without a guard: [current-temp] when the temperature
    document has observations, [temp-baseline] when that document also
    has a non-empty baseline text, and [last-updated] when one of the
    documents has a non-empty time stamp.  When one of them is missing it
    raises a [TypeError]; it raises nothing else, and the CO2 and sea-ice
    tiles never make it fail. *)
Theorem updateStats_completes_iff_unguarded_present
    (toLocaleDateString : string → string) (st : State) (dom : Document) :
  ((∃ dom', Stats.updateStats toLocaleDateString st dom = Ok dom')
   ↔ Forall (λ id, is_Some (dom !! id)) (unguarded st))
  ∧ (Stats.updateStats toLocaleDateString st dom = Raise TypeError
     ↔ ∃ id, id ∈ unguarded st ∧ dom !! id = None)
  ∧ Stats.updateStats toLocaleDateString st dom ≠ Raise RangeError
  ∧ (∃ dom', Stats.co2Stats st dom = Ok dom')
  ∧ ∃ dom', Stats.iceStats st dom = Ok dom'.
Proof.
  assert (¬ Forall (λ id, is_Some (dom !! id)) (unguarded st)
          ↔ ∃ id, id ∈ unguarded st ∧ dom !! id = None) as Hex.
  { rewrite <- Exists_Forall_neg by (intros id; destruct (dom !! id); eauto).
    rewrite Exists_exists. by setoid_rewrite eq_None_not_Some. }
  split_and!.
  - destruct (updateStats_cases toLocaleDateString st dom)
      as [[HF (dom' & -> & _)]|[HF ->]].
    + split; [done|]. by exists dom'.
    + split; [by intros [? ?]|done].
  - rewrite <- Hex.
    destruct (updateStats_cases toLocaleDateString st dom)
      as [[HF (dom' & -> & _)]|[HF ->]]; split; done.
  - by destruct (updateStats_cases toLocaleDateString st dom)
      as [[HF (dom' & -> & _)]|[HF ->]].
  - destruct (co2Stats_writes st dom) as (dom' & ? & _). by exists dom'.
  - destruct (iceStats_writes st dom) as (dom' & ? & _). by exists dom'.
Qed.

(** X16. When [updateStats] completes, the page has the same elements as
    before, and every element other than the ten tile elements
    ([co2-date], [co2-kpi], [co2-absolute], [current-temp], [temp-date],
    [temp-baseline], [ice-date], [ice-kpi], [ice-absolute] and
    [last-updated]) has the text, class and markup it had. *)
Theorem updateStats_changes_only_tiles
    (toLocaleDateString : string → string) (st : State) (dom dom' : Document) :
  Stats.updateStats toLocaleDateString st dom = Ok dom' →
  (∀ id, is_Some (dom' !! id) ↔ is_Some (dom !! id))
  ∧ ∀ id, id ∉ stat_ids → dom' !! id = dom !! id.
Proof.
  intros H.
  destruct (updateStats_cases toLocaleDateString st dom)
    as [[_ (d & Hd & Hw)]|[_ Hr]]; [|by rewrite Hr in H].
  rewrite Hd in H. by injection H as <-.
Qed.

(** X16 on a page with a heading and a document with one observation. *)
Lemma updateStats_changes_only_tiles_witness :
  ∃ dom',
    Stats.updateStats (λ s, s)
      (Fixture.temp_state [Fixture.temp 2024 5 1.25] (Some "1951-1980"))
      Fixture.temp_page = Ok dom'
    ∧ (∀ id, is_Some (dom' !! id) ↔ is_Some (Fixture.temp_page !! id))
    ∧ ∀ id, id ∉ stat_ids → dom' !! id = Fixture.temp_page !! id.
Proof.
  eexists. split; [vm_compute; reflexivity|].
  apply (updateStats_changes_only_tiles (λ s, s)
           (Fixture.temp_state [Fixture.temp 2024 5 1.25] (Some "1951-1980"))
           Fixture.temp_page).
  vm_compute. reflexivity.
Defined.

(** ** Class lists *)

Section class_lists.

Lemma split_by_pieces_free sep s :
  Forall (λ p, Str.free_of sep p = true) (Str.split_by sep s).
Proof.
  induction s as [|a r IH]; simpl; [by repeat constructor|].
  destruct (sep a) eqn:Ea; [by constructor|].
  destruct (Str.split_by sep r) as [|h t]; inversion_clear IH.
  - repeat constructor. simpl. by rewrite Ea.
  - constructor; [|done]. simpl. by rewrite Ea.
Qed.

Lemma split_by_concat ts :
  Forall (λ p, Str.free_of Str.is_space p = true) ts → ts ≠ [] →
  Str.split_by Str.is_space (String.concat " " ts) = ts.
Proof.
  induction 1 as [|x ts Hx Hts IH]; [done|]. intros _.
  destruct ts as [|y ts].
  - by apply split_by_free.
  - change (String.concat " " (x :: y :: ts))
      with (x ++ String " " (String.concat " " (y :: ts))).
    rewrite split_by_app by done. by rewrite IH.
Qed.

Lemma filter_all {A} (p : A → bool) (l : list A) :
  Forall (λ x, p x = true) l → List.filter p l = l.
Proof. induction 1 as [|x l Hx Hl IH]; simpl; [done|]. by rewrite Hx, IH. Qed.

Lemma elem_of_List_filter {A} (p : A → bool) (l : list A) x :
  x ∈ List.filter p l ↔ x ∈ l ∧ p x = true.
Proof. rewrite !list_elem_of_In. apply filter_In. Qed.

Lemma NoDup_List_filter {A} (p : A → bool) (l : list A) :
  NoDup l → NoDup (List.filter p l).
Proof.
  induction 1 as [|x l Hx Hl IH]; simpl; [constructor|].
  destruct (p x); [|done]. constructor; [|done].
  rewrite elem_of_List_filter. tauto.
Qed.

Lemma elem_of_first_occurrences l x :
  x ∈ Str.first_occurrences l ↔ x ∈ l.
Proof.
  induction l as [|y l IH]; simpl; [done|].
  rewrite !elem_of_cons, elem_of_List_filter, IH.
  destruct (String.eqb_spec x y) as [->|Hne]; simpl; [tauto|].
  split; [tauto|]. intros [?|?]; [done|]. by right.
Qed.

Lemma first_occurrences_NoDup l : NoDup (Str.first_occurrences l).
Proof.
  induction l as [|y l IH]; simpl; constructor.
  - rewrite elem_of_List_filter, String.eqb_refl. by intros [_ ?].
  - by apply NoDup_List_filter.
Qed.

Lemma first_occurrences_id l : NoDup l → Str.first_occurrences l = l.
Proof.
  induction 1 as [|x l Hx Hl IH]; simpl; [done|].
  rewrite IH. f_equal. apply filter_all, Forall_forall.
  intros y Hy. apply negb_true_iff, String.eqb_neq. by intros ->.
Qed.

Lemma tokens_valid s :
  Forall (λ t, Str.valid_token t = true) (Str.tokens s) ∧ NoDup (Str.tokens s).
Proof.
  unfold Str.tokens. split; [|apply first_occurrences_NoDup].
  apply Forall_forall. intros t Ht. rewrite elem_of_first_occurrences in Ht.
  apply elem_of_List_filter in Ht as [Ht Hn].
  unfold Str.valid_token. rewrite Hn. simpl.
  by apply (proj1 (Forall_forall _ _) (split_by_pieces_free Str.is_space s)).
Qed.

(** Reading a serialised token set gives the set back. *)
Lemma tokens_serialize ts :
  Forall (λ t, Str.valid_token t = true) ts → NoDup ts →
  Str.tokens (Str.serialize ts) = ts.
Proof.
  intros Hv Hn. unfold Str.tokens, Str.serialize.
  destruct (decide (ts = [])) as [->|Hne]; [done|].
  rewrite split_by_concat; [|by eapply Forall_impl; [exact Hv|];
    intros t [_ ?]%andb_true_iff|done].
  rewrite filter_all; [by apply first_occurrences_id|].
  eapply Forall_impl; [exact Hv|]. by intros t [? _]%andb_true_iff.
Qed.

Lemma tokens_add tok cls :
  Str.valid_token tok = true →
  Str.tokens (Str.classList_add tok cls)
  = if bool_decide (tok ∈ Str.tokens cls) then Str.tokens cls
    else (Str.tokens cls ++ [tok])%list.
Proof.
  intros Hv. unfold Str.classList_add.
  destruct (tokens_valid cls) as [Hf Hn].
  apply tokens_serialize; case_bool_decide as Hin; try done.
  - apply Forall_app. split; [done|]. by repeat constructor.
  - apply NoDup_app. split_and!; [done| |apply NoDup_singleton].
    intros x Hx ->%list_elem_of_singleton. done.
Qed.

Lemma tokens_remove tok cls :
  Str.tokens (Str.classList_remove tok cls)
  = List.filter (λ t, negb (String.eqb t tok)) (Str.tokens cls).
Proof.
  unfold Str.classList_remove. destruct (tokens_valid cls) as [Hf Hn].
  apply tokens_serialize.
  - apply Forall_forall. intros t [Ht _]%elem_of_List_filter.
    by apply (proj1 (Forall_forall _ _) Hf).
  - by apply NoDup_List_filter.
Qed.

Lemma tokens_toggle tok force cls :
  Str.valid_token tok = true →
  tok ∈ Str.tokens (Str.classList_toggle tok force cls) ↔ force = true.
Proof.
  intros Hv. unfold Str.classList_toggle.
  case_bool_decide as Hin; destruct force; try done.
  - rewrite tokens_remove, elem_of_List_filter. split; [|done].
    intros [_ H]. by rewrite String.eqb_refl in H.
  - rewrite tokens_add by done. split; [done|]. intros _.
    rewrite bool_decide_false by done. apply elem_of_app. right. by left.
Qed.

End class_lists.

(** X17. [classList.add] on a class attribute: the attribute's tokens
    stay, each once and in their order, and the new token is appended
    unless it is already there; adding the same token again changes
    nothing; and [classList.remove] leaves exactly the other tokens. *)
Theorem classList_add_keeps_tokens (tok cls : string) :
  Str.valid_token tok = true →
  Str.tokens (Str.classList_add tok cls)
  = (if bool_decide (tok ∈ Str.tokens cls) then Str.tokens cls
     else (Str.tokens cls ++ [tok])%list)
  ∧ Str.classList_add tok (Str.classList_add tok cls)
    = Str.classList_add tok cls
  ∧ Str.tokens (Str.classList_remove tok cls)
    = List.filter (λ t, negb (String.eqb t tok)) (Str.tokens cls).
Proof.
  intros Hv. split_and!; [by apply tokens_add| |apply tokens_remove].
  unfold Str.classList_add at 1. rewrite tokens_add by done.
  assert (tok ∈ (if bool_decide (tok ∈ Str.tokens cls) then Str.tokens cls
                 else (Str.tokens cls ++ [tok])%list)) as Hin.
  { case_bool_decide; [done|]. apply elem_of_app. right. by left. }
  rewrite (bool_decide_true _ Hin). unfold Str.classList_add.
  by case_bool_decide.
Qed.

(** X17 on a class attribute with a repeated token and a double space:
    the attribute is written back with the first [fixed] kept. *)
Lemma classList_add_keeps_tokens_witness :
  Str.classList_add "hidden" "fixed  inset-0 fixed" = "fixed inset-0 hidden"
  ∧ Str.tokens (Str.classList_add "hidden" "fixed  inset-0 fixed")
    = (if bool_decide ("hidden" ∈ Str.tokens "fixed  inset-0 fixed")
       then Str.tokens "fixed  inset-0 fixed"
       else (Str.tokens "fixed  inset-0 fixed" ++ ["hidden"])%list)
  ∧ Str.classList_add "hidden"
      (Str.classList_add "hidden" "fixed  inset-0 fixed")
    = Str.classList_add "hidden" "fixed  inset-0 fixed"
  ∧ Str.tokens (Str.classList_remove "hidden" "fixed  inset-0 fixed")
    = List.filter (λ t, negb (String.eqb t "hidden"))
        (Str.tokens "fixed  inset-0 fixed").
Proof.
  split; [reflexivity|].
  apply (classList_add_keeps_tokens "hidden" "fixed  inset-0 fixed").
  reflexivity.
Defined.

(** X18. The theme toggle.  After [initThemeToggle] and after every click
    the class lists follow the mode: the body has the token [light]
    exactly in light mode, the sun icon is hidden exactly in dark mode
    and the moon icon exactly in light mode, so one of the two icons is
    shown.  A click inverts the mode, and the value it stores makes the
    next page load start in the mode just chosen, whatever the system
    preference is. *)
Theorem theme_classes_follow_mode (prefDark : bool) (th : Theme.t) :
  let follows th' :=
    ("light" ∈ Str.tokens (Theme.body_class th')
     ↔ Theme.isDarkMode th' = false)
    ∧ ("hidden" ∈ Str.tokens (Theme.sun_class th')
       ↔ Theme.isDarkMode th' = true)
    ∧ ("hidden" ∈ Str.tokens (Theme.moon_class th')
       ↔ Theme.isDarkMode th' = false) in
  follows (Theme.initThemeToggle prefDark th)
  ∧ follows (Theme.click th)
  ∧ Theme.isDarkMode (Theme.click th) = negb (Theme.isDarkMode th)
  ∧ Theme.initial_mode (Theme.stored (Theme.click th)) prefDark
    = Theme.isDarkMode (Theme.click th).
Proof.
  assert (∀ th0,
    ("light" ∈ Str.tokens (Theme.body_class (Theme.update th0))
     ↔ Theme.isDarkMode (Theme.update th0) = false)
    ∧ ("hidden" ∈ Str.tokens (Theme.sun_class (Theme.update th0))
       ↔ Theme.isDarkMode (Theme.update th0) = true)
    ∧ ("hidden" ∈ Str.tokens (Theme.moon_class (Theme.update th0))
       ↔ Theme.isDarkMode (Theme.update th0) = false)) as Hu.
  { intros th0. unfold Theme.update.
    cbn [Theme.body_class Theme.sun_class Theme.moon_class Theme.isDarkMode].
    rewrite !tokens_toggle by done.
    by destruct (Theme.isDarkMode th0). }
  split_and!; [apply Hu..| |].
  - done.
  - unfold Theme.click, Theme.update. cbn [Theme.stored Theme.isDarkMode].
    by destruct (Theme.isDarkMode th).
Qed.

(** ** Rendering and start-up *)

Section page.

Variable toLocaleDateString : string → string.

Lemma showError_lookup id msg (d : Document) j :
  Page.showError id msg d !! j
  = if decide (id = j)
    then set_innerHTML (Markup.error_message msg) <$> d !! j
    else d !! j.
Proof.
  unfold Page.showError. rewrite lookup_alter. by case_decide; subst.
Qed.

Lemma showError_is_Some id msg (d : Document) j :
  is_Some (Page.showError id msg d !! j) ↔ is_Some (d !! j).
Proof.
  rewrite showError_lookup. case_decide; [|done]. by rewrite fmap_is_Some.
Qed.

(** One render step, in general form. *)
Lemma render_step (container key msg : string) (res : option Page.Chart)
    (pg : Page.t) :
  let pg' :=
    match Page.dom pg !! container, res with
    | Some _, Some c => Page.set_chart key c pg
    | _, _ =>
        Page.set_dom (Page.showError container msg (Page.dom pg)) pg
    end in
  (∀ j, j ≠ container → Page.dom pg' !! j = Page.dom pg !! j)
  ∧ (∀ k, k ≠ key → Page.charts pg' !! k = Page.charts pg !! k)
  ∧ Page.dom pg' !! container
    = (match res with
       | Some _ => λ el, el
       | None => set_innerHTML (Markup.error_message msg)
       end) <$> Page.dom pg !! container
  ∧ Page.charts pg' !! key
    = match Page.dom pg !! container, res with
      | Some _, Some c => Some c
      | _, _ => Page.charts pg !! key
      end.
Proof.
  destruct (Page.dom pg !! container) as [el|] eqn:E, res as [c|];
    cbn [Page.dom Page.charts Page.set_dom Page.set_chart]; split_and!;
    try (intros j Hj; rewrite ?showError_lookup, ?decide_False by done);
    rewrite ?showError_lookup, ?decide_True, ?E by done;
    rewrite ?lookup_insert_eq; try done.
  all: by rewrite lookup_insert_ne.
Qed.

Lemma renderAllCharts_spec st pg :
  let pg' := Page.renderAllCharts st pg in
  let outcome container key msg (res : option Page.Chart) :=
    Page.dom pg' !! container
    = (match res with
       | Some _ => λ el, el
       | None => set_innerHTML (Markup.error_message msg)
       end) <$> Page.dom pg !! container
    ∧ Page.charts pg' !! key
      = match Page.dom pg !! container, res with
        | Some _, Some c => Some c
        | _, _ => Page.charts pg !! key
        end in
  outcome "co2-chart" "co2" Page.co2_unavailable
          (Page.Line <$> CO2Chart.renderCO2Chart st)
  ∧ outcome "temperature-chart" "temperature" Page.temperature_unavailable
            (Page.Bars <$> TempChart.renderTemperatureChart st)
  ∧ outcome "seaice-chart" "seaIce" Page.seaice_unavailable
            (Page.Line <$> SeaIceChart.renderSeaIceChart st)
  ∧ (∀ j, j ∉ Page.containers → Page.dom pg' !! j = Page.dom pg !! j)
  ∧ (∀ k, k ∉ ["co2"; "temperature"; "seaIce"] →
       Page.charts pg' !! k = Page.charts pg !! k).
Proof.
  intros pg' outcome. subst pg' outcome. unfold Page.renderAllCharts.
  set (p1 := Page.renderCO2Chart st pg).
  set (p2 := Page.renderTemperatureChart st p1).
  set (p3 := Page.renderSeaIceChart st p2).
  pose proof (render_step "co2-chart" "co2" Page.co2_unavailable
                (Page.Line <$> CO2Chart.renderCO2Chart st) pg) as H1.
  pose proof (render_step "temperature-chart" "temperature"
                Page.temperature_unavailable
                (Page.Bars <$> TempChart.renderTemperatureChart st) p1) as H2.
  pose proof (render_step "seaice-chart" "seaIce" Page.seaice_unavailable
                (Page.Line <$> SeaIceChart.renderSeaIceChart st) p2) as H3.
  cbv zeta in H1, H2, H3.
  assert (match Page.dom pg !! "co2-chart",
                Page.Line <$> CO2Chart.renderCO2Chart st with
          | Some _, Some c => Page.set_chart "co2" c pg
          | _, _ =>
              Page.set_dom
                (Page.showError "co2-chart" Page.co2_unavailable (Page.dom pg))
                pg
          end = p1) as E1.
  { subst p1. unfold Page.renderCO2Chart.
    by destruct (Page.dom pg !! "co2-chart"), (CO2Chart.renderCO2Chart st). }
  assert (match Page.dom p1 !! "temperature-chart",
                Page.Bars <$> TempChart.renderTemperatureChart st with
          | Some _, Some c => Page.set_chart "temperature" c p1
          | _, _ =>
              Page.set_dom
                (Page.showError "temperature-chart"
                   Page.temperature_unavailable (Page.dom p1)) p1
          end = p2) as E2.
  { subst p2. unfold Page.renderTemperatureChart.
    by destruct (Page.dom p1 !! "temperature-chart"),
                (TempChart.renderTemperatureChart st). }
  assert (match Page.dom p2 !! "seaice-chart",
                Page.Line <$> SeaIceChart.renderSeaIceChart st with
          | Some _, Some c => Page.set_chart "seaIce" c p2
          | _, _ =>
              Page.set_dom
                (Page.showError "seaice-chart" Page.seaice_unavailable
                   (Page.dom p2)) p2
          end = p3) as E3.
  { subst p3. unfold Page.renderSeaIceChart.
    by destruct (Page.dom p2 !! "seaice-chart"),
                (SeaIceChart.renderSeaIceChart st). }
  rewrite E1 in H1. rewrite E2 in H2. rewrite E3 in H3.
  clearbody p1 p2 p3. clear E1 E2 E3.
  destruct H1 as (D1 & C1 & Dc1 & Cc1), H2 as (D2 & C2 & Dc2 & Cc2),
           H3 as (D3 & C3 & Dc3 & Cc3).
  split_and!.
  - by rewrite D3, D2.
  - by rewrite C3, C2.
  - by rewrite D3, Dc2, D1.
  - by rewrite C3, Cc2, D1, C1.
  - by rewrite Dc3, D2, D1.
  - by rewrite Cc3, D2, D1, C2, C1.
  - intros j Hj. rewrite D3, D2, D1; [done|..]; intros ->; apply Hj;
      apply (bool_decide_unpack _); by vm_compute.
  - intros k Hk. rewrite C3, C2, C1; [done|..]; intros ->; apply Hk;
      apply (bool_decide_unpack _); by vm_compute.
Qed.

Lemma renderAllCharts_is_Some st pg j :
  is_Some (Page.dom (Page.renderAllCharts st pg) !! j)
  ↔ is_Some (Page.dom pg !! j).
Proof.
  destruct (renderAllCharts_spec st pg)
    as ([H1 _] & [H2 _] & [H3 _] & Hd & _).
  destruct (decide (j ∈ Page.containers)) as [Hj|Hj]; [|by rewrite Hd].
  unfold Page.containers in Hj.
  repeat (apply elem_of_cons in Hj as [->|Hj]);
    [rewrite H1|rewrite H2|rewrite H3|by apply elem_of_nil in Hj];
    by rewrite fmap_is_Some.
Qed.

Lemma hideLoading_lookup (d : Document) j :
  Page.hideLoading d !! j
  = if decide (j = "loading-overlay")
    then (λ el, set_className (Str.classList_add "hidden" (className el)) el)
           <$> d !! j
    else d !! j.
Proof.
  unfold Page.hideLoading. rewrite lookup_alter.
  by repeat case_decide; subst.
Qed.

(** [initThemeToggle] completes exactly when the two icons and the toggle
    are on the page; it then changes the class of the icons only. *)
Lemma initThemeToggle_cases prefDark pg :
  Forall (λ id, is_Some (Page.dom pg !! id)) Page.theme_ids
  ∧ (∃ pg1, Page.initThemeToggle prefDark pg = Ok pg1
            ∧ Page.charts pg1 = Page.charts pg
            ∧ (∀ j, is_Some (Page.dom pg1 !! j) ↔ is_Some (Page.dom pg !! j))
            ∧ ∀ j, j ≠ "sun-icon" → j ≠ "moon-icon" →
                Page.dom pg1 !! j = Page.dom pg !! j)
  ∨ ¬ Forall (λ id, is_Some (Page.dom pg !! id)) Page.theme_ids
    ∧ Page.initThemeToggle prefDark pg = Raise TypeError.
Proof.
  unfold Page.initThemeToggle, Page.theme_ids.
  rewrite !Forall_cons, Forall_nil.
  destruct (Page.dom pg !! "sun-icon") as [sun|] eqn:Es; cycle 1.
  { right. split; [|done]. by intros [[? ?] _]. }
  destruct (Page.dom pg !! "moon-icon") as [moon|] eqn:Em; cycle 1.
  { right. split; [|done]. by intros (_ & [? ?] & _). }
  destruct (Page.dom pg !! "theme-toggle") as [tg|] eqn:Et; cycle 1.
  { right. split; [|done]. by intros (_ & _ & [? ?] & _). }
  left. split; [by eauto|]. eexists. split; [done|].
  cbn [Page.dom Page.charts]. split_and!; [done| |].
  - intros j. destruct (decide (j = "moon-icon")) as [->|Hm].
    { rewrite lookup_insert_eq, Em. by split; eauto. }
    rewrite lookup_insert_ne by done.
    destruct (decide (j = "sun-icon")) as [->|Hs].
    { rewrite lookup_insert_eq, Es. by split; eauto. }
    by rewrite lookup_insert_ne.
  - intros j Hs Hm. by rewrite !lookup_insert_ne.
Qed.

End page.


(** X20. Start-up, with the documents as the fetches left them.  [init]
    fails, with a [TypeError] and before it reaches [hideLoading], so that
    the loading overlay stays, exactly in two cases: the page lacks one
    of the elements [sun-icon], [moon-icon] and [theme-toggle] that
    [initThemeToggle] uses without a guard, or at least one document was
    loaded and the page lacks an element that [updateStats] writes to
    without a guard.  In every other case it completes, no element
    appears or disappears, the overlay (when the page has one) gets the
    token [hidden] and keeps its other tokens and its children; and when
    no document was loaded the children of every chart container are
    replaced by the error markup with the common message, and no chart is
    registered or dropped. *)
Theorem init_hides_overlay_unless_setup_fails
    (toLocaleDateString : string → string) (prefDark : bool)
    (st : State) (pg : Page.t) :
  (Page.init toLocaleDateString prefDark st pg = Raise TypeError
   ↔ (∃ id, id ∈ Page.theme_ids ∧ Page.dom pg !! id = None)
     ∨ (Page.loaded st = true
        ∧ ∃ id, id ∈ unguarded st ∧ Page.dom pg !! id = None))
  ∧ Page.init toLocaleDateString prefDark st pg ≠ Raise RangeError
  ∧ ∀ pg', Page.init toLocaleDateString prefDark st pg = Ok pg' →
      (∀ j, is_Some (Page.dom pg' !! j) ↔ is_Some (Page.dom pg !! j))
      ∧ (∀ el, Page.dom pg !! "loading-overlay" = Some el →
           ∃ cls,
             Page.dom pg' !! "loading-overlay" = Some (set_className cls el)
             ∧ "hidden" ∈ Str.tokens cls
             ∧ ∀ t, t ≠ "hidden" →
                 t ∈ Str.tokens cls ↔ t ∈ Str.tokens (className el))
      ∧ (Page.loaded st = false →
           Page.charts pg' = Page.charts pg
           ∧ ∀ c el, c ∈ Page.containers → Page.dom pg !! c = Some el →
               Page.dom pg' !! c
               = Some (set_innerHTML
                         (Markup.error_message Page.data_unavailable) el)).
Proof.
  assert (∀ el, ∃ cls,
    set_className (Str.classList_add "hidden" (className el)) el
    = set_className cls el
    ∧ "hidden" ∈ Str.tokens cls
    ∧ ∀ t, t ≠ "hidden" →
        t ∈ Str.tokens cls ↔ t ∈ Str.tokens (className el)) as Hov.
  { intros el. exists (Str.classList_add "hidden" (className el)).
    split; [done|]. rewrite tokens_add by done.
    case_bool_decide as Hin; split; try done.
    - apply elem_of_app. right. by left.
    - intros t Ht. rewrite elem_of_app, list_elem_of_singleton. tauto. }
  assert (∀ (P : string → Prop) l,
            (∀ id, P id ∨ ¬ P id) →
            ¬ Forall P l ↔ ∃ id, id ∈ l ∧ ¬ P id) as Hneg.
  { intros P l HP. rewrite <- Exists_Forall_neg by done.
    by rewrite Exists_exists. }
  assert (∀ (d : Document) l,
            ¬ Forall (λ id, is_Some (d !! id)) l
            ↔ ∃ id, id ∈ l ∧ d !! id = None) as Hmiss.
  { intros d l. rewrite Hneg by (intros id; destruct (d !! id); eauto).
    by setoid_rewrite eq_None_not_Some. }
  unfold Page.init.
  destruct (initThemeToggle_cases prefDark pg)
    as [[HT (pg1 & -> & Hc1 & Hk1 & Hd1)]|[HT ->]]; cycle 1.
  { split_and!; [|done|done]. split; [|done]. intros _. left.
    by apply Hmiss. }
  rewrite result_bind_ok.
  assert (¬ ∃ id, id ∈ Page.theme_ids ∧ Page.dom pg !! id = None) as HnT.
  { rewrite <- Hmiss. tauto. }
  assert (Forall (λ id, is_Some (Page.dom pg1 !! id)) (unguarded st)
          ↔ Forall (λ id, is_Some (Page.dom pg !! id)) (unguarded st)) as HU.
  { apply Forall_iff. intros id. apply Hk1. }
  destruct (Page.loaded st) eqn:El.
  - destruct (updateStats_cases toLocaleDateString st (Page.dom pg1))
      as [[HF (d & -> & Hk & Hw)]|[HF ->]].
    + rewrite !result_bind_ok. split_and!; [|done|].
      * split; [done|]. intros [Hm|[_ Hm]]; exfalso; [by apply HnT|].
        apply Hmiss in Hm. apply Hm. by apply HU.
      * intros pg' [= <-]. cbn [Page.dom Page.charts Page.set_dom].
        set (p := Page.set_dom d pg1).
        destruct (renderAllCharts_spec st p) as (_ & _ & _ & Hd & _).
        split_and!; [| |done].
        -- intros j. rewrite hideLoading_lookup.
           transitivity (is_Some (Page.dom (Page.renderAllCharts st p) !! j)).
           { case_decide; [|done]. by rewrite fmap_is_Some. }
           rewrite renderAllCharts_is_Some. subst p. cbn [Page.dom Page.set_dom].
           by rewrite Hk.
        -- intros el Hel. rewrite hideLoading_lookup, decide_True by done.
           rewrite Hd by (apply (bool_decide_unpack _); by vm_compute).
           subst p. cbn [Page.dom Page.set_dom].
           rewrite Hw by (apply (bool_decide_unpack _); by vm_compute).
           rewrite Hd1, Hel by done. cbn [fmap option_fmap option_map].
           destruct (Hov el) as (cls & -> & ?). by exists cls.
    + split_and!; [|done|done]. split; [|done]. intros _. right.
      split; [done|]. apply Hmiss. by rewrite <- HU.
  - rewrite !result_bind_ok. split_and!; [|done|].
    { split; [done|]. intros [Hm|[? _]]; [|done]. exfalso. by apply HnT. }
    intros pg' [= <-]. cbn [Page.dom Page.charts Page.set_dom]. split_and!.
    + intros j. rewrite hideLoading_lookup.
      transitivity (is_Some
        (Page.showError "seaice-chart" Page.data_unavailable
           (Page.showError "temperature-chart" Page.data_unavailable
              (Page.showError "co2-chart" Page.data_unavailable
                 (Page.dom pg1))) !! j)).
      { case_decide; [|done]. by rewrite fmap_is_Some. }
      by rewrite !showError_is_Some.
    + intros el Hel. rewrite hideLoading_lookup, decide_True by done.
      rewrite !showError_lookup, !decide_False by done.
      rewrite Hd1, Hel by done. cbn [fmap option_fmap option_map].
      destruct (Hov el) as (cls & -> & ?). by exists cls.
    + intros _. split; [done|]. intros c el Hc Hel.
      rewrite hideLoading_lookup.
      unfold Page.containers in Hc.
      repeat (apply elem_of_cons in Hc as [->|Hc]);
        [..|by apply elem_of_nil in Hc];
        rewrite decide_False by done;
        rewrite !showError_lookup;
        repeat (first [rewrite decide_True by done
                      |rewrite decide_False by done]);
        by rewrite Hd1, Hel.
Qed.

(** ** The tiles *)

Section tile_contents.

Lemma element_ok id (f : Element → result Element) dom :
  (∀ el, ∃ el', f el = Ok el') → is_Some (dom !! id) →
  ∃ dom', element id f dom = Ok dom'
          ∧ (∀ j, j ≠ id → dom' !! j = dom !! j)
          ∧ dom' !! id
            = (λ el, match f el with Ok el' => el' | Raise _ => el end)
                <$> dom !! id.
Proof.
  intros Hf [el E].
  destruct (if_element_ok id f dom Hf) as (dom' & H & Hw).
  exists dom'. split; [|done]. unfold element, if_element in *.
  by rewrite E in *.
Qed.

Lemma co2Stats_kpi_element st doc obs latest dom el :
  co2Data st = Some doc → co2_data doc = Some obs →
  Stats.latestCO2 obs = Some latest →
  dom !! "co2-kpi" = Some el →
  ∃ dom' t,
    Stats.co2Stats st dom = Ok dom'
    ∧ signed_text (Stats.co2_change obs latest) = Ok t
    ∧ dom' !! "co2-kpi"
      = Some (set_className
                (Stats.kpi_class
                   (negb (0 <=? Stats.co2_change obs latest)%float))
                (set_textContent t el)).
Proof.
  intros Hst Hd Hl Hel. unfold Stats.co2Stats. rewrite Hst.
  destruct doc as [dd lu]. cbn [co2_data] in *. subst dd.
  cbv beta iota. rewrite Hl. cbv beta iota.
  destruct (if_element_ok "co2-date"
    (λ el, Ok (set_textContent
                 (getMonthName (co2_month latest) ++ " "
                  ++ Js.key_of_int (co2_year latest) ++ " â€¢") el)) dom)
    as (dom1 & -> & H1 & _); [eauto|]. rewrite result_bind_ok; cbv beta zeta.
  destruct (signed_text_spec (Stats.co2_change obs latest)) as (s & Hs & Ht & _).
  destruct (if_element_ok "co2-kpi"
    (λ el, t ← signed_text (Stats.co2_change obs latest);
           Ok (set_className
                 (Stats.kpi_class (negb (0 <=? Stats.co2_change obs latest)%float))
                 (set_textContent t el))) dom1)
    as (dom2 & -> & H2 & H2'); [intros; apply signed_text_ok; eauto|].
  rewrite result_bind_ok; cbv beta zeta.
  destruct (if_element_ok "co2-absolute"
    (λ el, t ← formatNumber (Num (average latest)) 2;
           Ok (set_innerHTML (Markup.co2_absolute t) el)) dom2)
    as (dom3 & -> & H3 & _); [intros; apply formatNumber_ok; eauto|].
  eexists _, _. split_and!; [done..|].
  rewrite H3, H2', H1, Hel by done. cbn [fmap option_fmap option_map].
  by rewrite Ht.
Qed.

Lemma iceStats_kpi_element st doc d y latest dom el :
  seaIceData st = Some doc → ice_data doc = Some d →
  Stats.ice_latest d = Some (y, latest) →
  dom !! "ice-kpi" = Some el →
  ∃ dom' t,
    Stats.iceStats st dom = Ok dom'
    ∧ signed_text (Stats.ice_diff (median doc) latest) = Ok t
    ∧ dom' !! "ice-kpi"
      = Some (set_className
                (Stats.kpi_class (0 <=? Stats.ice_diff (median doc) latest)%float)
                (set_textContent t el)).
Proof.
  intros Hst Hd Hl Hel. unfold Stats.iceStats. rewrite Hst.
  destruct doc as [dd med lu]. cbn [ice_data median] in *. subst dd.
  cbv beta iota. rewrite Hl. cbv beta iota.
  destruct (if_element_ok "ice-date"
    (λ el, Ok (set_textContent
                 (getMonthName (ice_month latest) ++ " " ++ y ++ " â€¢") el)) dom)
    as (dom1 & -> & H1 & _); [eauto|]. rewrite result_bind_ok; cbv beta zeta.
  destruct (signed_text_spec (Stats.ice_diff med latest)) as (s & Hs & Ht & _).
  destruct (if_element_ok "ice-kpi"
    (λ el, t ← signed_text (Stats.ice_diff med latest);
           Ok (set_className
                 (Stats.kpi_class (0 <=? Stats.ice_diff med latest)%float)
                 (set_textContent t el))) dom1)
    as (dom2 & -> & H2 & H2'); [intros; apply signed_text_ok; eauto|].
  rewrite result_bind_ok; cbv beta zeta.
  destruct (if_element_ok "ice-absolute"
    (λ el, t ← formatNumber (Num (extent latest)) 2;
           Ok (set_innerHTML (Markup.ice_absolute t) el)) dom2)
    as (dom3 & -> & H3 & _); [intros; apply formatNumber_ok; eauto|].
  eexists _, _. split_and!; [done..|].
  rewrite H3, H2', H1, Hel by done. cbn [fmap option_fmap option_map].
  by rewrite Ht.
Qed.

(** The sign in front of a tile's number. *)
Lemma signed_text_head x t :
  signed_text x = Ok t → head_is "+" t = (0 <=? x)%float.
Proof.
  destruct (signed_text_spec x) as (s & _ & -> & Hh). intros [= <-].
  destruct (0 <=? x)%float; [done|]. exact Hh.
Qed.

Lemma tempStats_tile st doc obs latest dom el :
  temperatureData st = Some doc → temp_data doc = Some obs →
  last obs = Some latest →
  dom !! "current-temp" = Some el →
  (∀ s, Stats.truthy_stamp (baseline doc) = Some s →
        is_Some (dom !! "temp-baseline")) →
  ∃ dom' t,
    Stats.tempStats st dom = Ok dom'
    ∧ signed_text (anomaly latest) = Ok t
    ∧ dom' !! "current-temp" = Some (set_textContent t el)
    ∧ dom' !! "temp-date"
      = set_textContent
          (getMonthName (temp_month latest) ++ " "
           ++ Js.key_of_int (temp_year latest) ++ " â€¢") <$> dom !! "temp-date"
    ∧ dom' !! "temp-baseline"
      = match Stats.truthy_stamp (baseline doc) with
        | Some s => set_textContent s <$> dom !! "temp-baseline"
        | None => dom !! "temp-baseline"
        end.
Proof.
  intros Hst Hd Hl Hel Hb. unfold Stats.tempStats. rewrite Hst.
  destruct doc as [dd b lu]. cbn [temp_data baseline] in *. subst dd.
  cbv beta iota. rewrite Hl. cbv beta iota.
  destruct (signed_text_spec (anomaly latest)) as (s0 & Hs & Ht & _).
  set (s := (if (0 <=? anomaly latest)%float then "+" else "") ++ s0) in *.
  destruct (element_ok "current-temp"
    (λ el, t ← signed_text (anomaly latest); Ok (set_textContent t el)) dom)
    as (dom1 & -> & H1 & H1'); [intros; apply signed_text_ok; eauto|eauto|].
  rewrite result_bind_ok; cbv beta zeta.
  destruct (if_element_ok "temp-date"
    (λ el, Ok (set_textContent
                 (getMonthName (temp_month latest) ++ " "
                  ++ Js.key_of_int (temp_year latest) ++ " â€¢") el)) dom1)
    as (dom2 & -> & H2 & H2'); [eauto|]. rewrite result_bind_ok; cbv beta zeta.
  assert (dom2 !! "current-temp" = Some (set_textContent s el)) as Hc.
  { rewrite H2, H1', Hel by done. cbn [fmap option_fmap option_map].
    by rewrite Ht. }
  assert (dom2 !! "temp-date"
          = set_textContent
              (getMonthName (temp_month latest) ++ " "
               ++ Js.key_of_int (temp_year latest) ++ " â€¢")
              <$> dom !! "temp-date") as Hdate.
  { rewrite H2', H1 by done. by destruct (dom !! "temp-date"). }
  assert (dom2 !! "temp-baseline" = dom !! "temp-baseline") as Hbase.
  { by rewrite H2, H1. }
  unfold Stats.truthy_stamp in *.
  destruct b as [bs|]; [destruct (Js.truthy_str bs)|];
    try (exists dom2, s; split_and!; done).
  destruct (element_ok "temp-baseline"
    (λ el, Ok (set_textContent bs el)) dom2)
    as (dom3 & -> & H3 & H3'); [eauto|rewrite Hbase; by eapply Hb|].
  exists dom3, s. split_and!; [done..| | |].
  - by rewrite H3.
  - by rewrite H3.
  - rewrite H3', Hbase. by destruct (dom !! "temp-baseline").
Qed.

End tile_contents.

(** X21. The colour of a KPI tile agrees with the sign it shows: the
    tile's children are one text node, and the CO2
    tile is red exactly when that text starts with [+] (the change is not
    negative, which includes the default 0 when last year's value is
    missing) and teal otherwise; the sea-ice tile is teal exactly when
    its text starts with [+] and red otherwise. *)
Theorem kpi_colour_agrees_with_sign (st : State) (dom : Document) :
  (∀ doc obs latest el,
     co2Data st = Some doc → co2_data doc = Some obs →
     Stats.latestCO2 obs = Some latest → dom !! "co2-kpi" = Some el →
     ∃ dom' el' t,
       Stats.co2Stats st dom = Ok dom' ∧ dom' !! "co2-kpi" = Some el'
       ∧ children el' = Text t
       ∧ className el' = Stats.kpi_class (negb (head_is "+" t)))
  ∧ (∀ doc d y latest el,
       seaIceData st = Some doc → ice_data doc = Some d →
       Stats.ice_latest d = Some (y, latest) → dom !! "ice-kpi" = Some el →
       ∃ dom' el' t,
         Stats.iceStats st dom = Ok dom' ∧ dom' !! "ice-kpi" = Some el'
         ∧ children el' = Text t
         ∧ className el' = Stats.kpi_class (head_is "+" t)).
Proof.
  split.
  - intros doc obs latest el Hst Hd Hl Hel.
    destruct (co2Stats_kpi_element st doc obs latest dom el Hst Hd Hl Hel)
      as (dom' & t & Hs & Ht & Hk).
    eexists _, _, _. split_and!; [done..|].
    cbn [className set_className set_textContent].
    by rewrite (signed_text_head _ _ Ht).
  - intros doc d y latest el Hst Hd Hl Hel.
    destruct (iceStats_kpi_element st doc d y latest dom el Hst Hd Hl Hel)
      as (dom' & t & Hs & Ht & Hk).
    eexists _, _, _. split_and!; [done..|].
    cbn [className set_className set_textContent].
    by rewrite (signed_text_head _ _ Ht).
Qed.

(** X22. When the temperature document has observations and the page has
    the elements the block needs, the children of the temperature tile
    are replaced by one text node with the signed text of the anomaly of
    the document's last observation, those of the date element by that
    observation's month name and year followed by the bullet as the
    source file stores it, and those of the baseline element by the
    document's baseline text when that is not empty; the observation is
    the one of the chart's last bar. *)
Theorem temperature_tile_shows_last_anomaly st doc obs latest dom el :
  temperatureData st = Some doc → temp_data doc = Some obs →
  last obs = Some latest →
  dom !! "current-temp" = Some el →
  (∀ s, Stats.truthy_stamp (baseline doc) = Some s →
        is_Some (dom !! "temp-baseline")) →
  (∃ dom' t,
     Stats.tempStats st dom = Ok dom'
     ∧ signed_text (anomaly latest) = Ok t
     ∧ dom' !! "current-temp" = Some (set_textContent t el)
     ∧ dom' !! "temp-date"
       = set_textContent
           (getMonthName (temp_month latest) ++ " "
            ++ Js.key_of_int (temp_year latest) ++ " â€¢") <$> dom !! "temp-date"
     ∧ dom' !! "temp-baseline"
       = match Stats.truthy_stamp (baseline doc) with
         | Some s => set_textContent s <$> dom !! "temp-baseline"
         | None => dom !! "temp-baseline"
         end)
  ∧ last (TempChart.points obs)
    = Some {| TempChart.x := TempChart.label latest;
              TempChart.y := anomaly latest |}.
Proof.
  intros Hst Hd Hl Hel Hb. split; [by eapply tempStats_tile|].
  unfold TempChart.points. rewrite fmap_last, slice_last_last by lia.
  by rewrite Hl.
Qed.

(** X22 on a document with one observation and a baseline text. *)
Lemma temperature_tile_shows_last_anomaly_witness :
  (∃ dom' t,
     Stats.tempStats
       (Fixture.temp_state [Fixture.temp 2024 5 1.25] (Some "1951-1980"))
       Fixture.temp_page = Ok dom'
     ∧ signed_text 1.25 = Ok t
     ∧ dom' !! "current-temp" = Some (set_textContent t Sample.blank)
     ∧ dom' !! "temp-date"
       = set_textContent (getMonthName 5 ++ " " ++ Js.key_of_int 2024 ++ " â€¢")
           <$> Fixture.temp_page !! "temp-date"
     ∧ dom' !! "temp-baseline"
       = match Stats.truthy_stamp (Some "1951-1980") with
         | Some s => set_textContent s <$> Fixture.temp_page !! "temp-baseline"
         | None => Fixture.temp_page !! "temp-baseline"
         end)
  ∧ last (TempChart.points [Fixture.temp 2024 5 1.25])
    = Some {| TempChart.x := TempChart.label (Fixture.temp 2024 5 1.25);
              TempChart.y := 1.25 |}.
Proof.
  apply (temperature_tile_shows_last_anomaly
           (Fixture.temp_state [Fixture.temp 2024 5 1.25] (Some "1951-1980"))
           {| temp_data := Some [Fixture.temp 2024 5 1.25];
              baseline := Some "1951-1980"; temp_last_updated := None |}
           [Fixture.temp 2024 5 1.25] (Fixture.temp 2024 5 1.25)
           Fixture.temp_page Sample.blank); try reflexivity.
  intros s _. by eexists.
Defined.

(** X21 on the CO2 document whose 2024-06 equals its 2023-06. *)
Lemma kpi_colour_agrees_with_sign_witness :
  ∃ dom' el' t,
    Stats.co2Stats (Sample.co2_state Sample.no_change)
                   {[ "co2-kpi" := Sample.blank ]} = Ok dom'
    ∧ dom' !! "co2-kpi" = Some el'
    ∧ children el' = Text t
    ∧ className el' = Stats.kpi_class (negb (head_is "+" t)).
Proof.
  apply (proj1 (kpi_colour_agrees_with_sign
                  (Sample.co2_state Sample.no_change)
                  {[ "co2-kpi" := Sample.blank ]})
           {| co2_data := Some Sample.no_change; co2_last_updated := None |}
           Sample.no_change (Sample.co2 2024 6 420) Sample.blank);
    reflexivity.
Defined.

(** ** The order of the observations *)

Section order.

Lemma set_month_comm m1 v1 m2 v2 (b : list slot) :
  valid_month m1 = true → valid_month m2 = true → m1 ≠ m2 →
  set_month m1 v1 (set_month m2 v2 b) = set_month m2 v2 (set_month m1 v1 b).
Proof.
  intros H1 H2 Hne. unfold set_month. apply list_insert_insert_ne.
  unfold valid_month in *. lia.
Qed.

Lemma group_step_comm acc d1 d2 :
  co2_date d1 ≠ co2_date d2 →
  CO2.group_step (CO2.group_step acc d1) d2
  = CO2.group_step (CO2.group_step acc d2) d1.
Proof.
  intros Hne. apply map_eq. intros k. rewrite !group_step_lookup.
  destruct (decide (Js.key_of_int (co2_year d1) = k)) as [E1|E1],
           (decide (Js.key_of_int (co2_year d2) = k)) as [E2|E2];
    try done.
  cbn [default]. f_equal.
  destruct (valid_month (co2_month d1)) eqn:V1,
           (valid_month (co2_month d2)) eqn:V2; try done.
  symmetry. apply set_month_comm; [done..|].
  intros Hm. apply Hne. unfold co2_date. f_equal; [|done].
  apply key_of_int_inj. congruence.
Qed.

Lemma foldl_group_perm l1 l2 :
  l1 ≡ₚ l2 → NoDup (co2_date <$> l1) →
  ∀ acc, foldl CO2.group_step acc l1 = foldl CO2.group_step acc l2.
Proof.
  induction 1 as [|x l l' Hp IH|x y l|l l' l'' Hp1 IH1 Hp2 IH2];
    intros Hn acc.
  - done.
  - simpl. apply IH. by apply NoDup_cons in Hn as [_ ?].
  - simpl. f_equal. apply group_step_comm.
    rewrite !fmap_cons in Hn. apply NoDup_cons in Hn as [Hy _].
    intros E. apply Hy. rewrite E. by left.
  - rewrite IH1 by done. apply IH2. by rewrite <- Hp1.
Qed.

Lemma ice_step_comm md d1 d2 :
  ice_month d1 ≠ ice_month d2 →
  SeaIce.ice_step (SeaIce.ice_step md d1) d2
  = SeaIce.ice_step (SeaIce.ice_step md d2) d1.
Proof.
  intros Hne. unfold SeaIce.ice_step.
  destruct (valid_month (ice_month d1)) eqn:V1,
           (valid_month (ice_month d2)) eqn:V2; try done.
  symmetry. by apply set_month_comm.
Qed.

Lemma foldl_ice_perm l1 l2 :
  l1 ≡ₚ l2 → NoDup (ice_month <$> l1) →
  ∀ md, foldl SeaIce.ice_step md l1 = foldl SeaIce.ice_step md l2.
Proof.
  induction 1 as [|x l l' Hp IH|x y l|l l' l'' Hp1 IH1 Hp2 IH2];
    intros Hn md.
  - done.
  - simpl. apply IH. by apply NoDup_cons in Hn as [_ ?].
  - simpl. f_equal. apply ice_step_comm.
    rewrite !fmap_cons in Hn. apply NoDup_cons in Hn as [Hy _].
    intros E. apply Hy. rewrite E. by left.
  - rewrite IH1 by done. apply IH2. by rewrite <- Hp1.
Qed.

Lemma foldl_baseline_skip s e l1 d l2 acc :
  (s <=? co2_year d) && (co2_year d <=? e)
  && (1 <=? co2_month d) && (co2_month d <=? 12) = false →
  foldl (baseline_step s e) acc (l1 ++ d :: l2)
  = foldl (baseline_step s e) acc (l1 ++ l2).
Proof.
  intros H. rewrite !foldl_app. cbn [foldl]. f_equal.
  unfold baseline_step. by rewrite H.
Qed.

End order.

(** X23. The year buckets do not depend on the order of the observations
    in the document, as long as no two observations have the same year
    and month: every rearrangement of such a CO2 document gives the same
    grouping and the same year series, and every rearrangement of a
    sea-ice year without a repeated month gives the same bucket.  (With a
    repeated month the later observation wins.) *)
Theorem year_buckets_do_not_depend_on_order :
  (∀ (K : nat) (obs obs' : list Co2Obs),
     NoDup (co2_date <$> obs) → obs ≡ₚ obs' →
     CO2.dataByYear obs = CO2.dataByYear obs'
     ∧ CO2.yearSeries K obs = CO2.yearSeries K obs')
  ∧ (∀ yd yd' : list IceObs,
       NoDup (ice_month <$> yd) → yd ≡ₚ yd' →
       SeaIce.yearBucket yd = SeaIce.yearBucket yd').
Proof.
  split.
  - intros K obs obs' Hn Hp.
    assert (CO2.dataByYear obs = CO2.dataByYear obs') as E
      by (by apply foldl_group_perm).
    split; [done|]. unfold CO2.yearSeries. by rewrite E.
  - intros yd yd' Hn Hp. by apply foldl_ice_perm.
Qed.

(** X23 on the two observations of 2023-06 and 2024-06, exchanged. *)
Lemma year_buckets_do_not_depend_on_order_witness :
  CO2.dataByYear Sample.no_change = CO2.dataByYear (reverse Sample.no_change)
  ∧ CO2.yearSeries 5 Sample.no_change
    = CO2.yearSeries 5 (reverse Sample.no_change).
Proof.
  apply (proj1 year_buckets_do_not_depend_on_order 5%nat
           Sample.no_change (reverse Sample.no_change)).
  - apply (bool_decide_unpack _). by vm_compute.
  - apply perm_swap.
Defined.

(** X24. An observation outside the baseline window, or with a month
    outside 1..12, does not enter the reference curve:
    [getMonthlyBaseline] gives the same twelve slots with and without
    it, whatever the rest of the document is. *)
Theorem baseline_ignores_observations_outside_window
    (startYear endYear : Z) (l1 l2 : list Co2Obs) (d : Co2Obs) :
  co2_year d < startYear ∨ endYear < co2_year d
  ∨ valid_month (co2_month d) = false →
  getMonthlyBaseline (l1 ++ d :: l2) startYear endYear
  = getMonthlyBaseline (l1 ++ l2) startYear endYear.
Proof.
  intros H. unfold getMonthlyBaseline, baseline_sums_counts.
  rewrite foldl_baseline_skip; [done|].
  unfold valid_month in H.
  destruct (Z.leb_spec startYear (co2_year d)),
           (Z.leb_spec (co2_year d) endYear); cbn [andb]; try done;
    [|lia..].
  destruct H as [?|[?|H]]; [lia..|]. done.
Qed.

(** X24 on an observation of 2024 beside one of 2000, for the window
    1991..2020. *)
Lemma baseline_ignores_observations_outside_window_witness :
  getMonthlyBaseline ([Sample.co2 2000 6 370] ++ Sample.co2 2024 6 420 :: [])
                     1991 2020
  = getMonthlyBaseline ([Sample.co2 2000 6 370] ++ []) 1991 2020.
Proof.
  apply (baseline_ignores_observations_outside_window 1991 2020
           [Sample.co2 2000 6 370] [] (Sample.co2 2024 6 420)).
  right. left. reflexivity.
Defined.

(** ** The current sea-ice observation *)

(** X25. The observation the sea-ice tile takes for the current one is
    the last element of the array of the first year after
    [sort().reverse()].  When the year keys are four-digit years and that
    array is sorted by month, it is the chronologically latest
    observation of the document. *)
Theorem ice_current_observation_of_four_digit_years
    (d : gmap string (list IceObs)) (y : string) (latest : IceObs) :
  Stats.ice_latest d = Some (y, latest) →
  (∃ earlier, d !! y = Some (earlier ++ [latest])%list)
  ∧ (∀ Y, y = Js.key_of_int Y → four_digit Y = true →
       Sorted (λ a b, ice_month a ≤ ice_month b) (d !!! y) →
       ∀ Y' l o, four_digit Y' = true →
                 d !! Js.key_of_int Y' = Some l → o ∈ l →
                 chron_le (Y', ice_month o) (Y, ice_month latest)).
Proof.
  intros Hl. unfold Stats.ice_latest, Stats.ice_years in Hl.
  destruct (reverse (Js.sort (Js.keys d))) as [|y0 rest] eqn:Hr; [done|].
  destruct (last (d !!! y0)) as [lm|] eqn:Hlast; [|done].
  injection Hl as -> ->.
  assert (Hgreat : ∀ k, is_Some (d !! k) → Js.str_le k y).
  { intros k Hk. eapply head_desc_greatest; [done|]. by apply elem_of_keys. }
  assert (Hy : is_Some (d !! y)).
  { apply elem_of_keys. rewrite <- (sort_Permutation (Js.keys d)).
    rewrite <- elem_of_reverse, Hr. apply list_elem_of_here. }
  destruct Hy as [ly Hly].
  rewrite (lookup_total_correct _ _ _ Hly) in Hlast |- *.
  split.
  - apply last_Some in Hlast as [earlier ->]. eauto.
  - intros Y -> HY Hs Y' l o HY' Hl Ho.
    assert (Y' ≤ Y) as Hle.
    { apply key_le_iff; [done..|]. apply Hgreat. by rewrite Hl. }
    destruct (decide (Y' = Y)) as [->|Hne].
    + right. simpl. split; [done|]. rewrite Hly in Hl. injection Hl as <-.
      apply (sorted_last_greatest
               (λ a b, ice_month a ≤ ice_month b) ly latest
               (Reflexive0 := λ a, Z.le_refl (ice_month a))
               (Transitive0 := λ a b c, Z.le_trans (ice_month a) (ice_month b) (ice_month c)));
        done.
    + left. simpl. lia.
Qed.

(** X25 on a document with the years 2023 and 2024. *)
Lemma ice_current_observation_of_four_digit_years_witness :
  (∃ earlier,
     Sample.ice_two_years !! "2024" = Some (earlier ++ [Sample.ice 9 4.25])%list)
  ∧ (∀ Y, "2024" = Js.key_of_int Y → four_digit Y = true →
       Sorted (λ a b, ice_month a ≤ ice_month b)
              (Sample.ice_two_years !!! "2024") →
       ∀ Y' l o, four_digit Y' = true →
                 Sample.ice_two_years !! Js.key_of_int Y' = Some l → o ∈ l →
                 chron_le (Y', ice_month o) (Y, ice_month (Sample.ice 9 4.25))).
Proof.
  apply (ice_current_observation_of_four_digit_years
           Sample.ice_two_years "2024" (Sample.ice 9 4.25)).
  reflexivity.
Defined.

(** ** The series of the line charts *)

Lemma baseline_name_is_no_year y : Js.key_of_int y ≠ CO2Chart.baseline_name.
Proof.
  intros E. destruct (Z.lt_ge_cases y 0) as [Hy|Hy].
  - rewrite key_neg in E by done. by injection E.
  - destruct (key_nonneg y Hy) as [Hd _]. rewrite E in Hd.
    by vm_compute in Hd.
Qed.

(** X3. The series of a chart are the Normalizer's year series followed by
    the reference series: in the CO2 chart always, so that it has at most
    six series, and their names are pairwise distinct because the
    baseline's name is no year; in the sea-ice chart the median series
    follows the year series when the document has a median table, and
    without one the year series are all there is.  The names of the CO2
    series do not depend on the order of the observations in the
    document. *)
Theorem reference_series_is_last (st : State) :
  (∀ spec, CO2Chart.renderCO2Chart st = Some spec →
     ∃ obs, co2Data st ≫= co2_data = Some obs
       ∧ series spec
         = (CO2.yearSeries 5 obs
            ++ [ {| name := CO2Chart.baseline_name;
                    data := getMonthlyBaseline obs 1991 2020 |} ])%list
       ∧ (length (series spec) ≤ 6)%nat
       ∧ NoDup (name <$> series spec))
  ∧ (∀ spec, SeaIceChart.renderSeaIceChart st = Some spec →
       ∃ d, seaIceData st ≫= ice_data = Some d
         ∧ series spec
           = (SeaIce.yearSeries 5 d
              ++ match seaIceData st ≫= median with
                 | Some med =>
                     [ {| name := SeaIceChart.median_name;
                          data := SeaIceChart.medianBucket med |} ]
                 | None => []
                 end)%list)
  ∧ (∀ K obs obs',
       obs ≡ₚ obs' →
       name <$> CO2Chart.chartSeries K obs
       = name <$> CO2Chart.chartSeries K obs').
Proof.
  split_and!.
  - intros spec. unfold CO2Chart.renderCO2Chart.
    destruct (co2Data st) as [[[[|d obs]|] lu]|]; try done.
    intros [= <-]. exists (d :: obs). cbn [series mbind option_bind co2_data].
    unfold CO2Chart.chartSeries. split_and!; [done..| |].
    + rewrite length_app. pose proof (co2_yearSeries_length 5 (d :: obs)).
      simpl. lia.
    + rewrite fmap_app, yearSeries_names. cbn [fmap list_fmap name].
      apply NoDup_app. split_and!.
      * apply top_NoDup, keys_NoDup.
      * intros y Hy ->%list_elem_of_singleton.
        apply top_elem_of, elem_of_keys, dataByYear_has_year in Hy
          as (o & _ & Ho).
        by apply (baseline_name_is_no_year (co2_year o)).
      * apply NoDup_singleton.
  - intros spec. unfold SeaIceChart.renderSeaIceChart.
    destruct (seaIceData st) as [[[d|] med lu]|]; try done.
    intros [= <-]. by exists d.
  - intros K obs obs' Hp. unfold CO2Chart.chartSeries.
    rewrite !fmap_app, !yearSeries_names. unfold CO2.outputYears.
    by rewrite (dataByYear_perm obs obs' Hp).
Qed.

